(** * Interactive Graphics Editor: scan conversion, transformations, picking

    A shallow embedding of [graphics_editor.py] and the properties its
    specification states about it.

    Numbers.  Python mixes two numeric types: arbitrary precision [int] and
    binary64 [float].  [num] keeps the two apart, with Python's coercion
    rules: [+], [-], [*] of two ints is an int, every other combination and
    every true division [/] is a float.  A float is a rational; there are
    no infinities and no NaN.  Two readings of the float operations are
    used.  The operations [py_add], [py_sub], [py_mul], [py_div] and
    [math_sqrt] return exact results (no rounding error): they serve the
    transformation engine, whose properties are about which entry receives
    which expression, or are stated for exact arithmetic.  The operations
    [fl_add], [fl_sub], [fl_mul], [fl_div], [fl_sq] and [fl_sqrt] round
    each result to binary64 as the interpreter does: they serve the line
    rasterisers, the hit test and the radii of thick shapes, whose output
    depends on the rounding. *)

From Stdlib Require Import ZArith QArith Qround Qabs Qminmax Qpower Lia Lqa Psatz.
From stdpp Require Import gmap strings list.

Local Open Scope Z_scope.

(* ===================================================================== *)
(** ** Python numbers *)
(* ===================================================================== *)

Inductive num : Type :=
  | PyInt (z : Z)
  | PyFloat (q : Q).

Definition num_val (a : num) : Q :=
  match a with
  | PyInt z => inject_Z z
  | PyFloat q => q
  end.

Definition py_add (a b : num) : num :=
  match a, b with
  | PyInt x, PyInt y => PyInt (x + y)
  | _, _ => PyFloat (Qred (num_val a + num_val b)%Q)
  end.

Definition py_sub (a b : num) : num :=
  match a, b with
  | PyInt x, PyInt y => PyInt (x - y)
  | _, _ => PyFloat (Qred (num_val a - num_val b)%Q)
  end.

Definition py_mul (a b : num) : num :=
  match a, b with
  | PyInt x, PyInt y => PyInt (x * y)
  | _, _ => PyFloat (Qred (num_val a * num_val b)%Q)
  end.

(** True division [a / b].  Python raises [ZeroDivisionError] when [b] is
    zero; every division of the modelled code is guarded by a test that
    excludes it (the guard is named at each use). *)
Definition py_div (a b : num) : num :=
  PyFloat (Qred (num_val a / num_val b)%Q).

Definition py_neg (a : num) : num :=
  match a with
  | PyInt z => PyInt (- z)
  | PyFloat q => PyFloat (- q)%Q
  end.

Definition py_abs (a : num) : num :=
  match a with
  | PyInt z => PyInt (Z.abs z)
  | PyFloat q => PyFloat (Qabs q)
  end.

(** Comparisons are exact, also between an int and a float. *)
Definition py_lt (a b : num) : bool :=
  match (num_val a ?= num_val b)%Q with Lt => true | _ => false end.

Definition py_le (a b : num) : bool :=
  match (num_val a ?= num_val b)%Q with Gt => false | _ => true end.

Definition py_eq (a b : num) : bool := Qeq_bool (num_val a) (num_val b).

Definition py_gt (a b : num) : bool := py_lt b a.
Definition py_ge (a b : num) : bool := py_le b a.

(** [max(a, b)] and [min(a, b)] return the first argument on a tie. *)
Definition py_max (a b : num) : num := if py_gt b a then b else a.
Definition py_min (a b : num) : num := if py_lt b a then b else a.

(** [int(a)]: truncation toward zero. *)
Definition Qtrunc (q : Q) : Z := Z.quot (Qnum q) (Zpos (Qden q)).

Definition py_int (a : num) : Z :=
  match a with
  | PyInt z => z
  | PyFloat q => Qtrunc q
  end.

(** [round(a)]: nearest integer, a tie going to the even neighbour. *)
Definition Qround_half_even (q : Q) : Z :=
  let f := Qfloor q in
  match (q - inject_Z f ?= 1 # 2)%Q with
  | Lt => f
  | Gt => f + 1
  | Eq => if Z.even f then f else f + 1
  end.

Definition py_round (a : num) : Z :=
  match a with
  | PyInt z => z
  | PyFloat q => Qround_half_even q
  end.

(** [math.sqrt(a)], a float.  The idealised result is the real square root
    cut after 64 binary digits of the fraction (binary64 carries 53
    significant bits); it is exact on squares of such dyadic numbers.
    Python raises [ValueError] on a negative argument; the modelled code
    only takes roots of sums of squares. *)
Definition sqrt_bits : Z := 64.

Definition Qsqrt (q : Q) : Q :=
  Qred (Z.sqrt (Qfloor (q * inject_Z (2 ^ (2 * sqrt_bits)))%Q) # Z.to_pos (2 ^ sqrt_bits)).

Definition math_sqrt (a : num) : num := PyFloat (Qsqrt (num_val a)).

(** [a ** 2] *)
Definition py_sq (a : num) : num := py_mul a a.

(* ===================================================================== *)
(** ** Binary64 *)
(* ===================================================================== *)

(** [floor (log2 q)] of a positive rational. *)
Definition Qlog2 (q : Q) : Z :=
  let e := Z.log2 (Qnum q) - Z.log2 (Zpos (Qden q)) in
  if Qle_bool (2 ^ e) q then e else e - 1.

(** The binary64 number nearest to [q], a tie going to the one with an even
    significand: [q] is rounded to 53 significant bits.  The exponent is
    not bounded: there is no overflow to infinity and no gradual underflow,
    so the result is the interpreter's for magnitudes from [2^-1022] up to
    [2^1024], where all the numbers of the properties below are. *)
Definition b64 (q : Q) : Q :=
  if Qeq_bool q 0 then 0%Q
  else
    let u := (2 ^ (Qlog2 (Qabs q) - 52))%Q in
    Qred (inject_Z (Qround_half_even (q / u)) * u).

(** The correctly rounded square root of a float, as C's [sqrt] returns
    it: with [u] the unit in the last place of the root, the root lies
    between [s * u] and [(s + 1) * u] and is compared with the middle. *)
Definition b64_sqrt (q : Q) : Q :=
  if Qle_bool q 0 then 0%Q
  else
    let u := (2 ^ (Qlog2 q / 2 - 52))%Q in
    let y := (q / (u * u))%Q in
    let s := Z.sqrt (Qfloor y) in
    let r := match (y ?= inject_Z (s * s + s) + (1 # 4))%Q with
             | Lt => s
             | Gt => s + 1
             | Eq => if Z.even s then s else s + 1
             end in
    Qred (inject_Z r * u).

(** [float(a)]: an int is rounded to binary64 (Python raises
    [OverflowError] from [2^1024] on). *)
Definition py_float (a : num) : num :=
  match a with
  | PyInt z => PyFloat (b64 (inject_Z z))
  | PyFloat q => PyFloat q
  end.

(** The value of an operand of a float operation. *)
Definition fval (a : num) : Q := num_val (py_float a).

(** [a + b], [a - b], [a * b] as the interpreter computes them: exact on
    two ints; otherwise an int operand is converted and the result is
    rounded. *)
Definition fl_add (a b : num) : num :=
  match a, b with
  | PyInt x, PyInt y => PyInt (x + y)
  | _, _ => PyFloat (b64 (fval a + fval b))
  end.

Definition fl_sub (a b : num) : num :=
  match a, b with
  | PyInt x, PyInt y => PyInt (x - y)
  | _, _ => PyFloat (b64 (fval a - fval b))
  end.

Definition fl_mul (a b : num) : num :=
  match a, b with
  | PyInt x, PyInt y => PyInt (x * y)
  | _, _ => PyFloat (b64 (fval a * fval b))
  end.

(** [a / b]: the quotient of two ints is rounded once, from the exact
    quotient.  Python raises [ZeroDivisionError] when [b] is zero; every
    division of the modelled code is guarded by a test that excludes it. *)
Definition fl_div (a b : num) : num :=
  match a, b with
  | PyInt x, PyInt y => PyFloat (b64 (inject_Z x / inject_Z y))
  | _, _ => PyFloat (b64 (fval a / fval b))
  end.

(** [a ** 2]: exact on an int.  On a float it is C's [pow], taken here as
    returning the rounded square (which it does whenever the square is a
    binary64 number, and in nearly all other cases). *)
Definition fl_sq (a : num) : num :=
  match a with
  | PyInt z => PyInt (z * z)
  | PyFloat q => PyFloat (b64 (q * q))
  end.

(** [math.sqrt(a)] as the interpreter computes it. *)
Definition fl_sqrt (a : num) : num := PyFloat (b64_sqrt (fval a)).

(* ===================================================================== *)
(** ** Configuration and enum-like constants *)
(* ===================================================================== *)

Definition GRID_SPACING : Z := 20.
Definition MIN_CANVAS_WIDTH : Z := 400.
Definition MIN_WINDOW_HEIGHT : Z := 600.

Definition STYLE_SOLID : Z := 1.
Definition STYLE_DOTTED : Z := 2.
Definition STYLE_THICK : Z := 3.
Definition STYLE_USER_DEFINED : Z := 4.

(** The canvas extents, globals of the program that
    [update_canvas_dimensions] recomputes on every resize. *)
Record canvas : Type := Canvas {
  CANVAS_WIDTH : Z;
  SCREEN_HEIGHT : Z;
  MID_X : Z;
  MID_Y : Z
}.

Definition update_canvas_dimensions (width height : Z) : canvas :=
  let cw := Z.max MIN_CANVAS_WIDTH width in
  let sh := Z.max MIN_WINDOW_HEIGHT height in
  {| CANVAS_WIDTH := cw; SCREEN_HEIGHT := sh; MID_X := cw / 2; MID_Y := sh / 2 |}.

(* ===================================================================== *)
(** ** Coordinate mapper *)
(* ===================================================================== *)

Definition logical_to_screen (c : canvas) (l : num * num) : num * num :=
  let '(lx, ly) := l in
  let sx := fl_add lx (PyInt (MID_X c)) in
  let sy := fl_sub (PyInt (MID_Y c)) ly in
  (sx, sy).

Definition screen_to_logical (c : canvas) (s : num * num) : num * num :=
  let '(sx, sy) := s in
  let lx := fl_sub sx (PyInt (MID_X c)) in
  let ly := fl_sub (PyInt (MID_Y c)) sy in
  (lx, ly).

(* ===================================================================== *)
(** ** Style modulator *)
(* ===================================================================== *)

(** One call of [plot_styled_pixel]; a rasteriser is modelled by the
    sequence of calls it makes. *)
Record plot_call : Type := Plot {
  pc_x : num;
  pc_y : num;
  pc_style : Z;
  pc_step : Z;
  pc_total : Z;
  pc_mask : Z
}.

Definition pc_point (p : plot_call) : num * num := (pc_x p, pc_y p).

Definition do_plot (style step mask : Z) : bool :=
  if (style =? STYLE_SOLID) || (style =? STYLE_THICK) then true
  else if style =? STYLE_DOTTED then step mod 4 <? 2
  else if style =? STYLE_USER_DEFINED then
    negb (Z.land (Z.shiftr mask (step mod 16)) 1 =? 0)
  else false.

(** The vertices handed to the rendering surface by one call: the screen
    point when the step is visible and inside the canvas, nothing
    otherwise. *)
Definition plot_styled_pixel (c : canvas) (p : plot_call) : list (num * num) :=
  if do_plot (pc_style p) (pc_step p) (pc_mask p) then
    let '(sx, sy) := logical_to_screen c (pc_x p, pc_y p) in
    if py_le (PyInt 0) sx && py_lt sx (PyInt (CANVAS_WIDTH c))
       && py_le (PyInt 0) sy && py_lt sy (PyInt (SCREEN_HEIGHT c))
    then [(sx, sy)] else []
  else [].

(* ===================================================================== *)
(** ** Line rasterisers *)
(* ===================================================================== *)

(** Body of [for i in range(...)] of [dda_line]; [i] is the loop index and
    [n] the number of iterations left. *)
Fixpoint dda_loop (style mask steps : Z) (x_inc y_inc : num) (n : nat) (i : Z)
    (x y : num) : list plot_call :=
  match n with
  | O => []
  | S n' =>
      Plot (PyInt (py_round x)) (PyInt (py_round y)) style i steps mask
      :: dda_loop style mask steps x_inc y_inc n' (i + 1)
           (fl_add x x_inc) (fl_add y y_inc)
  end.

Definition dda_line (x1 y1 x2 y2 : num) (style thickness mask : Z)
  : list plot_call :=
  let dx := fl_sub x2 x1 in
  let dy := fl_sub y2 y1 in
  let steps := py_int (py_max (py_abs dx) (py_abs dy)) in
  if steps =? 0 then [Plot x1 y1 style 0 0 mask]
  else
    (* the division is guarded by [steps == 0] above *)
    let x_inc := fl_div dx (PyInt steps) in
    let y_inc := fl_div dy (PyInt steps) in
    dda_loop style mask steps x_inc y_inc (Z.to_nat (steps + 1)) 0
      (py_float x1) (py_float y1).

(** Second pass of [symmetrical_dda_line]: walks back from P2 with step
    index [i + off]. *)
Fixpoint sym_back_loop (style mask steps : Z) (x_inc y_inc : num) (off : Z)
    (n : nat) (i : Z) (x y : num) : list plot_call :=
  match n with
  | O => []
  | S n' =>
      Plot (PyInt (py_round x)) (PyInt (py_round y)) style (i + off) steps mask
      :: sym_back_loop style mask steps x_inc y_inc off n' (i + 1)
           (fl_sub x x_inc) (fl_sub y y_inc)
  end.

Definition symmetrical_dda_line (x1 y1 x2 y2 : num) (style thickness mask : Z)
  : list plot_call :=
  let dx := fl_sub x2 x1 in
  let dy := fl_sub y2 y1 in
  let steps := py_int (py_max (py_abs dx) (py_abs dy)) in
  if steps =? 0 then [Plot x1 y1 style 0 0 mask]
  else
    let x_inc := fl_div dx (PyInt steps) in
    let y_inc := fl_div dy (PyInt steps) in
    dda_loop style mask steps x_inc y_inc (Z.to_nat (steps / 2 + 1)) 0
      (py_float x1) (py_float y1)
    ++ sym_back_loop style mask steps x_inc y_inc (steps / 2 + 1)
         (Z.to_nat (steps - steps / 2)) 0 (py_float x2) (py_float y2).

Fixpoint bresenham_loop (style mask : Z) (steep : bool) (dx dy : Z) (sx sy : num)
    (n : nat) (i : Z) (x y : num) (p : Z) : list plot_call :=
  match n with
  | O => []
  | S n' =>
      (if steep then Plot y x style i dx mask else Plot x y style i dx mask)
      :: (let '(y', p') :=
            if 0 <=? p then (py_add y sy, p - 2 * dx) else (y, p) in
          bresenham_loop style mask steep dx dy sx sy n' (i + 1)
            (py_add x sx) y' (p' + 2 * dy))
  end.

Definition bresenham_line (x1 y1 x2 y2 : num) (style thickness mask : Z)
  : list plot_call :=
  let dx := py_abs (py_sub x2 x1) in
  let dy := py_abs (py_sub y2 y1) in
  let steep := py_gt dy dx in
  let '(x1, y1, x2, y2) :=
    if steep then (y1, x1, y2, x2) else (x1, y1, x2, y2) in
  let dx := py_abs (py_sub x2 x1) in
  let dy := py_abs (py_sub y2 y1) in
  let sx := if py_lt x1 x2 then PyInt 1 else PyInt (-1) in
  let sy := if py_lt y1 y2 then PyInt 1 else PyInt (-1) in
  let dx := py_int dx in
  let dy := py_int dy in
  let p := 2 * dy - dx in
  bresenham_loop style mask steep dx dy sx sy (Z.to_nat (dx + 1)) 0 x1 y1 p.

(* ===================================================================== *)
(** ** Data model *)
(* ===================================================================== *)

(** A transformation record, tagged by its ["type"] entry. *)
Inductive transformation : Type :=
  | Translate (dx dy : num)
  | Rotate (angle cx cy : num)
  | Scale (sx sy fx fy : num)
  | Reflect (axis : string)
  | ReflectLine (line_p1 line_p2 : num * num).

(** The function stored under ["algo"]. *)
Inductive algo_func : Type :=
  | f_dda_line
  | f_bresenham_line
  | f_symmetrical_dda_line
  | f_draw_circle
  | f_draw_ellipse.

(** Python objects live in a heap and are passed by reference. *)
Abbreviation loc := positive.

(** An entry of [objects_to_draw]: its parameter dictionary and its list of
    transformations are objects of their own, held by reference. *)
Record obj_dict : Type := Obj {
  obj_id : Z;
  obj_type : string;
  obj_algo : algo_func;
  obj_algorithm : string;
  obj_params : loc;
  obj_color : Q * Q * Q;
  obj_style : Z;
  obj_thickness : Z;
  obj_mask : Z;
  obj_transformations : loc
}.

Inductive cell : Type :=
  | CDict (d : gmap string num)
  | CList (ts : list transformation)
  | CObj (o : obj_dict).

(** The trigonometry of [math], taken as given. *)
Class Trig : Type := {
  math_radians : num -> num;
  math_cos : num -> num;
  math_sin : num -> num
}.

(* ===================================================================== *)
(** ** Mutation of one dictionary *)
(* ===================================================================== *)

(** Code that reads and assigns the entries of one dictionary, and may stop
    with a [KeyError] ([None]) after some assignments were made. *)
Definition dictM (A : Type) : Type := gmap string num -> option A * gmap string num.

#[global] Instance dictM_ret : MRet dictM := fun A a d => (Some a, d).
#[global] Instance dictM_bind : MBind dictM := fun A B f m d =>
  match m d with
  | (Some a, d') => f a d'
  | (None, d') => (None, d')
  end.

(** [d[k]] *)
Definition getitem (k : string) : dictM num := fun d => (d !! k, d).
(** [d[k] = v] *)
Definition setitem (k : string) (v : num) : dictM unit := fun d => (Some tt, <[k := v]> d).
(** [d[k] += v] *)
Definition additem (k : string) (v : num) : dictM unit :=
  x ← getitem k; setitem k (py_add x v).
(** [d[k] *= v] *)
Definition mulitem (k : string) (v : num) : dictM unit :=
  x ← getitem k; setitem k (py_mul x v).
(** [d[k] = -d[k]] *)
Definition negitem (k : string) : dictM unit :=
  x ← getitem k; setitem k (py_neg x).

Definition pass : dictM unit := mret tt.

(* ===================================================================== *)
(** ** Transformation engine *)
(* ===================================================================== *)

Definition reflect_point_across_line (px py line_p1x line_p1y line_p2x line_p2y : num)
  : num * num :=
  if py_eq line_p1x line_p2x && py_eq line_p1y line_p2y then (px, py)
  else if py_eq line_p1x line_p2x then
    let reflected_x := py_sub (py_mul (PyInt 2) line_p1x) px in
    let reflected_y := py in
    (reflected_x, reflected_y)
  else if py_eq line_p1y line_p2y then
    let reflected_x := px in
    let reflected_y := py_sub (py_mul (PyInt 2) line_p1y) py in
    (reflected_x, reflected_y)
  else
    (* line_p2x <> line_p1x here *)
    let m := py_div (py_sub line_p2y line_p1y) (py_sub line_p2x line_p1x) in
    let c := py_sub line_p1y (py_mul m line_p1x) in
    (* 1 + m*m is positive *)
    let denom := py_add (PyInt 1) (py_mul m m) in
    let reflected_x :=
      py_div (py_sub (py_add (py_mul px (py_sub (PyInt 1) (py_mul m m)))
                             (py_mul (py_mul (PyInt 2) m) py))
                     (py_mul (py_mul (PyInt 2) m) c)) denom in
    let reflected_y :=
      py_div (py_add (py_add (py_mul py (py_sub (py_mul m m) (PyInt 1)))
                             (py_mul (py_mul (PyInt 2) m) px))
                     (py_mul (PyInt 2) c)) denom in
    (reflected_x, reflected_y).

Section Engine.
Context {trig : Trig}.

(** Rotation of the point stored under [kx], [ky] about [(cx, cy)]. *)
Definition rotate_point (kx ky : string) (angle_rad cx cy : num) : dictM unit :=
  px ← getitem kx; py ← getitem ky;
  let translated_x := py_sub px cx in
  let translated_y := py_sub py cy in
  let rotated_x := py_sub (py_mul translated_x (math_cos angle_rad))
                          (py_mul translated_y (math_sin angle_rad)) in
  let rotated_y := py_add (py_mul translated_x (math_sin angle_rad))
                          (py_mul translated_y (math_cos angle_rad)) in
  setitem kx (py_add rotated_x cx);; setitem ky (py_add rotated_y cy).

(** Scaling of the point stored under [kx], [ky] about [(fx, fy)]. *)
Definition scale_point (kx ky : string) (sx sy fx fy : num) : dictM unit :=
  px ← getitem kx; py ← getitem ky;
  let translated_x := py_sub px fx in
  let translated_y := py_sub py fy in
  let scaled_x := py_mul translated_x sx in
  let scaled_y := py_mul translated_y sy in
  setitem kx (py_add scaled_x fx);; setitem ky (py_add scaled_y fy).

Definition reflect_line_point (kx ky : string) (line_p1 line_p2 : num * num)
  : dictM unit :=
  px ← getitem kx; py ← getitem ky;
  let '(rx, ry) := reflect_point_across_line px py line_p1.1 line_p1.2
                     line_p2.1 line_p2.2 in
  setitem kx rx;; setitem ky ry.

(** One iteration of the loop of [apply_transformations], acting on
    [transformed_params]. *)
Definition apply_transformation (type : string) (t : transformation) : dictM unit :=
  match t with
  | Translate dx dy =>
      if String.eqb type "line" then
        additem "x1" dx;; additem "y1" dy;; additem "x2" dx;; additem "y2" dy
      else if String.eqb type "circle" || String.eqb type "ellipse" then
        additem "xc" dx;; additem "yc" dy
      else pass
  | Rotate angle cx cy =>
      let angle_rad := math_radians angle in
      if String.eqb type "line" then
        rotate_point "x1" "y1" angle_rad cx cy;;
        rotate_point "x2" "y2" angle_rad cx cy
      else if String.eqb type "circle" || String.eqb type "ellipse" then
        rotate_point "xc" "yc" angle_rad cx cy
      else pass
  | Scale sx sy fx fy =>
      if String.eqb type "line" then
        scale_point "x1" "y1" sx sy fx fy;;
        scale_point "x2" "y2" sx sy fx fy
      else if String.eqb type "circle" then
        mulitem "r" sx
      else if String.eqb type "ellipse" then
        mulitem "rx" sx;; mulitem "ry" sy
      else pass
  | Reflect axis =>
      if String.eqb type "line" then
        if String.eqb axis "x" then negitem "y1";; negitem "y2"
        else if String.eqb axis "y" then negitem "x1";; negitem "x2"
        else if String.eqb axis "origin" then
          negitem "x1";; negitem "y1";; negitem "x2";; negitem "y2"
        else pass
      else if String.eqb type "circle" || String.eqb type "ellipse" then
        if String.eqb axis "x" then negitem "yc"
        else if String.eqb axis "y" then negitem "xc"
        else if String.eqb axis "origin" then negitem "xc";; negitem "yc"
        else pass
      else pass
  | ReflectLine line_p1 line_p2 =>
      if String.eqb type "line" then
        reflect_line_point "x1" "y1" line_p1 line_p2;;
        reflect_line_point "x2" "y2" line_p1 line_p2
      else if String.eqb type "circle" || String.eqb type "ellipse" then
        reflect_line_point "xc" "yc" line_p1 line_p2
      else pass
  end.

(** [for t in obj["transformations"]: ...] *)
Fixpoint apply_transformation_list (type : string) (ts : list transformation)
  : dictM unit :=
  match ts with
  | [] => pass
  | t :: ts' => apply_transformation type t;; apply_transformation_list type ts'
  end.

(* ===================================================================== *)
(** ** The heap *)
(* ===================================================================== *)

(** Heap-manipulating code; [None] is an uncaught exception. *)
Definition heapM (A : Type) : Type := gmap loc cell -> option A * gmap loc cell.

#[global] Instance heapM_ret : MRet heapM := fun A a h => (Some a, h).
#[global] Instance heapM_bind : MBind heapM := fun A B f m h =>
  match m h with
  | (Some a, h') => f a h'
  | (None, h') => (None, h')
  end.

(** A new object is placed at a location not in use. *)
Definition alloc (c : cell) : heapM loc := fun h =>
  let l := fresh (dom h) in (Some l, <[l := c]> h).

Definition read_obj (l : loc) : heapM obj_dict := fun h =>
  match h !! l with Some (CObj o) => (Some o, h) | _ => (None, h) end.
Definition read_dict (l : loc) : heapM (gmap string num) := fun h =>
  match h !! l with Some (CDict d) => (Some d, h) | _ => (None, h) end.
Definition read_list (l : loc) : heapM (list transformation) := fun h =>
  match h !! l with Some (CList ts) => (Some ts, h) | _ => (None, h) end.
Definition write (l : loc) (c : cell) : heapM unit := fun h => (Some tt, <[l := c]> h).

(** Runs dictionary code on the dictionary at [l], in place. *)
Definition on_dict {A} (l : loc) (m : dictM A) : heapM A := fun h =>
  match h !! l with
  | Some (CDict d) => let '(r, d') := m d in (r, <[l := CDict d']> h)
  | _ => (None, h)
  end.

(** [apply_transformations(obj)]: the result is a new dictionary, a copy of
    [obj["params"]] that the loop then updates in place. *)
Definition apply_transformations (obj : loc) : heapM loc :=
  o ← read_obj obj;
  params ← read_dict (obj_params o);
  transformed_params ← alloc (CDict params);
  ts ← read_list (obj_transformations o);
  on_dict transformed_params (apply_transformation_list (obj_type o) ts);;
  mret transformed_params.

(** The lines of [prompt_edit_object] that bake the transformations of the
    object to edit into its base parameters. *)
Definition bake_transformations (obj_to_edit : loc) : heapM unit :=
  current_effective_params ← apply_transformations obj_to_edit;
  o ← read_obj obj_to_edit;
  write obj_to_edit (CObj (Obj (obj_id o) (obj_type o) (obj_algo o) (obj_algorithm o)
    current_effective_params (obj_color o) (obj_style o) (obj_thickness o)
    (obj_mask o) (obj_transformations o)));;
  empty_list ← alloc (CList []);
  o ← read_obj obj_to_edit;
  write obj_to_edit (CObj (Obj (obj_id o) (obj_type o) (obj_algo o) (obj_algorithm o)
    (obj_params o) (obj_color o) (obj_style o) (obj_thickness o)
    (obj_mask o) empty_list)).

End Engine.

(* ===================================================================== *)
(** ** Thick stroke rendering *)
(* ===================================================================== *)

(** What [draw_thick_object] asks of the rendering surface and of the
    rasterisers, in order. *)
Inductive draw_cmd : Type :=
  | glLineWidth (w : num)
  | glColor3fv (color : Q * Q * Q)
  | glQuad (v1 v2 v3 v4 : num * num)
  | call_draw_circle (x_c y_c : num) (r : Z) (style thickness mask : Z)
  | call_draw_ellipse (x_c y_c : num) (rx ry : Z) (style thickness mask : Z).

(** [r + (i - (thickness - 1) / 2.0)] *)
Definition thick_offset (r : num) (thickness i : Z) : num :=
  fl_add r (fl_sub (PyInt i) (fl_div (PyInt (thickness - 1)) (PyFloat 2))).

Definition thick_circle_body (xc yc r : num) (thickness mask : Z) (i : Z)
  : list draw_cmd :=
  let offset_r := thick_offset r thickness i in
  if py_ge offset_r (PyInt 1)
  then [call_draw_circle xc yc (py_int offset_r) STYLE_SOLID 1 mask]
  else [].

Definition thick_ellipse_body (xc yc rx ry : num) (thickness mask : Z) (i : Z)
  : list draw_cmd :=
  let offset_rx := thick_offset rx thickness i in
  let offset_ry := thick_offset ry thickness i in
  if py_ge offset_rx (PyInt 1) && py_ge offset_ry (PyInt 1)
  then [call_draw_ellipse xc yc (py_int offset_rx) (py_int offset_ry) STYLE_SOLID 1 mask]
  else [].

Definition draw_thick_object (c : canvas) (effective_params : gmap string num)
    (obj_type : string) (thickness mask : Z) (current_color_override : Q * Q * Q)
  : option (list draw_cmd) :=
  body ←
    (if String.eqb obj_type "line" then
       x1 ← effective_params !! "x1"; y1 ← effective_params !! "y1";
       x2 ← effective_params !! "x2"; y2 ← effective_params !! "y2";
       let line_vec_x := fl_sub x2 x1 in
       let line_vec_y := fl_sub y2 y1 in
       let perp_vec_x := py_neg line_vec_y in
       let perp_vec_y := line_vec_x in
       let length := fl_sqrt (fl_add (fl_sq perp_vec_x) (fl_sq perp_vec_y)) in
       let '(norm_perp_x, norm_perp_y) :=
         if py_eq length (PyInt 0) then (PyInt 0, PyInt 0)
         else (fl_div perp_vec_x length, fl_div perp_vec_y length) in
       let half_thickness := fl_div (PyInt thickness) (PyFloat 2) in
       let scaled_perp_x := fl_mul norm_perp_x half_thickness in
       let scaled_perp_y := fl_mul norm_perp_y half_thickness in
       let v1 := logical_to_screen c (fl_sub x1 scaled_perp_x, fl_sub y1 scaled_perp_y) in
       let v2 := logical_to_screen c (fl_add x1 scaled_perp_x, fl_add y1 scaled_perp_y) in
       let v3 := logical_to_screen c (fl_add x2 scaled_perp_x, fl_add y2 scaled_perp_y) in
       let v4 := logical_to_screen c (fl_sub x2 scaled_perp_x, fl_sub y2 scaled_perp_y) in
       Some [glColor3fv current_color_override; glQuad v1 v2 v3 v4]
     else if String.eqb obj_type "circle" then
       xc ← effective_params !! "xc"; yc ← effective_params !! "yc";
       r ← effective_params !! "r";
       Some (concat (map (thick_circle_body xc yc r thickness mask) (seqZ 0 thickness)))
     else if String.eqb obj_type "ellipse" then
       xc ← effective_params !! "xc"; yc ← effective_params !! "yc";
       rx ← effective_params !! "rx"; ry ← effective_params !! "ry";
       Some (concat (map (thick_ellipse_body xc yc rx ry thickness mask) (seqZ 0 thickness)))
     else Some []);
  Some ([glLineWidth (PyInt thickness)] ++ body ++ [glLineWidth (PyFloat 1)]).

(* ===================================================================== *)
(** ** Hit testing *)
(* ===================================================================== *)

(** A distance or [float('inf')]. *)
Inductive ext : Type :=
  | Finite (d : num)
  | Infinity.

Definition ext_lt (a b : ext) : bool :=
  match a, b with
  | Finite x, Finite y => py_lt x y
  | Finite _, Infinity => true
  | Infinity, _ => false
  end.

Definition base_selection_pixel_tolerance : num := PyInt 10.

(** [math.sqrt((x - a)**2 + (y - b)**2)] *)
Definition euclid (x y a b : num) : num :=
  fl_sqrt (fl_add (fl_sq (fl_sub x a)) (fl_sq (fl_sub y b))).

(** [dist_to_line_segment_center] of the line branch. *)
Definition dist_to_line_segment (logical_x logical_y : num) (p1 p2 : num * num) : num :=
  let line_dx := fl_sub p2.1 p1.1 in
  let line_dy := fl_sub p2.2 p1.2 in
  let point_dx := fl_sub logical_x p1.1 in
  let point_dy := fl_sub logical_y p1.2 in
  let dot_product := fl_add (fl_mul point_dx line_dx) (fl_mul point_dy line_dy) in
  let length_sq := fl_add (fl_sq line_dx) (fl_sq line_dy) in
  if py_eq length_sq (PyInt 0) then
    fl_sqrt (fl_add (fl_sq point_dx) (fl_sq point_dy))
  else
    (* length_sq <> 0 here *)
    let t := py_max (PyFloat 0) (py_min (PyFloat 1) (fl_div dot_product length_sq)) in
    let closest_x_on_segment := fl_add p1.1 (fl_mul t line_dx) in
    let closest_y_on_segment := fl_add p1.2 (fl_mul t line_dy) in
    euclid logical_x logical_y closest_x_on_segment closest_y_on_segment.

(** [current_obj_hit_distance] for one object of the selection loop, from
    its effective parameters. *)
Definition hit_distance (logical_x logical_y : num) (type : string)
    (current_obj_thickness : Z) (effective_params : gmap string num) : option ext :=
  let half_nominal_thickness := fl_div (PyInt (current_obj_thickness - 1)) (PyFloat 2) in
  if String.eqb type "line" then
    x1 ← effective_params !! "x1"; y1 ← effective_params !! "y1";
    x2 ← effective_params !! "x2"; y2 ← effective_params !! "y2";
    let dist_to_line_segment_center :=
      dist_to_line_segment logical_x logical_y (x1, y1) (x2, y2) in
    if py_le dist_to_line_segment_center
         (fl_add half_nominal_thickness base_selection_pixel_tolerance)
    then Some (Finite (py_abs (fl_sub dist_to_line_segment_center half_nominal_thickness)))
    else Some Infinity
  else if String.eqb type "circle" then
    center_x ← effective_params !! "xc"; center_y ← effective_params !! "yc";
    base_radius ← effective_params !! "r";
    let dist_to_center := euclid logical_x logical_y center_x center_y in
    let outer_radius_visual := fl_add base_radius half_nominal_thickness in
    if py_le dist_to_center (fl_add outer_radius_visual base_selection_pixel_tolerance)
    then Some (Finite (py_abs (fl_sub dist_to_center outer_radius_visual)))
    else Some Infinity
  else if String.eqb type "ellipse" then
    center_x ← effective_params !! "xc"; center_y ← effective_params !! "yc";
    base_rx ← effective_params !! "rx"; base_ry ← effective_params !! "ry";
    let outer_rx_visual := fl_add base_rx half_nominal_thickness in
    let outer_ry_visual := fl_add base_ry half_nominal_thickness in
    if py_gt outer_rx_visual (PyInt 0) && py_gt outer_ry_visual (PyInt 0) then
      (* both divisors exceed the tolerance, hence are not zero *)
      let normalized_x := fl_div (fl_sub logical_x center_x)
                            (fl_add outer_rx_visual base_selection_pixel_tolerance) in
      let normalized_y := fl_div (fl_sub logical_y center_y)
                            (fl_add outer_ry_visual base_selection_pixel_tolerance) in
      let ellipse_value_for_hitbox := fl_add (fl_sq normalized_x) (fl_sq normalized_y) in
      if py_le ellipse_value_for_hitbox (PyFloat 1) then
        Some (Finite (fl_div (euclid logical_x logical_y center_x center_y)
                        (py_max (py_max (PyFloat 1) outer_rx_visual) outer_ry_visual)))
      else Some Infinity
    else
      let dist_to_center := euclid logical_x logical_y center_x center_y in
      if py_le dist_to_center base_selection_pixel_tolerance
      then Some (Finite (PyInt 0))
      else Some Infinity
  else Some Infinity.

Section Picking.
Context {trig : Trig}.

Definition lift_option {A} (o : option A) : heapM A := fun h => (o, h).

(** The loop [for obj in objects_to_draw] of the selection branch, with its
    running minimum and the id of the closest object so far. *)
Fixpoint select_loop (logical_x logical_y : num) (objs : list loc)
    (min_effective_distance : ext) (closest_obj_id : Z) : heapM (ext * Z) :=
  match objs with
  | [] => mret (min_effective_distance, closest_obj_id)
  | obj :: rest =>
      effective_params ← apply_transformations obj;
      d ← read_dict effective_params;
      o ← read_obj obj;
      current_obj_hit_distance ←
        lift_option (hit_distance logical_x logical_y (obj_type o) (obj_thickness o) d);
      if ext_lt current_obj_hit_distance min_effective_distance
      then select_loop logical_x logical_y rest current_obj_hit_distance (obj_id o)
      else select_loop logical_x logical_y rest min_effective_distance closest_obj_id
  end.

End Picking.

(* ===================================================================== *)
(** ** Session state and persistence *)
(* ===================================================================== *)

Definition MODE_IDLE : Z := 0.
Definition MODE_DRAWING_LINE_P1 : Z := 1.
Definition MODE_DRAWING_LINE_P2 : Z := 2.
Definition MODE_DRAWING_CIRCLE_CENTER : Z := 3.
Definition MODE_DRAWING_CIRCLE_RADIUS : Z := 4.
Definition MODE_DRAWING_ELLIPSE_CENTER : Z := 5.
Definition MODE_DRAWING_ELLIPSE_RX_POINT : Z := 6.
Definition MODE_DRAWING_ELLIPSE_RY_POINT : Z := 7.
Definition MODE_SELECTING_OBJECT : Z := 8.
Definition MODE_APPLY_TRANSLATE : Z := 9.
Definition MODE_APPLY_ROTATE : Z := 10.
Definition MODE_APPLY_SCALE : Z := 11.
Definition MODE_APPLY_REFLECT : Z := 12.
Definition MODE_APPLY_REFLECT_LINE_P1 : Z := 13.
Definition MODE_APPLY_REFLECT_LINE_P2 : Z := 14.

(** One record of the persisted file, as [json.load] returns it. *)
Record json_obj : Type := Json {
  j_id : num;
  j_type : string;
  j_algorithm : string;
  j_params : gmap string num;
  j_color : Q * Q * Q;
  j_style : Z;
  j_thickness : Z;
  j_mask : Z;
  j_transformations : list transformation
}.

(** The globals of the program, the heap, and the content of [DATA_FILE]
    ([None] when the file does not exist). *)
Record state : Type := State {
  heap : gmap loc cell;
  objects_to_draw : list loc;
  current_mode : Z;
  current_algo_func : option algo_func;
  current_style_choice : Z;
  current_thickness : Z;
  current_mask : Z;
  current_color : Q * Q * Q;
  temp_points : list (num * num);
  selected_object_id : Z;
  next_object_id : Z;
  dims : canvas;
  data_file : option (list json_obj)
}.

Definition with_heap (h : gmap loc cell) (s : state) : state :=
  State h (objects_to_draw s) (current_mode s) (current_algo_func s)
    (current_style_choice s) (current_thickness s) (current_mask s) (current_color s)
    (temp_points s) (selected_object_id s) (next_object_id s) (dims s) (data_file s).
Definition with_objects (l : list loc) (s : state) : state :=
  State (heap s) l (current_mode s) (current_algo_func s)
    (current_style_choice s) (current_thickness s) (current_mask s) (current_color s)
    (temp_points s) (selected_object_id s) (next_object_id s) (dims s) (data_file s).
Definition with_mode (m : Z) (s : state) : state :=
  State (heap s) (objects_to_draw s) m (current_algo_func s)
    (current_style_choice s) (current_thickness s) (current_mask s) (current_color s)
    (temp_points s) (selected_object_id s) (next_object_id s) (dims s) (data_file s).
Definition with_temp_points (t : list (num * num)) (s : state) : state :=
  State (heap s) (objects_to_draw s) (current_mode s) (current_algo_func s)
    (current_style_choice s) (current_thickness s) (current_mask s) (current_color s)
    t (selected_object_id s) (next_object_id s) (dims s) (data_file s).
Definition with_selected (i : Z) (s : state) : state :=
  State (heap s) (objects_to_draw s) (current_mode s) (current_algo_func s)
    (current_style_choice s) (current_thickness s) (current_mask s) (current_color s)
    (temp_points s) i (next_object_id s) (dims s) (data_file s).
Definition with_next_id (i : Z) (s : state) : state :=
  State (heap s) (objects_to_draw s) (current_mode s) (current_algo_func s)
    (current_style_choice s) (current_thickness s) (current_mask s) (current_color s)
    (temp_points s) (selected_object_id s) i (dims s) (data_file s).
Definition with_file (f : option (list json_obj)) (s : state) : state :=
  State (heap s) (objects_to_draw s) (current_mode s) (current_algo_func s)
    (current_style_choice s) (current_thickness s) (current_mask s) (current_color s)
    (temp_points s) (selected_object_id s) (next_object_id s) (dims s) f.

Definition with_algo (f : option algo_func) (s : state) : state :=
  State (heap s) (objects_to_draw s) (current_mode s) f
    (current_style_choice s) (current_thickness s) (current_mask s) (current_color s)
    (temp_points s) (selected_object_id s) (next_object_id s) (dims s) (data_file s).

(** [set_algorithm]; its assignment to [selected_object_id] is to a local
    variable and changes nothing. *)
Definition set_algorithm (algo_func : algo_func) (click_mode : Z) (s : state) : state :=
  with_mode click_mode (with_temp_points [] (with_algo (Some algo_func) s)).

(** [algo_map] of [load_objects_from_file]. *)
Definition algo_map (name : string) : option algo_func :=
  if String.eqb name "dda_line" then Some f_dda_line
  else if String.eqb name "bresenham_line" then Some f_bresenham_line
  else if String.eqb name "symmetrical_dda_line" then Some f_symmetrical_dda_line
  else if String.eqb name "draw_circle" then Some f_draw_circle
  else if String.eqb name "draw_ellipse" then Some f_draw_ellipse
  else None.

(** [algo_name_map] of [save_objects_to_file]. *)
Definition algo_name_map (f : algo_func) : string :=
  match f with
  | f_dda_line => "dda_line"
  | f_bresenham_line => "bresenham_line"
  | f_symmetrical_dda_line => "symmetrical_dda_line"
  | f_draw_circle => "draw_circle"
  | f_draw_ellipse => "draw_ellipse"
  end.

(** What [json.dump] writes for the object at [obj]. *)
Definition serialize (h : gmap loc cell) (obj : loc) : option json_obj :=
  match h !! obj with
  | Some (CObj o) =>
      match h !! obj_params o, h !! obj_transformations o with
      | Some (CDict d), Some (CList ts) =>
          Some (Json (PyInt (obj_id o)) (obj_type o) (algo_name_map (obj_algo o)) d
                  (obj_color o) (obj_style o) (obj_thickness o) (obj_mask o) ts)
      | _, _ => None
      end
  | _ => None
  end.

Definition save_objects_to_file (s : state) : option state :=
  serializable_objects ← mapM (serialize (heap s)) (objects_to_draw s);
  Some (with_file (Some serializable_objects) s).

(** The loop of [load_objects_from_file]: a record whose algorithm name is
    not recognised is skipped. *)
Fixpoint load_loop (data : list json_obj) (h : gmap loc cell) (objs : list loc)
    (max_id : Z) : gmap loc cell * list loc * Z :=
  match data with
  | [] => (h, objs, max_id)
  | obj_data :: rest =>
      match algo_map (j_algorithm obj_data) with
      | Some algo =>
          let id := py_int (j_id obj_data) in
          let lp := fresh (dom h) in
          let h1 := <[lp := CDict (j_params obj_data)]> h in
          let lt := fresh (dom h1) in
          let h2 := <[lt := CList (j_transformations obj_data)]> h1 in
          let lo := fresh (dom h2) in
          let h3 := <[lo := CObj (Obj id (j_type obj_data) algo (j_algorithm obj_data)
                      lp (j_color obj_data) (j_style obj_data) (j_thickness obj_data)
                      (j_mask obj_data) lt)]> h2 in
          load_loop rest h3 (objs ++ [lo]) (if max_id <? id then id else max_id)
      | None => load_loop rest h objs max_id
      end
  end.

Definition load_objects_from_file (s : state) : state :=
  match data_file s with
  | Some data =>
      let '(h, objs, max_id) := load_loop data (heap s) [] 0 in
      with_next_id (max_id + 1) (with_objects objs (with_heap h s))
  | None => with_next_id 0 (with_objects [] s)
  end.

(** The dictionary literal appended to [objects_to_draw] by the drawing
    branches of [mousePressEvent], followed by the common epilogue. *)
Definition append_object (type : string) (algo : algo_func) (algorithm : string)
    (params : gmap string num) (s : state) : option state :=
  let h := heap s in
  let lp := fresh (dom h) in
  let h1 := <[lp := CDict params]> h in
  let lt := fresh (dom h1) in
  let h2 := <[lt := CList []]> h1 in
  let lo := fresh (dom h2) in
  let h3 := <[lo := CObj (Obj (next_object_id s) type algo algorithm lp (current_color s)
              (current_style_choice s) (current_thickness s) (current_mask s) lt)]> h2 in
  let s1 := with_objects (objects_to_draw s ++ [lo]) (with_heap h3 s) in
  let s2 := with_next_id (next_object_id s1 + 1) s1 in
  s3 ← save_objects_to_file s2;
  Some (with_mode MODE_IDLE (with_temp_points [] s3)).

Definition line_algorithm_name (f : algo_func) : string :=
  match f with
  | f_dda_line => "dda_line"
  | f_bresenham_line => "bresenham_line"
  | f_symmetrical_dda_line => "symmetrical_dda_line"
  | _ => "unknown_line_algo"
  end.

(** [next((obj for obj in objects_to_draw if obj["id"] == id), None)] *)
Fixpoint find_object (h : gmap loc cell) (objs : list loc) (id : Z) : option (option loc) :=
  match objs with
  | [] => Some None
  | obj :: rest =>
      match h !! obj with
      | Some (CObj o) => if obj_id o =? id then Some (Some obj) else find_object h rest id
      | _ => None
      end
  end.

(** [obj["transformations"].append(t)]: the list object is extended in
    place. *)
Definition append_transformation (obj : loc) (t : transformation) (s : state)
  : option state :=
  match heap s !! obj with
  | Some (CObj o) =>
      match heap s !! obj_transformations o with
      | Some (CList ts) =>
          Some (with_heap (<[obj_transformations o := CList (ts ++ [t])]> (heap s)) s)
      | _ => None
      end
  | _ => None
  end.

(** [objects_to_draw[:] = [obj for obj in objects_to_draw if obj["id"] != id]] *)
Fixpoint remove_id (h : gmap loc cell) (objs : list loc) (id : Z) : option (list loc) :=
  match objs with
  | [] => Some []
  | obj :: rest =>
      match h !! obj with
      | Some (CObj o) =>
          rest' ← remove_id h rest id;
          Some (if obj_id o =? id then rest' else obj :: rest')
      | _ => None
      end
  end.

Definition delete_selected_object (s : state) : option state :=
  if negb (selected_object_id s =? -1) then
    objs ← remove_id (heap s) (objects_to_draw s) (selected_object_id s);
    save_objects_to_file (with_selected (-1) (with_objects objs s))
  else Some s.

(* ===================================================================== *)
(** ** Mouse interaction *)
(* ===================================================================== *)

(** [round(raw / GRID_SPACING) * GRID_SPACING] *)
Definition snap (raw : Z) : Z :=
  py_round (py_div (PyInt raw) (PyInt GRID_SPACING)) * GRID_SPACING.

(** [int(math.sqrt((px - cx)**2 + (py - cy)**2))], 0 replaced by 1. *)
Definition circle_radius (cx cy px py : num) : Z :=
  let r := py_int (euclid px py cx cy) in
  if r =? 0 then 1 else r.

(** [abs(p - c)], 0 replaced by 1. *)
Definition ellipse_radius (c p : num) : num :=
  let r := py_abs (py_sub p c) in
  if py_eq r (PyInt 0) then PyInt 1 else r.

Section Interaction.
Context {trig : Trig}.

(** The selection branch: hit test of every object, closest one wins. *)
Definition select_at (logical_x logical_y : num) (s : state) : option state :=
  let s := with_selected (-1) s in
  match select_loop logical_x logical_y (objects_to_draw s) Infinity (-1) (heap s) with
  | (Some (_, closest_obj_id), h) =>
      let s := with_heap h s in
      let s := if negb (closest_obj_id =? -1) then with_selected closest_obj_id s
               else with_selected (-1) s in
      Some (with_mode MODE_IDLE s)
  | (None, _) => None
  end.

(** [mousePressEvent] for the left button, no input dialog being active;
    [None] is an uncaught exception. *)
Definition mousePressEvent (x_raw_screen y_raw_screen : Z) (s : state) : option state :=
  let snapped_x_screen := snap x_raw_screen in
  let snapped_y_screen := snap y_raw_screen in
  let '(logical_x, logical_y) :=
    screen_to_logical (dims s) (PyInt snapped_x_screen, PyInt snapped_y_screen) in
  let mode := current_mode s in
  if bool_decide (current_algo_func s = None)
     && negb ((mode =? MODE_SELECTING_OBJECT) || (mode =? MODE_APPLY_TRANSLATE)
              || (mode =? MODE_APPLY_REFLECT_LINE_P1)
              || (mode =? MODE_APPLY_REFLECT_LINE_P2))
  then Some (with_mode MODE_IDLE s)
  else if mode =? MODE_DRAWING_LINE_P1 then
    Some (with_mode MODE_DRAWING_LINE_P2
            (with_temp_points (temp_points s ++ [(logical_x, logical_y)]) s))
  else if mode =? MODE_DRAWING_LINE_P2 then
    let s := with_temp_points (temp_points s ++ [(logical_x, logical_y)]) s in
    '(x1, y1) ← temp_points s !! 0%nat;
    '(x2, y2) ← temp_points s !! 1%nat;
    algo ← current_algo_func s;
    append_object "line" algo (line_algorithm_name algo)
      (<["x1" := x1]> (<["y1" := y1]> (<["x2" := x2]> (<["y2" := y2]> ∅)))) s
  else if mode =? MODE_DRAWING_CIRCLE_CENTER then
    Some (with_mode MODE_DRAWING_CIRCLE_RADIUS
            (with_temp_points (temp_points s ++ [(logical_x, logical_y)]) s))
  else if mode =? MODE_DRAWING_CIRCLE_RADIUS then
    let s := with_temp_points (temp_points s ++ [(logical_x, logical_y)]) s in
    '(cx, cy) ← temp_points s !! 0%nat;
    let r := circle_radius cx cy logical_x logical_y in
    algo ← current_algo_func s;
    append_object "circle" algo "draw_circle"
      (<["xc" := cx]> (<["yc" := cy]> (<["r" := PyInt r]> ∅))) s
  else if mode =? MODE_DRAWING_ELLIPSE_CENTER then
    Some (with_mode MODE_DRAWING_ELLIPSE_RX_POINT
            (with_temp_points (temp_points s ++ [(logical_x, logical_y)]) s))
  else if mode =? MODE_DRAWING_ELLIPSE_RX_POINT then
    let s := with_temp_points (temp_points s ++ [(logical_x, logical_y)]) s in
    _ ← temp_points s !! 0%nat;
    Some (with_mode MODE_DRAWING_ELLIPSE_RY_POINT s)
  else if mode =? MODE_DRAWING_ELLIPSE_RY_POINT then
    let s := with_temp_points (temp_points s ++ [(logical_x, logical_y)]) s in
    '(cx, cy) ← temp_points s !! 0%nat;
    '(rx_point_x, rx_point_y) ← temp_points s !! 1%nat;
    let rx_val := ellipse_radius cx rx_point_x in
    let ry := ellipse_radius cy logical_y in
    algo ← current_algo_func s;
    append_object "ellipse" algo "draw_ellipse"
      (<["xc" := cx]> (<["yc" := cy]> (<["rx" := rx_val]> (<["ry" := ry]> ∅)))) s
  else if mode =? MODE_SELECTING_OBJECT then
    select_at logical_x logical_y s
  else if negb (selected_object_id s =? -1) && (mode =? MODE_APPLY_TRANSLATE) then
    found ← find_object (heap s) (objects_to_draw s) (selected_object_id s);
    match found with
    | Some obj_to_transform =>
        match temp_points s with
        | [] => Some (with_temp_points [(logical_x, logical_y)] s)
        | (start_x, start_y) :: _ =>
            let dx := py_sub logical_x start_x in
            let dy := py_sub logical_y start_y in
            s ← append_transformation obj_to_transform (Translate dx dy) s;
            s ← save_objects_to_file s;
            Some (with_mode MODE_IDLE (with_selected (-1) (with_temp_points [] s)))
        end
    | None => Some (with_mode MODE_IDLE (with_selected (-1) s))
    end
  else if negb (selected_object_id s =? -1) && (mode =? MODE_APPLY_REFLECT_LINE_P1) then
    Some (with_mode MODE_APPLY_REFLECT_LINE_P2
            (with_temp_points (temp_points s ++ [(logical_x, logical_y)]) s))
  else if negb (selected_object_id s =? -1) && (mode =? MODE_APPLY_REFLECT_LINE_P2) then
    found ← find_object (heap s) (objects_to_draw s) (selected_object_id s);
    match found with
    | Some obj_to_transform =>
        let s := with_temp_points (temp_points s ++ [(logical_x, logical_y)]) s in
        line_p1 ← temp_points s !! 0%nat;
        line_p2 ← temp_points s !! 1%nat;
        s ← append_transformation obj_to_transform (ReflectLine line_p1 line_p2) s;
        s ← save_objects_to_file s;
        Some (with_mode MODE_IDLE (with_selected (-1) (with_temp_points [] s)))
    | None => Some (with_mode MODE_IDLE (with_selected (-1) s))
    end
  else Some s.

End Interaction.

(** The operations of a session that create or delete objects. *)
Inductive event : Type :=
  | Click (x_raw_screen y_raw_screen : Z)
  | DeleteSelected.

Section Session.
Context {trig : Trig}.

Definition run_event (e : event) (s : state) : option state :=
  match e with
  | Click x y => mousePressEvent x y s
  | DeleteSelected => delete_selected_object s
  end.

Fixpoint run_events (es : list event) (s : state) : option state :=
  match es with
  | [] => Some s
  | e :: es' => s' ← run_event e s; run_events es' s'
  end.

End Session.

(* ===================================================================== *)
(** * Reference definitions *)
(* ===================================================================== *)

(** The definitions of this part are not translations of the source: they
    say, in closed form, what the properties below compare the code with. *)

Definition zpt (x y : Z) : num * num := (PyInt x, PyInt y).

(** The ordinate and the decision variable of Bresenham's loop after [k]
    iterations, on integers. *)
Fixpoint bres_state (dx dy sy : Z) (k : nat) (y p : Z) : Z * Z :=
  match k with
  | O => (y, p)
  | S k' =>
      let '(y', p') := if 0 <=? p then (y + sy, p - 2 * dx) else (y, p) in
      bres_state dx dy sy k' y' (p' + 2 * dy)
  end.

(** A coordinate scaled by [s] relative to [f]. *)
Definition scaled (p f s : num) : num := py_add (py_mul (py_sub p f) s) f.

(** The entries a parameter dictionary must have for its primitive type. *)
Definition has_key (d : gmap string num) (k : string) : bool :=
  match d !! k with Some _ => true | None => false end.

Definition well_formed_params (type : string) (d : gmap string num) : bool :=
  if String.eqb type "line" then
    has_key d "x1" && has_key d "y1" && has_key d "x2" && has_key d "y2"
  else if String.eqb type "circle" then
    has_key d "xc" && has_key d "yc" && has_key d "r"
  else if String.eqb type "ellipse" then
    has_key d "xc" && has_key d "yc" && has_key d "rx" && has_key d "ry"
  else true.

(** An instance of the trigonometry without any, for running examples in
    which nothing is rotated. *)
Definition no_trig : Trig :=
  {| math_radians := fun a => a; math_cos := fun _ => PyFloat 1; math_sin := fun _ => PyFloat 0 |}.

(** The shapes that the thick rendering of a circle or an ellipse asks
    for: candidate [i] of [0 .. thickness - 1] is drawn when its radius
    (both radii) is at least 1, with the radii cut to integers. *)
Definition thick_circle_shapes (xc yc r : num) (thickness mask : Z) : list draw_cmd :=
  map (fun i => call_draw_circle xc yc (py_int (thick_offset r thickness i))
                  STYLE_SOLID 1 mask)
      (List.filter (fun i => py_ge (thick_offset r thickness i) (PyInt 1))
         (seqZ 0 thickness)).

Definition thick_ellipse_shapes (xc yc rx ry : num) (thickness mask : Z)
  : list draw_cmd :=
  map (fun i => call_draw_ellipse xc yc (py_int (thick_offset rx thickness i))
                  (py_int (thick_offset ry thickness i)) STYLE_SOLID 1 mask)
      (List.filter (fun i => py_ge (thick_offset rx thickness i) (PyInt 1)
                             && py_ge (thick_offset ry thickness i) (PyInt 1))
         (seqZ 0 thickness)).

(** The radii of the concentric circles as the specification words them:
    all of [r + (i - (thickness - 1) / 2)] that are positive. *)
Definition claimed_thick_radii (r : num) (thickness : Z) : list num :=
  List.filter (fun x => py_gt x (PyInt 0))
    (map (thick_offset r thickness) (seqZ 0 thickness)).

(** The radii of the circles that a list of commands asks for. *)
Definition circle_radii (cmds : list draw_cmd) : list num :=
  concat (map (fun c => match c with
                        | call_draw_circle _ _ r _ _ _ => [PyInt r]
                        | _ => []
                        end) cmds).

(** Squared distance from the point [(px, py)] to the closest point of the
    segment from [(ax, ay)] to [(bx, b_y)]: the foot of the perpendicular,
    clamped to the segment. *)
Definition Qclamp01 (u : Q) : Q := Qmax 0 (Qmin 1 u).

Definition sq_dist (px py qx qy : Q) : Q :=
  ((px - qx) * (px - qx) + (py - qy) * (py - qy))%Q.

Definition segment_sq_dist (px py ax ay bx b_y : Q) : Q :=
  let dx := (bx - ax)%Q in
  let dy := (b_y - ay)%Q in
  let len2 := (dx * dx + dy * dy)%Q in
  if Qeq_bool len2 0 then sq_dist px py ax ay
  else
    let t := Qclamp01 (((px - ax) * dx + (py - ay) * dy) / len2) in
    sq_dist px py (ax + t * dx) (ay + t * dy).

(** The outcome of the hit test of one line: sort key of a hit, or none. *)
Definition line_hit_key (dist half : num) : ext :=
  if py_le dist (fl_add half (PyInt 10))
  then Finite (py_abs (fl_sub dist half))
  else Infinity.

(** A session holding one object: the line from (0,0) to (10,0) of
    thickness 3, in selection mode. *)
Definition thick_line_scene : state :=
  let d : gmap string num :=
    <["x1" := PyInt 0]> (<["y1" := PyInt 0]> (<["x2" := PyInt 10]> (<["y2" := PyInt 0]> ∅))) in
  let o := Obj 0 "line" f_dda_line "dda_line" 1%positive (0, 0, 1)%Q STYLE_THICK 3 0
             2%positive in
  let h : gmap loc cell :=
    <[3%positive := CObj o]> (<[2%positive := CList []]> (<[1%positive := CDict d]> ∅)) in
  State h [3%positive] MODE_SELECTING_OBJECT None STYLE_THICK 3 0 (0, 0, 1)%Q [] (-1) 1
    (update_canvas_dimensions 1000 700) None.

(** Points with integer coordinates, as every click produces. *)
Definition is_int (a : num) : bool :=
  match a with PyInt _ => true | PyFloat _ => false end.

Definition int_points (l : list (num * num)) : bool :=
  forallb (fun p => is_int p.1 && is_int p.2) l.

(** Every entry of [objects_to_draw] refers to an object whose parameters
    and transformations are in the heap. *)
Definition store_ok (s : state) : bool :=
  forallb (fun obj => bool_decide (is_Some (serialize (heap s) obj))) (objects_to_draw s).

(** The ids of the objects of the store, in order. *)
Definition id_at (h : gmap loc cell) (obj : loc) : option Z :=
  match h !! obj with Some (CObj o) => Some (obj_id o) | _ => None end.

Definition stored_ids (s : state) : list Z := omap (id_at (heap s)) (objects_to_draw s).

(** The ids that loading takes from a file: those of the records whose
    algorithm name is recognised. *)
Definition loaded_ids (data : list json_obj) : list Z :=
  map (fun j => py_int (j_id j))
      (List.filter (fun j => bool_decide (is_Some (algo_map (j_algorithm j)))) data).

(** The largest of a list of ids, and 0 when there is none or all are
    negative. *)
Definition max_id_of (ids : list Z) : Z := foldr Z.max 0 ids.

(** A session with two lines, ids 0 and 1, the second one selected; its
    file holds both. *)
Definition two_lines_scene : state :=
  let d : gmap string num :=
    <["x1" := PyInt 0]> (<["y1" := PyInt 0]> (<["x2" := PyInt 20]> (<["y2" := PyInt 0]> ∅))) in
  let o0 := Obj 0 "line" f_dda_line "dda_line" 1%positive (0, 0, 1)%Q STYLE_SOLID 1 0
              2%positive in
  let o1 := Obj 1 "line" f_dda_line "dda_line" 4%positive (0, 0, 1)%Q STYLE_SOLID 1 0
              5%positive in
  let h : gmap loc cell :=
    <[6%positive := CObj o1]> (<[5%positive := CList []]> (<[4%positive := CDict d]>
      (<[3%positive := CObj o0]> (<[2%positive := CList []]> (<[1%positive := CDict d]> ∅))))) in
  let j i := Json (PyInt i) "line" "dda_line" d (0, 0, 1)%Q STYLE_SOLID 1 0 [] in
  State h [3%positive; 6%positive] MODE_IDLE None STYLE_SOLID 1 0 (0, 0, 1)%Q [] 1 2
    (update_canvas_dimensions 1000 700) (Some [j 0; j 1]).

(** How the heap evolves during a session: an object of the store and a
    parameter dictionary stay as they are, a list of transformations stays a
    list. *)
Definition heap_extends (h h' : gmap loc cell) : Prop :=
  forall l, match h !! l with
            | Some (CList _) => exists ts, h' !! l = Some (CList ts)
            | Some c => h' !! l = Some c
            | None => True
            end.

(** All stored ids are smaller than the next id. *)
Definition ids_below (s : state) : Prop :=
  Forall (fun i => i < next_object_id s) (stored_ids s).

(** What a state is after a successful [append_object]. *)
Definition appended (type : string) (params : gmap string num) (s s' : state) : Prop :=
  exists lo o,
    objects_to_draw s' = objects_to_draw s ++ [lo]
    /\ heap s !! lo = None
    /\ heap s' !! lo = Some (CObj o)
    /\ obj_id o = next_object_id s
    /\ obj_type o = type
    /\ heap s' !! obj_params o = Some (CDict params)
    /\ heap s' !! obj_transformations o = Some (CList [])
    /\ next_object_id s' = next_object_id s + 1
    /\ heap s ⊆ heap s'
    /\ store_ok s' = true.

(** A session in which the centre (0,-10) of a circle has been clicked and
    the click for the radius is awaited. *)
Definition circle_scene : state :=
  State ∅ [] MODE_DRAWING_CIRCLE_RADIUS (Some f_draw_circle) STYLE_SOLID 1 0 (0, 0, 1)%Q
    [(PyInt 0, PyInt (-10))] (-1) 0 (update_canvas_dimensions 1000 700) None.

(** What one click does to the store: the heap evolves, and either the
    store and the next id stay as they are, or one object is appended that
    carries the next id, which is then incremented. *)
Definition step_ok (s s' : state) : Prop :=
  heap_extends (heap s) (heap s')
  /\ store_ok s' = true
  /\ ((objects_to_draw s' = objects_to_draw s /\ next_object_id s' = next_object_id s)
      \/ (exists lo, objects_to_draw s' = objects_to_draw s ++ [lo]
                     /\ id_at (heap s') lo = Some (next_object_id s)
                     /\ next_object_id s' = next_object_id s + 1)).

(** The entries of the parameters that the loop of [apply_transformations]
    reads and assigns for a record, by primitive type: the coordinates of
    the points, except for a Scale record on a circle or an ellipse, which
    assigns the radii. *)
Definition written_keys (type : string) (t : transformation) : list string :=
  if String.eqb type "line" then ["x1"; "y1"; "x2"; "y2"]
  else match t with
       | Scale _ _ _ _ =>
           if String.eqb type "circle" then ["r"]
           else if String.eqb type "ellipse" then ["rx"; "ry"] else []
       | _ =>
           if String.eqb type "circle" || String.eqb type "ellipse" then ["xc"; "yc"]
           else []
       end.

(** The factors [sx] of the Scale records of a list, in order. *)
Definition scale_factors_x (ts : list transformation) : list num :=
  omap (fun t => match t with Scale sx _ _ _ => Some sx | _ => None end) ts.

Definition scale_factors_y (ts : list transformation) : list num :=
  omap (fun t => match t with Scale _ sy _ _ => Some sy | _ => None end) ts.

Definition is_scale (t : transformation) : bool :=
  match t with Scale _ _ _ _ => true | _ => false end.

(** Code that assigns entries under the keys [K] only. *)
Definition frames {A} (K : list string) (m : dictM A) : Prop :=
  forall d k, k ∉ K -> (m d).2 !! k = d !! k.

(** Code that, run on a dictionary with the keys [K], returns normally and
    keeps the set of keys. *)
Definition total_on (K : list string) (m : dictM unit) : Prop :=
  forall d, (forall k, k ∈ K -> is_Some (d !! k)) ->
            exists d', m d = (Some tt, d') /\ dom d' = dom d.

Definition type_keys (type : string) : list string :=
  if String.eqb type "line" then ["x1"; "y1"; "x2"; "y2"]
  else if String.eqb type "circle" then ["xc"; "yc"; "r"]
  else if String.eqb type "ellipse" then ["xc"; "yc"; "rx"; "ry"]
  else [].


(** [(qx, qy)] is the mirror image of [(px, py)] in the line through
    [(ax, ay)] and [(bx, b_y)]: the middle of the two points is on the line
    and the segment between them is perpendicular to it. *)
Definition mirror_image (px py qx qy ax ay bx b_y : Q) : Prop :=
  ((px + qx - 2 * ax) * (b_y - ay) - (py + qy - 2 * ay) * (bx - ax) == 0)%Q
  /\ ((qx - px) * (bx - ax) + (qy - py) * (b_y - ay) == 0)%Q.


(** What a later save writes for the records that loading took from a
    file: the records whose algorithm name is recognised, in order, with the
    id converted by [int] and the algorithm name written back from the
    function it was mapped to. *)
Definition reloaded (data : list json_obj) : list json_obj :=
  omap (fun j =>
          algo ← algo_map (j_algorithm j);
          Some (Json (PyInt (py_int (j_id j))) (j_type j) (algo_name_map algo) (j_params j)
                  (j_color j) (j_style j) (j_thickness j) (j_mask j) (j_transformations j)))
       data.


(* ===================================================================== *)
(** ** Circle rasteriser *)
(* ===================================================================== *)

(** The eight calls of [plot_styled_pixel] of one iteration of
    [draw_circle]. *)
Definition draw_circle_plots (x_c y_c : num) (r style mask i x y : Z) : list plot_call :=
  [ Plot (py_add x_c (PyInt x)) (py_add y_c (PyInt y)) style i r mask;
    Plot (py_sub x_c (PyInt x)) (py_add y_c (PyInt y)) style i r mask;
    Plot (py_add x_c (PyInt x)) (py_sub y_c (PyInt y)) style i r mask;
    Plot (py_sub x_c (PyInt x)) (py_sub y_c (PyInt y)) style i r mask;
    Plot (py_add x_c (PyInt y)) (py_add y_c (PyInt x)) style i r mask;
    Plot (py_sub x_c (PyInt y)) (py_add y_c (PyInt x)) style i r mask;
    Plot (py_add x_c (PyInt y)) (py_sub y_c (PyInt x)) style i r mask;
    Plot (py_sub x_c (PyInt y)) (py_sub y_c (PyInt x)) style i r mask ].

(** The loop [while x <= y] of [draw_circle], for an integer radius, as the
    radius of a circle that was drawn and the radii that
    [draw_thick_object] passes are.  [fuel] bounds the number of iterations;
    [None] is a loop that has not ended within the bound. *)
Fixpoint draw_circle_loop (x_c y_c : num) (r style mask : Z) (fuel : nat) (i x y p : Z)
    {struct fuel} : option (list plot_call) :=
  if x <=? y then
    match fuel with
    | O => None
    | S fuel' =>
        let '(p', y') :=
          if p <? 0 then (p + (2 * x + 3), y) else (p + (2 * (x - y) + 5), y - 1) in
        rest ← draw_circle_loop x_c y_c r style mask fuel' (i + 1) (x + 1) y' p';
        Some (draw_circle_plots x_c y_c r style mask i x y ++ rest)
    end
  else Some [].

Definition draw_circle (x_c y_c : num) (r style thickness mask : Z)
  : option (list plot_call) :=
  draw_circle_loop x_c y_c r style mask (Z.to_nat (r + 1)) 0 0 r (1 - r).

(** The pixel [(x, y)] is the one of its column nearest to the circle of
    radius [r] about the origin: [(y - 1/2)^2 < r^2 - x^2 < (y + 1/2)^2],
    in integers. *)
Definition nearest_to_circle (r x y : Z) : Prop :=
  - y <= x * x + y * y - r * r < y.


(** The point [p] has the coordinates [x] and [y]. *)
Definition at_point (p : num * num) (x y : Q) : Prop :=
  (num_val p.1 == x)%Q /\ (num_val p.2 == y)%Q.


Section PickingKeys.
Context {trig : Trig}.

(** What the selection loop computes for one object of the store: its hit
    distance for the click, from its effective parameters, and its id. *)
Definition hit_key (lx ly : num) (h : gmap loc cell) (obj : loc) : option (ext * Z) :=
  match h !! obj with
  | Some (CObj o) =>
      match h !! obj_params o, h !! obj_transformations o with
      | Some (CDict d), Some (CList ts) =>
          match apply_transformation_list (obj_type o) ts d with
          | (Some _, eff) =>
              key ← hit_distance lx ly (obj_type o) (obj_thickness o) eff;
              Some (key, obj_id o)
          | (None, _) => None
          end
      | _, _ => None
      end
  | _ => None
  end.

End PickingKeys.

(** The running minimum of the selection loop over the hit distances and
    ids of the objects: a later object replaces the current one only when
    it is strictly closer. *)
Definition closest (keys : list (ext * Z)) (m : ext) (c : Z) : ext * Z :=
  fold_left (fun acc k => if ext_lt k.1 acc.1 then k else acc) keys (m, c).


(* ===================================================================== *)
(** ** Transformation dialogs *)
(* ===================================================================== *)

(** [set_mode(mode)], without the highlighting of buttons. *)
Definition set_mode (mode : Z) (s : state) : state :=
  let s := with_temp_points [] (with_mode mode s) in
  if (mode =? MODE_DRAWING_LINE_P1) || (mode =? MODE_DRAWING_CIRCLE_CENTER)
     || (mode =? MODE_DRAWING_ELLIPSE_CENTER) || (mode =? MODE_IDLE)
     || (mode =? MODE_SELECTING_OBJECT)
  then with_selected (-1) s else s.

(** The common beginning of [prompt_rotate], [prompt_scale] and
    [prompt_reflect]: the object that the dialog will act on, if the dialog
    is opened. *)
Definition prompt_target (mode : Z) (s : state) : option (state * option loc) :=
  if selected_object_id s =? -1 then Some (s, None)
  else
    found ← find_object (heap s) (objects_to_draw s) (selected_object_id s);
    match found with
    | None => Some (with_selected (-1) s, None)
    | Some obj_to_transform => Some (with_mode mode s, Some obj_to_transform)
    end.

Definition prompt_rotate : state -> option (state * option loc) :=
  prompt_target MODE_APPLY_ROTATE.
Definition prompt_scale : state -> option (state * option loc) :=
  prompt_target MODE_APPLY_SCALE.
Definition prompt_reflect : state -> option (state * option loc) :=
  prompt_target MODE_APPLY_REFLECT.

(** The centre of a circle or an ellipse, the middle of a line, and (0, 0)
    for another type: the point that the rotate and scale dialogs store with
    the record. *)
Definition pivot (type : string) (effective_params : gmap string num)
  : option (num * num) :=
  if String.eqb type "circle" || String.eqb type "ellipse" then
    xc ← effective_params !! "xc"; yc ← effective_params !! "yc"; Some (xc, yc)
  else if String.eqb type "line" then
    x1 ← effective_params !! "x1"; x2 ← effective_params !! "x2";
    let cx := py_div (py_add x1 x2) (PyInt 2) in
    y1 ← effective_params !! "y1"; y2 ← effective_params !! "y2";
    let cy := py_div (py_add y1 y2) (PyInt 2) in
    Some (cx, cy)
  else Some (PyInt 0, PyInt 0).

(** [str.lower()] on the letters A to Z. *)
Definition ascii_lower (a : Ascii.ascii) : Ascii.ascii :=
  let n := Ascii.N_of_ascii a in
  if ((65 <=? n) && (n <=? 90))%N then Ascii.ascii_of_N (n + 32) else a.

Fixpoint py_lower (s : string) : string :=
  match s with
  | EmptyString => EmptyString
  | String a s' => String (ascii_lower a) (py_lower s')
  end.

Section Dialogs.
Context {trig : Trig}.

(** The body of the [try] of [rotate_callback] and of [scale_y_callback],
    for the record built from the pivot. *)
Definition append_about_pivot (record : num -> num -> transformation)
    (obj_to_transform : loc) (s : state) : option state :=
  let '(r, h) := apply_transformations obj_to_transform (heap s) in
  let s := with_heap h s in
  effective_params ← r;
  d ← match h !! effective_params with Some (CDict d) => Some d | _ => None end;
  type ← match h !! obj_to_transform with
         | Some (CObj o) => Some (obj_type o)
         | _ => None
         end;
  '(cx, cy) ← pivot type d;
  s ← append_transformation obj_to_transform (record cx cy) s;
  save_objects_to_file s.


(** [scale_y_callback(scale_y_str)], with the converted values of the
    two strings. *)
Definition scale_y_callback (scale_x scale_y : option Q) (obj_to_transform : loc)
    (s : state) : option state :=
  s ← match scale_x, scale_y with
      | Some scale_x, Some scale_y =>
          append_about_pivot
            (fun fx fy => Scale (PyFloat scale_x) (PyFloat scale_y) fx fy)
            obj_to_transform s
      | _, _ => Some s
      end;
  Some (set_mode MODE_IDLE (with_selected (-1) s)).

(** [reflect_option_callback(choice_str)]. *)
Definition reflect_option_callback (choice_str : string) (obj_to_transform : loc)
    (s : state) : option state :=
  let choice := py_lower choice_str in
  let finish (s : state) : option state :=
    let s := if negb (current_mode s =? MODE_APPLY_REFLECT_LINE_P1)
             then set_mode MODE_IDLE (with_selected (-1) s) else s in
    save_objects_to_file s in
  if String.eqb choice "x" || String.eqb choice "1" then
    s ← append_transformation obj_to_transform (Reflect "x") s; finish s
  else if String.eqb choice "y" || String.eqb choice "2" then
    s ← append_transformation obj_to_transform (Reflect "y") s; finish s
  else if String.eqb choice "origin" || String.eqb choice "3" then
    s ← append_transformation obj_to_transform (Reflect "origin") s; finish s
  else if String.eqb choice "line" || String.eqb choice "4" then
    let s := with_temp_points [] (with_mode MODE_APPLY_REFLECT_LINE_P1 s) in
    match heap s !! obj_to_transform with
    | Some (CObj o) => Some (with_selected (obj_id o) s)
    | _ => None
    end
  else finish s.

End Dialogs.


(** Two dictionaries with the same keys and, under each key, numbers of
    the same value. *)
Definition same_values (d d' : gmap string num) : Prop :=
  forall k, match d !! k, d' !! k with
            | Some a, Some b => (num_val a == num_val b)%Q
            | None, None => True
            | _, _ => False
            end.

(** The axis that a choice typed into the reflect dialog stands for, after
    [lower()], and whether it asks for a reflection line. *)
Definition reflect_choice_axis (choice : string) : option string :=
  if String.eqb choice "x" || String.eqb choice "1" then Some "x"
  else if String.eqb choice "y" || String.eqb choice "2" then Some "y"
  else if String.eqb choice "origin" || String.eqb choice "3" then Some "origin"
  else None.

Definition reflect_choice_line (choice : string) : bool :=
  String.eqb choice "line" || String.eqb choice "4".


(* ===================================================================== *)
(** * Properties *)
(* ===================================================================== *)

(** ** Arithmetic of Python numbers *)

Lemma num_val_add a b : (num_val (py_add a b) == num_val a + num_val b)%Q.
Proof.
  destruct a, b; simpl; rewrite ?Qred_correct; try reflexivity.
  rewrite inject_Z_plus. reflexivity.
Qed.

Lemma num_val_sub a b : (num_val (py_sub a b) == num_val a - num_val b)%Q.
Proof.
  destruct a, b; simpl; rewrite ?Qred_correct; try reflexivity.
  unfold Z.sub. rewrite inject_Z_plus, inject_Z_opp. reflexivity.
Qed.

Lemma num_val_mul a b : (num_val (py_mul a b) == num_val a * num_val b)%Q.
Proof.
  destruct a, b; simpl; rewrite ?Qred_correct; reflexivity.
Qed.

Lemma num_val_div a b : (num_val (py_div a b) == num_val a / num_val b)%Q.
Proof. simpl. apply Qred_correct. Qed.

Lemma num_val_neg a : (num_val (py_neg a) == - num_val a)%Q.
Proof. destruct a; simpl; [rewrite inject_Z_opp|]; reflexivity. Qed.

Lemma Qabs_inject_Z z : (Qabs (inject_Z z) == inject_Z (Z.abs z))%Q.
Proof. unfold Qabs, inject_Z. simpl. reflexivity. Qed.

Lemma num_val_abs a : (num_val (py_abs a) == Qabs (num_val a))%Q.
Proof. destruct a; simpl; [symmetry; apply Qabs_inject_Z | reflexivity]. Qed.

Lemma py_lt_spec a b : py_lt a b = true <-> (num_val a < num_val b)%Q.
Proof.
  unfold py_lt. rewrite Qlt_alt.
  destruct (num_val a ?= num_val b)%Q; split; congruence.
Qed.

Lemma py_le_spec a b : py_le a b = true <-> (num_val a <= num_val b)%Q.
Proof.
  unfold py_le. rewrite Qle_alt.
  destruct (num_val a ?= num_val b)%Q; split; congruence.
Qed.

Lemma py_eq_spec a b : py_eq a b = true <-> (num_val a == num_val b)%Q.
Proof. apply Qeq_bool_iff. Qed.

Lemma py_lt_false a b : py_lt a b = false <-> (num_val b <= num_val a)%Q.
Proof.
  rewrite <- not_true_iff_false, py_lt_spec. split; [apply Qnot_lt_le | apply Qle_not_lt].
Qed.

Lemma py_le_false a b : py_le a b = false <-> (num_val b < num_val a)%Q.
Proof.
  rewrite <- not_true_iff_false, py_le_spec. split; [apply Qnot_le_lt | apply Qlt_not_le].
Qed.

(** *** Truncation and rounding *)

Lemma Qtrunc_inject_Z z : Qtrunc (inject_Z z) = z.
Proof. unfold Qtrunc. simpl. apply Z.quot_1_r. Qed.

Lemma Qtrunc_nonneg q : (0 <= q)%Q -> Qtrunc q = Qfloor q.
Proof.
  destruct q as [n d]. unfold Qtrunc, Qfloor, Qle. simpl. intros H.
  apply Z.quot_div_nonneg; lia.
Qed.

Lemma Qtrunc_nonneg_le q : (0 <= q)%Q -> 0 <= Qtrunc q.
Proof.
  intros H. rewrite Qtrunc_nonneg by assumption.
  change 0 with (Qfloor 0). apply Qfloor_resp_le. assumption.
Qed.

#[global] Instance Qround_half_even_comp : Proper (Qeq ==> eq) Qround_half_even.
Proof.
  intros p q H. unfold Qround_half_even.
  rewrite (Qfloor_comp _ _ H).
  assert (E : (p - inject_Z (Qfloor q) ?= 1 # 2)%Q = (q - inject_Z (Qfloor q) ?= 1 # 2)%Q).
  { apply Qcompare_comp; [rewrite H|]; reflexivity. }
  rewrite E. reflexivity.
Qed.

Lemma Qround_half_even_inject_Z z : Qround_half_even (inject_Z z) = z.
Proof.
  unfold Qround_half_even. rewrite Qfloor_Z.
  assert (E : (inject_Z z - inject_Z z ?= 1 # 2)%Q = Lt).
  { rewrite <- Qlt_alt. lra. }
  rewrite E. reflexivity.
Qed.

Lemma py_round_val a : py_round a = Qround_half_even (num_val a).
Proof. destruct a; simpl; [symmetry; apply Qround_half_even_inject_Z | reflexivity]. Qed.

Lemma py_round_int a z : (num_val a == inject_Z z)%Q -> py_round a = z.
Proof. intros H. rewrite py_round_val, H. apply Qround_half_even_inject_Z. Qed.

(** The rounded value is a nearest integer. *)
Lemma Qround_half_even_nearest q :
  (Qabs (q - inject_Z (Qround_half_even q)) <= 1 # 2)%Q.
Proof.
  unfold Qround_half_even.
  pose proof (Qfloor_le q) as Hl. pose proof (Qlt_floor q) as Hu.
  rewrite inject_Z_plus in Hu. change (inject_Z 1) with 1%Q in Hu.
  destruct (q - inject_Z (Qfloor q) ?= 1 # 2)%Q eqn:E.
  - apply Qeq_alt in E. destruct (Z.even (Qfloor q)).
    + apply Qabs_Qle_condition. split; lra.
    + rewrite inject_Z_plus. change (inject_Z 1) with 1%Q.
      apply Qabs_Qle_condition. split; lra.
  - apply Qlt_alt in E. apply Qabs_Qle_condition. split; lra.
  - apply Qgt_alt in E. rewrite inject_Z_plus. change (inject_Z 1) with 1%Q.
    apply Qabs_Qle_condition. split; lra.
Qed.

Lemma Qsqrt_nonneg q : (0 <= Qsqrt q)%Q.
Proof.
  unfold Qsqrt. rewrite Qred_correct. unfold Qle. simpl.
  rewrite Z.mul_1_r. apply Z.sqrt_nonneg.
Qed.

(** ** Binary64 rounding *)

(** A number closer than one half to an integer rounds to it. *)
Lemma Qround_half_even_near q z :
  (Qabs (q - inject_Z z) < 1 # 2)%Q -> Qround_half_even q = z.
Proof.
  intros H. pose proof (Qround_half_even_nearest q) as Hr.
  set (r := Qround_half_even q) in *.
  apply Qabs_Qle_condition in Hr.
  apply Qabs_Qlt_condition in H.
  assert (H1 : (inject_Z (r - z) < inject_Z 1)%Q).
  { unfold Z.sub. rewrite inject_Z_plus, inject_Z_opp. change (inject_Z 1) with 1%Q. lra. }
  assert (H2 : (inject_Z (-1) < inject_Z (r - z))%Q).
  { unfold Z.sub. rewrite inject_Z_plus, inject_Z_opp. change (inject_Z (-1)) with (-1)%Q. lra. }
  rewrite <- Zlt_Qlt in H1, H2. lia.
Qed.

Lemma Qpow2_pos e : (0 < 2 ^ e)%Q.
Proof. apply Qpower_0_lt. reflexivity. Qed.

Lemma Qpow2_nonzero e : ~ (2 ^ e == 0)%Q.
Proof. pose proof (Qpow2_pos e). lra. Qed.

Lemma Qpow2_inject e : 0 <= e -> (2 ^ e == inject_Z (2 ^ e))%Q.
Proof. intros H. rewrite (Zpower_Qpower 2 e H). reflexivity. Qed.

Lemma Qpow2_succ e : (2 ^ (e + 1) == 2 * 2 ^ e)%Q.
Proof. rewrite Qpower_plus by discriminate. change (2 ^ 1)%Q with 2%Q. ring. Qed.

(** [Qlog2 q] is the exponent of the binade of [q]. *)
Lemma Qlog2_spec q :
  (0 < q)%Q -> (2 ^ Qlog2 q <= q)%Q /\ (q < 2 ^ (Qlog2 q + 1))%Q.
Proof.
  intros Hq. destruct q as [n d]. unfold Qlog2. cbn [Qnum Qden].
  assert (Hn : 0 < n) by (unfold Qlt in Hq; simpl in Hq; lia).
  set (a := Z.log2 n). set (b := Z.log2 (Z.pos d)).
  assert (Ha : 2 ^ a <= n < 2 ^ (a + 1)).
  { pose proof (Z.log2_spec n Hn) as H. unfold a. rewrite <- Z.add_1_r in H. exact H. }
  assert (Hb : 2 ^ b <= Z.pos d < 2 ^ (b + 1)).
  { pose proof (Z.log2_spec (Z.pos d) ltac:(lia)) as H. unfold b.
    rewrite <- Z.add_1_r in H. exact H. }
  assert (Ha0 : 0 <= a) by apply Z.log2_nonneg.
  assert (Hb0 : 0 <= b) by apply Z.log2_nonneg.
  assert (Hlow : (2 ^ (a - b - 1) <= n # d)%Q).
  { replace (a - b - 1) with (a - (b + 1)) by lia.
    rewrite Qpower_minus by discriminate.
    rewrite (Qpow2_inject a), (Qpow2_inject (b + 1)) by lia.
    apply Qle_shift_div_r.
    - change 0%Q with (inject_Z 0). rewrite <- Zlt_Qlt. lia.
    - unfold Qle. cbn [Qnum Qden inject_Z Qmult]. rewrite !Z.mul_1_r.
      rewrite Pos2Z.inj_mul. change (Z.pos 1) with 1. rewrite Z.mul_1_r.
      nia. }
  assert (Hup : (n # d < 2 ^ (a - b + 1))%Q).
  { replace (a - b + 1) with (a + 1 - b) by lia.
    rewrite Qpower_minus by discriminate.
    rewrite (Qpow2_inject (a + 1)), (Qpow2_inject b) by lia.
    apply Qlt_shift_div_l.
    - change 0%Q with (inject_Z 0). rewrite <- Zlt_Qlt. lia.
    - unfold Qlt. cbn [Qnum Qden inject_Z Qmult]. rewrite !Z.mul_1_r.
      nia. }
  destruct (Qle_bool (2 ^ (a - b)) (n # d)) eqn:E.
  - apply Qle_bool_iff in E. split; [exact E|exact Hup].
  - split; [exact Hlow|].
    replace (a - b - 1 + 1) with (a - b) by lia.
    apply Qnot_le_lt. intros H. apply Qle_bool_iff in H. congruence.
Qed.

Lemma Qabs_gt0 q : ~ (q == 0)%Q -> (0 < Qabs q)%Q.
Proof.
  intros H. destruct (Qlt_le_dec 0 (Qabs q)) as [|Hle]; [assumption|].
  exfalso. apply H. apply Qabs_Qle_condition in Hle. lra.
Qed.

(** The value of [b64 q]: a multiple of the unit in the last place of [q],
    which is at most [2^-52] of its magnitude. *)
Lemma b64_val q :
  ~ (q == 0)%Q ->
  let u := (2 ^ (Qlog2 (Qabs q) - 52))%Q in
  (b64 q == inject_Z (Qround_half_even (q / u)) * u)%Q.
Proof.
  intros H u. unfold b64.
  destruct (Qeq_bool q 0) eqn:E; [apply Qeq_bool_iff in E; contradiction|].
  apply Qred_correct.
Qed.

Lemma b64_zero q : (q == 0)%Q -> b64 q = 0%Q.
Proof. intros H. unfold b64. apply Qeq_bool_iff in H. rewrite H. reflexivity. Qed.

(** Rounding changes a number of magnitude at most [2^m] by at most
    [2^(m-53)]. *)
Lemma b64_error q m :
  (Qabs q <= 2 ^ m)%Q -> (Qabs (b64 q - q) <= 2 ^ (m - 53))%Q.
Proof.
  intros Hm. destruct (Qeq_dec q 0) as [Hz|Hz].
  { rewrite (b64_zero q Hz), Hz. pose proof (Qpow2_pos (m - 53)).
    apply Qabs_Qle_condition. split; lra. }
  pose proof (b64_val q Hz) as Hv. cbv zeta in Hv.
  destruct (Qlog2_spec (Qabs q) (Qabs_gt0 q Hz)) as [Hlo _].
  set (e := Qlog2 (Qabs q)) in *.
  assert (He : e <= m).
  { apply (Qpower_le_compat_l_inv 2); [|reflexivity]. lra. }
  set (u := (2 ^ (e - 52))%Q) in *.
  pose proof (Qpow2_pos (e - 52)) as Hu. fold u in Hu.
  pose proof (Qround_half_even_nearest (q / u)) as Hr.
  set (r := inject_Z (Qround_half_even (q / u))) in *.
  assert (Hhalf : (u / 2 <= 2 ^ (m - 53))%Q).
  { assert (E2 : (u == 2 * 2 ^ (e - 53))%Q).
    { unfold u. replace (e - 52) with (e - 53 + 1) by lia. apply Qpow2_succ. }
    rewrite E2.
    setoid_replace (2 * 2 ^ (e - 53) / 2)%Q with (2 ^ (e - 53))%Q using relation Qeq
      by field.
    apply Qpower_le_compat_l; [lia|]. discriminate. }
  assert (Herr : (b64 q - q == (r - q / u) * u)%Q).
  { rewrite Hv. field. lra. }
  rewrite Herr, Qabs_Qmult, (Qabs_pos u) by lra.
  apply Qabs_Qle_condition in Hr.
  assert (Hr' : (Qabs (r - q / u) <= 1 # 2)%Q).
  { apply Qabs_Qle_condition. split; lra. }
  eapply Qle_trans; [|exact Hhalf].
  setoid_replace (u / 2)%Q with ((1 # 2) * u)%Q using relation Qeq by field.
  apply Qmult_le_compat_r; [exact Hr'|lra].
Qed.

Lemma Qred_inject_Z z : Qred (inject_Z z) = inject_Z z.
Proof.
  unfold Qred, inject_Z.
  pose proof (Z.ggcd_gcd z 1) as Hg. pose proof (Z.ggcd_correct_divisors z 1) as Hd.
  destruct (Z.ggcd z 1) as [g [a b]]. simpl in *. rewrite Z.gcd_1_r in Hg. subst g.
  destruct Hd as [Ha Hb]. rewrite Z.mul_1_l in *. subst. reflexivity.
Qed.

(** Integers up to [2^53] in magnitude are binary64 numbers. *)
Lemma b64_int z : Z.abs z <= 2 ^ 53 -> b64 (inject_Z z) = inject_Z z.
Proof.
  intros Hz. destruct (Z.eq_dec z 0) as [->|Hnz]; [reflexivity|].
  destruct (Z.eq_dec (Z.abs z) (2 ^ 53)) as [E|E].
  { assert (H : z = 2 ^ 53 \/ z = - 2 ^ 53) by lia.
    destruct H as [->| ->]; vm_compute; reflexivity. }
  assert (Hq : ~ (inject_Z z == 0)%Q).
  { intros H. unfold Qeq in H. simpl in H. lia. }
  rewrite <- (Qred_inject_Z z) at 2. unfold b64.
  destruct (Qeq_bool (inject_Z z) 0) eqn:E0; [apply Qeq_bool_iff in E0; contradiction|].
  apply Qred_complete.
  destruct (Qlog2_spec (Qabs (inject_Z z)) (Qabs_gt0 _ Hq)) as [Hlo _].
  set (e := Qlog2 (Qabs (inject_Z z))) in *.
  assert (He : e <= 52).
  { destruct (Z_le_gt_dec e 52) as [|Hgt]; [assumption|exfalso].
    assert (H53 : (2 ^ 53 <= 2 ^ e)%Q) by (apply Qpower_le_compat_l; [lia|discriminate]).
    assert (Hlt : (Qabs (inject_Z z) < 2 ^ 53)%Q).
    { change (Qabs (inject_Z z)) with (inject_Z (Z.abs z)). rewrite (Qpow2_inject 53) by lia.
      rewrite <- Zlt_Qlt. lia. }
    lra. }
  set (k := 52 - e).
  assert (Hu : (2 ^ (e - 52) * inject_Z (2 ^ k) == 1)%Q).
  { rewrite <- (Qpow2_inject k) by (unfold k; lia).
    rewrite <- Qpower_plus by discriminate.
    replace (e - 52 + k) with 0 by (unfold k; lia). reflexivity. }
  pose proof (Qpow2_pos (e - 52)) as Hpos.
  assert (Hdiv : (inject_Z z / 2 ^ (e - 52) == inject_Z (z * 2 ^ k))%Q).
  { rewrite inject_Z_mult. field_simplify_eq; [|lra].
    rewrite <- (Qmult_1_r (inject_Z z)) at 1. rewrite <- Hu. ring. }
  rewrite Hdiv, Qround_half_even_inject_Z, inject_Z_mult.
  rewrite <- (Qmult_1_r (inject_Z z)) at 2. rewrite <- Hu. ring.
Qed.


Lemma b64_error_unit q :
  (-1 <= q <= 1)%Q ->
  (- (1 # 9007199254740992) <= b64 q - q <= 1 # 9007199254740992)%Q.
Proof.
  intros H. apply Qabs_Qle_condition.
  apply (b64_error q 0). apply Qabs_Qle_condition. exact H.
Qed.

Lemma b64_error_2_23 q :
  (- 8388608 <= q <= 8388608)%Q ->
  (- (1 # 1073741824) <= b64 q - q <= 1 # 1073741824)%Q.
Proof.
  intros H. apply Qabs_Qle_condition.
  apply (b64_error q 23). apply Qabs_Qle_condition. exact H.
Qed.

Lemma Qmult_bound K i A B :
  (0 <= K <= A)%Q -> (- B <= i <= B)%Q -> (- (A * B) <= K * i <= A * B)%Q.
Proof. intros [H1 H2] [H3 H4]. split; nra. Qed.

(** Accumulating an increment of magnitude at most 2 from a start of
    magnitude at most [2^20], at most [2^21] times: each addition is off by
    at most [2^-30]. *)
Lemma iter_b64_add_error (i v0 : Q) (k : nat) :
  (- 1048576 <= v0 <= 1048576)%Q -> (- 2 <= i <= 2)%Q ->
  Z.of_nat k <= 2097152 ->
  let K := inject_Z (Z.of_nat k) in
  (- (K * (1 # 1073741824))
   <= Nat.iter k (fun a => b64 (a + i)) v0 - (v0 + K * i)
   <= K * (1 # 1073741824))%Q.
Proof.
  intros Hv Hi. induction k as [|k IH]; intros Hk K.
  - subst K. change (inject_Z (Z.of_nat 0)) with 0%Q. simpl Nat.iter. split; lra.
  - assert (Hk' : Z.of_nat k <= 2097152) by lia.
    specialize (IH Hk'). cbv zeta in IH.
    set (K0 := inject_Z (Z.of_nat k)) in *.
    assert (EK : (K == K0 + 1)%Q).
    { subst K K0. rewrite Nat2Z.inj_succ, <- Z.add_1_r, inject_Z_plus. reflexivity. }
    assert (HK0 : (0 <= K0 <= 2097151)%Q).
    { subst K0. split.
      - change 0%Q with (inject_Z 0). rewrite <- Zle_Qle. lia.
      - change 2097151%Q with (inject_Z 2097151). rewrite <- Zle_Qle. lia. }
    rewrite Nat.iter_succ. set (a := Nat.iter k (fun a => b64 (a + i)) v0) in *.
    assert (HKi : (- (2097152 * 2) <= (K0 + 1) * i <= 2097152 * 2)%Q).
    { apply Qmult_bound; [lra|exact Hi]. }
    assert (Hb : (- 8388608 <= a + i <= 8388608)%Q) by (split; nra).
    pose proof (b64_error_2_23 _ Hb) as He.
    rewrite EK. split; lra.
Qed.

(** After [n] additions of the rounded increment [(b - a) / n] the
    accumulator is within one half of [b], so it rounds to [b]. *)
Lemma dda_accumulator_reaches (a b n : Z) :
  Z.abs a <= 1048576 -> Z.abs b <= 1048576 ->
  Z.abs (b - a) <= n -> 0 < n <= 2097152 ->
  Qround_half_even
    (Nat.iter (Z.to_nat n)
       (fun v => b64 (v + b64 (inject_Z (b - a) / inject_Z n))) (inject_Z a)) = b.
Proof.
  intros Ha Hb Hd Hn. apply Qround_half_even_near.
  set (i := b64 (inject_Z (b - a) / inject_Z n)).
  assert (HN : (0 < inject_Z n)%Q).
  { change 0%Q with (inject_Z 0). rewrite <- Zlt_Qlt. lia. }
  assert (HN2 : (inject_Z n <= 2097152)%Q).
  { change 2097152%Q with (inject_Z 2097152). rewrite <- Zle_Qle. lia. }
  assert (Hq : (-1 <= inject_Z (b - a) / inject_Z n <= 1)%Q).
  { split.
    - apply Qle_shift_div_l; [exact HN|].
      setoid_replace (-1 * inject_Z n)%Q with (inject_Z (- n)) using relation Qeq
        by (rewrite inject_Z_opp; ring).
      rewrite <- Zle_Qle. lia.
    - apply Qle_shift_div_r; [exact HN|]. rewrite Qmult_1_l.
      rewrite <- Zle_Qle. lia. }
  pose proof (b64_error_unit _ Hq) as Hi. fold i in Hi.
  assert (Hi2 : (-2 <= i <= 2)%Q) by (split; lra).
  assert (Hva : (- 1048576 <= inject_Z a <= 1048576)%Q).
  { split.
    - change (- 1048576)%Q with (inject_Z (- 1048576)). rewrite <- Zle_Qle. lia.
    - change 1048576%Q with (inject_Z 1048576). rewrite <- Zle_Qle. lia. }
  pose proof (iter_b64_add_error i (inject_Z a) (Z.to_nat n) Hva Hi2) as Hit.
  rewrite Z2Nat.id in Hit by lia. specialize (Hit ltac:(lia)). cbv zeta in Hit.
  set (v := Nat.iter (Z.to_nat n) (fun a0 => b64 (a0 + i)) (inject_Z a)) in *.
  assert (Eb : (inject_Z b == inject_Z a + inject_Z n * (inject_Z (b - a) / inject_Z n))%Q).
  { unfold Z.sub. rewrite inject_Z_plus, inject_Z_opp. field. lra. }
  set (q := (inject_Z (b - a) / inject_Z n)%Q) in *.
  apply Qabs_Qlt_condition. rewrite Eb.
  set (N := inject_Z n) in *.
  assert (H1 : (- (2097152 * (1 # 9007199254740992)) <= N * (i - q)
                <= 2097152 * (1 # 9007199254740992))%Q).
  { apply Qmult_bound; [split; lra|exact Hi]. }
  split; nra.
Qed.

Lemma Qeq_bool_comp_l p q r : (p == q)%Q -> Qeq_bool p r = Qeq_bool q r.
Proof.
  intros H. destruct (Qeq_bool p r) eqn:E1, (Qeq_bool q r) eqn:E2; try reflexivity.
  - apply Qeq_bool_iff in E1. apply Qeq_bool_neq in E2. exfalso. apply E2. rewrite <- H. exact E1.
  - apply Qeq_bool_iff in E2. apply Qeq_bool_neq in E1. exfalso. apply E1. rewrite H. exact E2.
Qed.

Lemma Qpow2_lt_inv a b : (2 ^ a < 2 ^ b)%Q -> a < b.
Proof.
  intros H. destruct (Z_lt_le_dec a b) as [|Hle]; [assumption|exfalso].
  assert (H2 : (2 ^ b <= 2 ^ a)%Q) by (apply Qpower_le_compat_l; [lia|discriminate]).
  lra.
Qed.

(** The binade of a positive number is determined by its value. *)
Lemma Qlog2_unique q e : (2 ^ e <= q)%Q -> (q < 2 ^ (e + 1))%Q -> Qlog2 q = e.
Proof.
  intros Hlo Hhi. pose proof (Qpow2_pos e) as Hp.
  destruct (Qlog2_spec q ltac:(lra)) as [Llo Lhi].
  assert (H1 : e < Qlog2 q + 1) by (apply Qpow2_lt_inv; lra).
  assert (H2 : Qlog2 q < e + 1) by (apply Qpow2_lt_inv; lra).
  lia.
Qed.

Lemma Qlog2_comp p q : (0 < p)%Q -> (p == q)%Q -> Qlog2 p = Qlog2 q.
Proof.
  intros Hp H. destruct (Qlog2_spec p Hp) as [Llo Lhi].
  symmetry. apply Qlog2_unique; rewrite <- H; assumption.
Qed.

#[global] Instance b64_comp : Proper (Qeq ==> eq) b64.
Proof.
  intros p q H. unfold b64. rewrite (Qeq_bool_comp_l p q 0 H).
  destruct (Qeq_bool q 0) eqn:E; [reflexivity|]. apply Qeq_bool_neq in E.
  apply Qred_complete.
  rewrite (Qlog2_comp (Qabs p) (Qabs q)).
  - rewrite H. reflexivity.
  - apply Qabs_gt0. rewrite H. exact E.
  - rewrite H. reflexivity.
Qed.

(** A number with at most 53 significant bits is a binary64 number
    (the exponent range is not bounded). *)
Lemma b64_dyadic z k :
  Z.abs z <= 2 ^ 53 -> (b64 (inject_Z z * 2 ^ k) == inject_Z z * 2 ^ k)%Q.
Proof.
  intros Hz. pose proof (Qpow2_pos k) as Hk.
  destruct (Z.eq_dec z 0) as [->|Hnz].
  { rewrite b64_zero by (change (inject_Z 0) with 0%Q; ring).
    change (inject_Z 0) with 0%Q. ring. }
  set (q := (inject_Z z * 2 ^ k)%Q).
  assert (Hzq : ~ (inject_Z z == 0)%Q).
  { intros H. unfold Qeq in H. simpl in H. lia. }
  assert (Hq : ~ (q == 0)%Q).
  { intros H. subst q. apply Qmult_integral in H. destruct H as [H|H]; [contradiction|lra]. }
  rewrite (b64_val q Hq).
  destruct (Qlog2_spec (Qabs q) (Qabs_gt0 q Hq)) as [Hlo _].
  set (e := Qlog2 (Qabs q)) in *.
  assert (Habs : (Qabs q == inject_Z (Z.abs z) * 2 ^ k)%Q).
  { subst q. rewrite Qabs_Qmult, (Qabs_pos (2 ^ k)) by lra. reflexivity. }
  assert (Hz53 : (inject_Z (Z.abs z) <= 2 ^ 53)%Q).
  { rewrite (Qpow2_inject 53) by lia. rewrite <- Zle_Qle. exact Hz. }
  assert (Hup : (Qabs q <= 2 ^ (53 + k))%Q).
  { rewrite Habs, Qpower_plus by discriminate.
    apply Qmult_le_compat_r; [exact Hz53|lra]. }
  assert (He : e <= 53 + k).
  { apply (Qpower_le_compat_l_inv 2); [lra|reflexivity]. }
  pose proof (Qpow2_pos (e - 52)) as Hu.
  destruct (Z_le_gt_dec e (52 + k)) as [Hle|Hgt].
  - set (j := k - (e - 52)).
    assert (Hj : (2 ^ k == 2 ^ (e - 52) * inject_Z (2 ^ j))%Q).
    { rewrite <- (Qpow2_inject j) by (unfold j; lia).
      rewrite <- Qpower_plus by discriminate.
      replace (e - 52 + j) with k by (unfold j; lia). reflexivity. }
    assert (Hdiv : (q / 2 ^ (e - 52) == inject_Z (z * 2 ^ j))%Q).
    { subst q. rewrite inject_Z_mult, Hj. field. lra. }
    rewrite Hdiv, Qround_half_even_inject_Z, inject_Z_mult. subst q. rewrite Hj. ring.
  - assert (Ee : e = 53 + k) by lia.
    assert (Hge : (2 ^ 53 <= inject_Z (Z.abs z))%Q).
    { rewrite Habs, Ee, Qpower_plus in Hlo by discriminate.
      apply Qmult_le_r in Hlo; [exact Hlo|lra]. }
    rewrite (Qpow2_inject 53) in Hge by lia. rewrite <- Zle_Qle in Hge.
    assert (Eu : (2 ^ (e - 52) == 2 * 2 ^ k)%Q).
    { replace (e - 52) with (k + 1) by lia. apply Qpow2_succ. }
    assert (Hzz : z = 2 * (z / 2)).
    { assert (H : z = 2 ^ 53 \/ z = - 2 ^ 53) by lia.
      destruct H as [-> | ->]; reflexivity. }
    assert (Hdiv : (q / 2 ^ (e - 52) == inject_Z (z / 2))%Q).
    { subst q. rewrite Eu. rewrite Hzz at 1. rewrite inject_Z_mult.
      change (inject_Z 2) with 2%Q. field. lra. }
    rewrite Hdiv, Qround_half_even_inject_Z, Eu. subst q.
    rewrite Hzz at 2. rewrite inject_Z_mult. change (inject_Z 2) with 2%Q. ring.
Qed.

(** Half-integers of magnitude up to [2^52] are binary64 numbers. *)
Lemma b64_half z : Z.abs z <= 2 ^ 53 -> (b64 (inject_Z z / 2) == inject_Z z / 2)%Q.
Proof.
  intros H.
  assert (E : (inject_Z z / 2 == inject_Z z * 2 ^ (-1))%Q) by (change (2 ^ (-1))%Q with (/ 2)%Q; reflexivity).
  rewrite (b64_comp _ _ E), E. apply b64_dyadic. exact H.
Qed.

Lemma b64_sqrt_nonneg q : (0 <= b64_sqrt q)%Q.
Proof.
  unfold b64_sqrt. destruct (Qle_bool q 0); [lra|].
  cbv zeta. rewrite Qred_correct.
  set (u := (2 ^ (Qlog2 q / 2 - 52))%Q).
  pose proof (Qpow2_pos (Qlog2 q / 2 - 52)) as Hu. fold u in Hu.
  set (y := (q / (u * u))%Q). set (s := Z.sqrt (Qfloor y)).
  pose proof (Z.sqrt_nonneg (Qfloor y)) as Hs. fold s in Hs.
  apply Qmult_le_0_compat; [|lra].
  change 0%Q with (inject_Z 0). rewrite <- Zle_Qle.
  destruct (y ?= inject_Z (s * s + s) + (1 # 4))%Q; [destruct (Z.even s)| |]; lia.
Qed.

(** The root of a perfect square below [2^106] is exact. *)
Lemma b64_sqrt_square n :
  0 <= n < 2 ^ 53 -> (b64_sqrt (inject_Z (n * n)) == inject_Z n)%Q.
Proof.
  intros Hn. destruct (Z.eq_dec n 0) as [->|Hnz]; [reflexivity|].
  assert (Hpos : (0 < inject_Z (n * n))%Q).
  { change 0%Q with (inject_Z 0). rewrite <- Zlt_Qlt. nia. }
  unfold b64_sqrt.
  destruct (Qle_bool (inject_Z (n * n)) 0) eqn:E0.
  { apply Qle_bool_iff in E0. lra. }
  cbv zeta. rewrite Qred_correct.
  destruct (Qlog2_spec _ Hpos) as [Hlo _].
  set (e := Qlog2 (inject_Z (n * n))) in *.
  assert (He : e <= 105).
  { destruct (Z_le_gt_dec e 105) as [|Hgt]; [assumption|exfalso].
    assert (H106 : (2 ^ 106 <= 2 ^ e)%Q) by (apply Qpower_le_compat_l; [lia|discriminate]).
    rewrite (Qpow2_inject 106) in H106 by lia.
    assert (Hlt : (inject_Z (n * n) < inject_Z (2 ^ 106))%Q).
    { rewrite <- Zlt_Qlt. assert (E106 : 2 ^ 106 = 2 ^ 53 * 2 ^ 53) by reflexivity.
      rewrite E106. nia. }
    apply (Qlt_irrefl (inject_Z (n * n))).
    eapply Qlt_le_trans; [exact Hlt|]. eapply Qle_trans; [exact H106 | exact Hlo]. }
  assert (Hh : e / 2 <= 52) by (apply Z.lt_succ_r, Z.div_lt_upper_bound; lia).
  set (m := 52 - e / 2).
  set (u := (2 ^ (e / 2 - 52))%Q).
  pose proof (Qpow2_pos (e / 2 - 52)) as Hu. fold u in Hu.
  assert (Hum : (u * inject_Z (2 ^ m) == 1)%Q).
  { unfold u. rewrite <- (Qpow2_inject m) by (unfold m; lia).
    rewrite <- Qpower_plus by discriminate.
    replace (e / 2 - 52 + m) with 0 by (unfold m; lia). reflexivity. }
  set (s := n * 2 ^ m).
  assert (Hy : (inject_Z (n * n) / (u * u) == inject_Z (s * s))%Q).
  { unfold s. rewrite !inject_Z_mult. field_simplify_eq; [|lra].
    transitivity (inject_Z n * inject_Z n * ((u * inject_Z (2 ^ m)) * (u * inject_Z (2 ^ m))))%Q;
      [rewrite Hum|]; ring. }
  assert (Hs0 : 0 <= s) by (unfold s; apply Z.mul_nonneg_nonneg; [lia|apply Z.pow_nonneg; lia]).
  rewrite (Qfloor_comp _ _ Hy), Qfloor_Z, Z.sqrt_square by exact Hs0.
  assert (Hc : (inject_Z (n * n) / (u * u) ?= inject_Z (s * s + s) + (1 # 4))%Q = Lt).
  { rewrite <- Qlt_alt, Hy, inject_Z_plus.
    assert (H0 : (0 <= inject_Z s)%Q) by (change 0%Q with (inject_Z 0); rewrite <- Zle_Qle; exact Hs0).
    lra. }
  rewrite Hc. unfold s. rewrite inject_Z_mult.
  transitivity (inject_Z n * (u * inject_Z (2 ^ m)))%Q; [ring|rewrite Hum; ring].
Qed.

Lemma py_float_int z : Z.abs z <= 2 ^ 53 -> py_float (PyInt z) = PyFloat (inject_Z z).
Proof. intros H. simpl. rewrite b64_int by exact H. reflexivity. Qed.

Lemma iter_fl_add (i v : Q) (k : nat) :
  Nat.iter k (fun a => fl_add a (PyFloat i)) (PyFloat v)
  = PyFloat (Nat.iter k (fun a => b64 (a + i)) v).
Proof.
  induction k as [|k IH]; [reflexivity|].
  rewrite !Nat.iter_succ, IH. reflexivity.
Qed.

(** ** Coordinate mapper *)

(** C3. For every integer logical point and every canvas, mapping to the
    screen and back returns the point; the two mappings are inverses of
    each other on integer coordinates. *)
Theorem coordinate_round_trip (c : canvas) (x y : Z) :
  screen_to_logical c (logical_to_screen c (PyInt x, PyInt y)) = (PyInt x, PyInt y)
  /\ logical_to_screen c (screen_to_logical c (PyInt x, PyInt y)) = (PyInt x, PyInt y).
Proof.
  unfold screen_to_logical, logical_to_screen; simpl.
  split; f_equal; f_equal; lia.
Qed.

(** ** DDA *)

Lemma Qtrunc_nonpos q : (q <= 0)%Q -> Qtrunc q = - Qfloor (- q).
Proof.
  destruct q as [n d]. unfold Qtrunc, Qfloor, Qle. simpl. intros H.
  replace n with (- - n) at 1 by lia.
  rewrite Z.quot_opp_l by lia. f_equal. apply Z.quot_div_nonneg; lia.
Qed.

#[global] Instance Qtrunc_comp : Proper (Qeq ==> eq) Qtrunc.
Proof.
  intros p q H. destruct (Qlt_le_dec p 0) as [Hp|Hp].
  - rewrite !Qtrunc_nonpos by lra. f_equal. apply Qfloor_comp. rewrite H. reflexivity.
  - rewrite !Qtrunc_nonneg by lra. apply Qfloor_comp. assumption.
Qed.

Lemma py_int_val a : py_int a = Qtrunc (num_val a).
Proof. destruct a; simpl; [symmetry; apply Qtrunc_inject_Z | reflexivity]. Qed.

Lemma num_val_max a b : (num_val (py_max a b) == Qmax (num_val a) (num_val b))%Q.
Proof.
  unfold py_max, py_gt. destruct (py_lt a b) eqn:E.
  - apply py_lt_spec in E. rewrite Q.max_r by lra. reflexivity.
  - apply py_lt_false in E. rewrite Q.max_l by lra. reflexivity.
Qed.

Lemma py_lt_int a b : py_lt (PyInt a) (PyInt b) = (a <? b).
Proof.
  unfold py_lt, Z.ltb. simpl. unfold Qcompare. simpl. rewrite !Z.mul_1_r.
  reflexivity.
Qed.

(** The step count is never negative. *)
Lemma dda_steps_nonneg dx dy : 0 <= py_int (py_max (py_abs dx) (py_abs dy)).
Proof.
  rewrite py_int_val. apply Qtrunc_nonneg_le.
  rewrite num_val_max, num_val_abs.
  eapply Qle_trans; [apply Qabs_nonneg | apply Q.le_max_l].
Qed.

(** On integer endpoints the differences and the step count are integers. *)
Lemma dda_steps_int a b c d :
  py_int (py_max (py_abs (fl_sub (PyInt c) (PyInt a))) (py_abs (fl_sub (PyInt d) (PyInt b))))
  = Z.max (Z.abs (c - a)) (Z.abs (d - b)).
Proof.
  simpl fl_sub. simpl py_abs. unfold py_max, py_gt. rewrite py_lt_int.
  destruct (Z.ltb_spec (Z.abs (c - a)) (Z.abs (d - b))); simpl; lia.
Qed.

Lemma dda_loop_map style mask steps x_inc y_inc n : forall i x y,
  dda_loop style mask steps x_inc y_inc n i x y
  = map (fun k => Plot (PyInt (py_round (Nat.iter k (fun a => fl_add a x_inc) x)))
                       (PyInt (py_round (Nat.iter k (fun a => fl_add a y_inc) y)))
                       style (i + Z.of_nat k) steps mask)
        (seq 0 n).
Proof.
  induction n as [|n IH]; intros i x y; [reflexivity|].
  simpl. f_equal.
  - f_equal. lia.
  - rewrite IH, <- seq_shift, map_map. apply map_ext. intros k.
    rewrite !Nat.iter_succ_r. f_equal. lia.
Qed.

Lemma Qabs_sub_inject_Z a b :
  (Qabs (inject_Z a - inject_Z b) == inject_Z (Z.abs (a - b)))%Q.
Proof.
  rewrite <- Qabs_inject_Z. unfold Z.sub. rewrite inject_Z_plus, inject_Z_opp.
  reflexivity.
Qed.

Lemma Qmax_inject_Z a b : (Qmax (inject_Z a) (inject_Z b) == inject_Z (Z.max a b))%Q.
Proof.
  destruct (Z.max_spec a b) as [[H ->]|[H ->]].
  - apply Q.max_r. rewrite <- Zle_Qle. lia.
  - apply Q.max_l. rewrite <- Zle_Qle. lia.
Qed.

(** C1 (amended). The step count of DDA is [max(|dx|, |dy|)] cut to an
    integer, never negative (for integer endpoints it is the integer
    [max(|x2-x1|, |y2-y1|)], which is also its rounding); with a count of 0
    exactly the one point (x1, y1) is emitted, otherwise exactly
    [steps + 1] points, point [i] being the start, as a float, to which the
    increment [dx/steps] (resp. [dy/steps]) has been added [i] times in
    floating point, rounded to a nearest integer; from (0,0) to (10,0) these
    are the 11 points (x, 0), x = 0..10. *)
Theorem dda_line_emits (x1 y1 x2 y2 : num) (style thickness mask : Z) :
  let dx := fl_sub x2 x1 in
  let dy := fl_sub y2 y1 in
  let steps := py_int (py_max (py_abs dx) (py_abs dy)) in
  let x_inc := fl_div dx (PyInt steps) in
  let y_inc := fl_div dy (PyInt steps) in
  let advanced (start inc : num) (i : Z) :=
    Nat.iter (Z.to_nat i) (fun a => fl_add a inc) (py_float start) in
  let out := dda_line x1 y1 x2 y2 style thickness mask in
  0 <= steps
  /\ out = (if steps =? 0 then [Plot x1 y1 style 0 0 mask]
           else map (fun i => Plot (PyInt (py_round (advanced x1 x_inc i)))
                                   (PyInt (py_round (advanced y1 y_inc i)))
                                   style i steps mask)
                    (seqZ 0 (steps + 1)))
  /\ length out = (if steps =? 0 then 1%nat else Z.to_nat (steps + 1))
  /\ (forall a b c d : Z,
        let m := py_max (py_abs (fl_sub (PyInt c) (PyInt a)))
                        (py_abs (fl_sub (PyInt d) (PyInt b))) in
        py_int m = Z.max (Z.abs (c - a)) (Z.abs (d - b)) /\ py_int m = py_round m)
  /\ (forall a, Qabs (num_val a - inject_Z (py_round a)) <= 1 # 2)%Q
  /\ map pc_point (dda_line (PyInt 0) (PyInt 0) (PyInt 10) (PyInt 0) style thickness mask)
     = map (fun x => zpt x 0) (seqZ 0 11).
Proof.
  intros dx dy steps x_inc y_inc advanced out.
  assert (Hout : out = (if steps =? 0 then [Plot x1 y1 style 0 0 mask]
           else map (fun i => Plot (PyInt (py_round (advanced x1 x_inc i)))
                                   (PyInt (py_round (advanced y1 y_inc i)))
                                   style i steps mask)
                    (seqZ 0 (steps + 1)))).
  { subst out. unfold dda_line. fold dx dy steps.
    destruct (steps =? 0) eqn:E; [reflexivity|]. fold x_inc y_inc.
    rewrite dda_loop_map. unfold seqZ.
    change (?f <$> ?l) with (map f l). rewrite map_map.
    apply map_ext. intros k. unfold advanced. rewrite !Z.add_0_r, Z.add_0_l, Nat2Z.id.
    reflexivity. }
  split; [apply dda_steps_nonneg|].
  split; [exact Hout|].
  split.
  { rewrite Hout. destruct (steps =? 0); [reflexivity|].
    rewrite length_map, length_seqZ. reflexivity. }
  split.
  { intros a b c d m. subst m. rewrite dda_steps_int. split; [reflexivity|].
    simpl fl_sub. simpl py_abs. unfold py_max, py_gt. rewrite py_lt_int.
    destruct (Z.ltb_spec (Z.abs (c - a)) (Z.abs (d - b))); simpl; lia. }
  split.
  { intros a. rewrite py_round_val. apply Qround_half_even_nearest. }
  vm_compute. reflexivity.
Qed.

(** C1, as stated, fails on a line whose endpoints are not integers: from
    (5.625, 0) to (14.375, 0) the larger difference 8.75 rounds to 9, but
    the code cuts it to 8 and emits 9 points, not 10. *)
Lemma dda_steps_not_rounded :
  let x1 := PyFloat (45 # 8) in
  let x2 := PyFloat (115 # 8) in
  let y := PyInt 0 in
  let rounded := py_round (py_max (py_abs (fl_sub x2 x1)) (py_abs (fl_sub y y))) in
  rounded = 9
  /\ length (dda_line x1 y x2 y STYLE_SOLID 1 0) = 9%nat
  /\ length (dda_line x1 y x2 y STYLE_SOLID 1 0) <> Z.to_nat (rounded + 1).
Proof. vm_compute. repeat split; congruence. Qed.

(** The emitted point is the rounding of the accumulated float, not of the
    exact value [x1 + i * dx / steps]: from (0,0) to (-120,-20) the exact
    ordinate of point 21 is -3.5, which would round to -4, while the
    accumulated sum lies just above it and the code plots (-21, -3). *)
Example dda_line_accumulates_rounding :
  map pc_point (dda_line (PyInt 0) (PyInt 0) (PyInt (-120)) (PyInt (-20)) STYLE_SOLID 1 0)
    !! 21%nat = Some (zpt (-21) (-3))
  /\ Qround_half_even (0 + 21 * (-20 # 120)) = -4.
Proof. vm_compute. split; reflexivity. Qed.

(** ** Endpoints of the three line rasterisers *)

Lemma py_round_float_int z : Z.abs z <= 2 ^ 53 -> py_round (py_float (PyInt z)) = z.
Proof.
  intros H. rewrite py_float_int by exact H. simpl.
  apply Qround_half_even_inject_Z.
Qed.

Lemma dda_loop_head style mask steps x_inc y_inc n i (x y : num) :
  head (map pc_point (dda_loop style mask steps x_inc y_inc (S n) i x y))
  = Some (PyInt (py_round x), PyInt (py_round y)).
Proof. reflexivity. Qed.

Lemma sym_back_loop_head style mask steps x_inc y_inc off n i (x y : num) :
  head (map pc_point (sym_back_loop style mask steps x_inc y_inc off (S n) i x y))
  = Some (PyInt (py_round x), PyInt (py_round y)).
Proof. reflexivity. Qed.

(** Within [2^20] of the origin the rounding errors of the accumulated
    sums stay far below one half: DDA starts at P1 and ends at P2. *)
Lemma dda_endpoints (x1 y1 x2 y2 style thickness mask : Z) :
  Z.abs x1 <= 2 ^ 20 -> Z.abs y1 <= 2 ^ 20 ->
  Z.abs x2 <= 2 ^ 20 -> Z.abs y2 <= 2 ^ 20 ->
  let out := map pc_point
               (dda_line (PyInt x1) (PyInt y1) (PyInt x2) (PyInt y2) style thickness mask) in
  head out = Some (zpt x1 y1) /\ last out = Some (zpt x2 y2).
Proof.
  intros Hx1 Hy1 Hx2 Hy2 out. subst out. unfold dda_line.
  rewrite dda_steps_int. set (steps := Z.max _ _).
  assert (Hpow : 2 ^ 20 = 1048576) by reflexivity.
  destruct (Z.eqb_spec steps 0) as [E|E].
  - assert (x2 = x1 /\ y2 = y1) as [-> ->] by lia. split; reflexivity.
  - assert (Hs : 0 < steps <= 2097152) by lia.
    destruct (Z.to_nat (steps + 1)) as [|n] eqn:En; [lia|].
    assert (Hn : n = Z.to_nat steps) by lia.
    split.
    + rewrite dda_loop_head, !py_round_float_int by lia. reflexivity.
    + rewrite dda_loop_map, seq_S, !map_app. simpl map. rewrite last_snoc.
      unfold pc_point, zpt. simpl pc_x. simpl pc_y. simpl fl_sub. simpl fl_div.
      rewrite !b64_int by lia. rewrite !iter_fl_add. simpl py_round.
      rewrite Hn, !dda_accumulator_reaches by lia. reflexivity.
Qed.

(** Symmetrical DDA starts its first pass at P1 and its second at P2;
    integers up to [2^53] survive the conversion to float. *)
Lemma symmetrical_dda_endpoints (x1 y1 x2 y2 style thickness mask : Z) :
  Z.abs x1 <= 2 ^ 53 -> Z.abs y1 <= 2 ^ 53 ->
  Z.abs x2 <= 2 ^ 53 -> Z.abs y2 <= 2 ^ 53 ->
  let out := map pc_point
               (symmetrical_dda_line (PyInt x1) (PyInt y1) (PyInt x2) (PyInt y2)
                  style thickness mask) in
  head out = Some (zpt x1 y1) /\ zpt x2 y2 ∈ out.
Proof.
  intros Hx1 Hy1 Hx2 Hy2 out. subst out. unfold symmetrical_dda_line.
  rewrite dda_steps_int. set (steps := Z.max _ _).
  destruct (Z.eqb_spec steps 0) as [E|E].
  - assert (x2 = x1 /\ y2 = y1) as [-> ->] by lia.
    split; [reflexivity | apply list_elem_of_here].
  - assert (Hs : 0 < steps) by lia.
    assert (H2 : 0 <= steps / 2 < steps).
    { clearbody steps. split; [apply Z.div_pos|apply Z.div_lt]; lia. }
    destruct (Z.to_nat (steps / 2 + 1)) as [|n1] eqn:E1; [lia|].
    destruct (Z.to_nat (steps - steps / 2)) as [|n2] eqn:E2; [lia|].
    rewrite map_app. split.
    + rewrite head_app, dda_loop_head, !py_round_float_int by assumption. reflexivity.
    + apply elem_of_app. right. apply head_Some_elem_of.
      rewrite sym_back_loop_head, !py_round_float_int by assumption. reflexivity.
Qed.

(** On integers the loop of [bresenham_line] plots, at iteration [k], the
    abscissa advanced [k] times and the ordinate of [bres_state]. *)
Lemma bresenham_loop_lookup style mask steep dx dy sx sy n : forall k i x y p,
  (k < n)%nat ->
  bresenham_loop style mask steep dx dy (PyInt sx) (PyInt sy) n i (PyInt x) (PyInt y) p
    !! k
  = Some (let yk := PyInt (bres_state dx dy sy k y p).1 in
          let xk := PyInt (x + Z.of_nat k * sx) in
          if steep then Plot yk xk style (i + Z.of_nat k) dx mask
          else Plot xk yk style (i + Z.of_nat k) dx mask).
Proof.
  induction n as [|n IH]; intros k i x y p Hk; [lia|].
  destruct k as [|k].
  - simpl. rewrite !Z.add_0_r. reflexivity.
  - simpl bresenham_loop. simpl bres_state.
    destruct (0 <=? p); simpl py_add; rewrite lookup_cons; rewrite IH by lia;
      rewrite Nat2Z.inj_succ;
      replace (x + sx + Z.of_nat k * sx) with (x + Z.succ (Z.of_nat k) * sx) by lia;
      replace (i + 1 + Z.of_nat k) with (i + Z.succ (Z.of_nat k)) by lia;
      reflexivity.
Qed.

Lemma bresenham_loop_length style mask steep dx dy sx sy n : forall i x y p,
  length (bresenham_loop style mask steep dx dy sx sy n i x y p) = n.
Proof.
  induction n as [|n IH]; intros i x y p; [reflexivity|].
  simpl. destruct (0 <=? p); rewrite IH; reflexivity.
Qed.

(** The decision variable stays in [[2dy - 2dx, 2dy)], and records how often
    the ordinate moved. *)
Lemma bres_state_inv dx dy sy (Hdx : 0 < dx) (Hdy : 0 <= dy <= dx) : forall k y p,
  2 * dy - 2 * dx <= p < 2 * dy ->
  exists m, bres_state dx dy sy k y p
            = (y + m * sy, p + 2 * dy * Z.of_nat k - 2 * dx * m)
            /\ 2 * dy - 2 * dx <= p + 2 * dy * Z.of_nat k - 2 * dx * m < 2 * dy.
Proof.
  induction k as [|k IH]; intros y p Hp.
  - exists 0. simpl. split; [f_equal|]; lia.
  - simpl bres_state. destruct (Z.leb_spec 0 p) as [H|H].
    + destruct (IH (y + sy) (p - 2 * dx + 2 * dy)) as (m & E & Hm); [lia|].
      exists (m + 1). rewrite E. split; [f_equal|]; lia.
    + destruct (IH y (p + 2 * dy)) as (m & E & Hm); [lia|].
      exists m. rewrite E. split; [f_equal|]; lia.
Qed.

(** After [dx] iterations the ordinate has moved exactly [dy] times. *)
Lemma bres_state_final dx dy sy y (Hdx : 0 < dx) (Hdy : 0 <= dy <= dx) :
  (bres_state dx dy sy (Z.to_nat dx) y (2 * dy - dx)).1 = y + dy * sy.
Proof.
  destruct (bres_state_inv dx dy sy Hdx Hdy (Z.to_nat dx) y (2 * dy - dx))
    as (m & E & Hm); [lia|].
  rewrite E. simpl. rewrite Z2Nat.id in Hm by lia.
  assert (m = dy) by nia. subst m. reflexivity.
Qed.

Lemma bresenham_endpoints (x1 y1 x2 y2 style thickness mask : Z) :
  let out := map pc_point
               (bresenham_line (PyInt x1) (PyInt y1) (PyInt x2) (PyInt y2)
                  style thickness mask) in
  head out = Some (zpt x1 y1) /\ last out = Some (zpt x2 y2).
Proof.
  intros out. subst out. unfold bresenham_line. simpl py_sub. simpl py_abs.
  unfold py_gt. rewrite py_lt_int.
  destruct (Z.ltb_spec (Z.abs (x2 - x1)) (Z.abs (y2 - y1))) as [Hsteep|Hflat];
    simpl py_sub; simpl py_abs; simpl py_int; rewrite !py_lt_int.
  - (* steep: the roles of x and y are exchanged *)
    set (dx := Z.abs (y2 - y1)). set (dy := Z.abs (x2 - x1)).
    set (sx := if y1 <? y2 then 1 else -1). set (sy := if x1 <? x2 then 1 else -1).
    replace (if y1 <? y2 then PyInt 1 else PyInt (-1)) with (PyInt sx)
      by (subst sx; destruct (y1 <? y2); reflexivity).
    replace (if x1 <? x2 then PyInt 1 else PyInt (-1)) with (PyInt sy)
      by (subst sy; destruct (x1 <? x2); reflexivity).
    split.
    + rewrite head_lookup, list_lookup_fmap, bresenham_loop_lookup by lia.
      simpl. unfold pc_point, zpt. simpl. repeat f_equal; lia.
    + rewrite last_lookup, length_map, bresenham_loop_length, list_lookup_fmap.
      rewrite bresenham_loop_lookup by lia.
      replace (Init.Nat.pred (Z.to_nat (dx + 1))) with (Z.to_nat dx) by lia.
      rewrite bres_state_final by lia. rewrite Z2Nat.id by lia.
      simpl. unfold pc_point, zpt. simpl.
      subst dx dy sx sy.
      destruct (Z.ltb_spec y1 y2), (Z.ltb_spec x1 x2); repeat f_equal; lia.
  - set (dx := Z.abs (x2 - x1)). set (dy := Z.abs (y2 - y1)).
    set (sx := if x1 <? x2 then 1 else -1). set (sy := if y1 <? y2 then 1 else -1).
    replace (if x1 <? x2 then PyInt 1 else PyInt (-1)) with (PyInt sx)
      by (subst sx; destruct (x1 <? x2); reflexivity).
    replace (if y1 <? y2 then PyInt 1 else PyInt (-1)) with (PyInt sy)
      by (subst sy; destruct (y1 <? y2); reflexivity).
    split.
    + rewrite head_lookup, list_lookup_fmap, bresenham_loop_lookup by lia.
      simpl. unfold pc_point, zpt. simpl. repeat f_equal; lia.
    + rewrite last_lookup, length_map, bresenham_loop_length, list_lookup_fmap.
      rewrite bresenham_loop_lookup by lia.
      replace (Init.Nat.pred (Z.to_nat (dx + 1))) with (Z.to_nat dx) by lia.
      destruct (Z.eq_dec dx 0) as [E0|E0].
      * (* a single point *)
        rewrite E0. simpl. unfold pc_point, zpt. simpl.
        subst dx dy. repeat f_equal; lia.
      * rewrite bres_state_final by lia. rewrite Z2Nat.id by lia.
        simpl. unfold pc_point, zpt. simpl.
        subst dx dy sx sy.
        destruct (Z.ltb_spec y1 y2), (Z.ltb_spec x1 x2); repeat f_equal; lia.
Qed.

(** C2 (amended). Bresenham, which computes on integers only, plots a
    sequence that starts at (x1, y1) and ends at (x2, y2) for all integer
    endpoints.  The two DDA variants compute on floats: Symmetrical DDA
    starts at (x1, y1) and contains (x2, y2) when the coordinates are at
    most [2^53] in magnitude, and DDA starts at (x1, y1) and ends at
    (x2, y2) when they are at most [2^20] in magnitude. *)
Theorem line_endpoints_included (x1 y1 x2 y2 style thickness mask : Z) :
  let pixels (alg : num -> num -> num -> num -> Z -> Z -> Z -> list plot_call) :=
    map pc_point (alg (PyInt x1) (PyInt y1) (PyInt x2) (PyInt y2) style thickness mask) in
  let within (b : Z) :=
    Z.abs x1 <= b /\ Z.abs y1 <= b /\ Z.abs x2 <= b /\ Z.abs y2 <= b in
  (zpt x1 y1 ∈ pixels bresenham_line /\ zpt x2 y2 ∈ pixels bresenham_line
   /\ head (pixels bresenham_line) = Some (zpt x1 y1)
   /\ last (pixels bresenham_line) = Some (zpt x2 y2))
  /\ (within (2 ^ 53) ->
      zpt x1 y1 ∈ pixels symmetrical_dda_line /\ zpt x2 y2 ∈ pixels symmetrical_dda_line
      /\ head (pixels symmetrical_dda_line) = Some (zpt x1 y1))
  /\ (within (2 ^ 20) ->
      zpt x1 y1 ∈ pixels dda_line /\ zpt x2 y2 ∈ pixels dda_line
      /\ head (pixels dda_line) = Some (zpt x1 y1)
      /\ last (pixels dda_line) = Some (zpt x2 y2)).
Proof.
  intros pixels within. subst pixels within. cbv beta.
  destruct (bresenham_endpoints x1 y1 x2 y2 style thickness mask) as [B1 B2].
  split; [|split].
  - repeat split; auto using head_Some_elem_of, last_Some_elem_of.
  - intros (H1 & H2 & H3 & H4).
    destruct (symmetrical_dda_endpoints x1 y1 x2 y2 style thickness mask H1 H2 H3 H4)
      as [S1 S2].
    repeat split; auto using head_Some_elem_of.
  - intros (H1 & H2 & H3 & H4).
    destruct (dda_endpoints x1 y1 x2 y2 style thickness mask H1 H2 H3 H4) as [D1 D2].
    repeat split; auto using head_Some_elem_of, last_Some_elem_of.
Qed.

Lemma line_endpoints_included_witness :
  zpt 3 (-4) ∈ map pc_point (dda_line (PyInt 3) (PyInt (-4)) (PyInt (-120)) (PyInt 17)
                               STYLE_SOLID 1 0)
  /\ last (map pc_point (dda_line (PyInt 3) (PyInt (-4)) (PyInt (-120)) (PyInt 17)
                           STYLE_SOLID 1 0)) = Some (zpt (-120) 17)
  /\ zpt (-120) 17 ∈ map pc_point (symmetrical_dda_line (PyInt 3) (PyInt (-4)) (PyInt (-120))
                                     (PyInt 17) STYLE_SOLID 1 0).
Proof.
  destruct (line_endpoints_included 3 (-4) (-120) 17 STYLE_SOLID 1 0) as (_ & HS & HD).
  destruct HS as (_ & S2 & _); [cbv; intuition discriminate|].
  destruct HD as (D1 & _ & _ & D4); [cbv; intuition discriminate|].
  exact (conj D1 (conj D4 S2)).
Defined.

(** C2, as stated, fails for the two DDA variants on integers that are not
    binary64 numbers: on the vertical line from (2^53 + 1, 0) to
    (2^53 + 1, 1) the conversion [float(x1)] gives [2^53], so both variants
    plot (2^53, 0) and (2^53, 1) and neither endpoint. *)
Lemma dda_misses_large_endpoints :
  let x := 2 ^ 53 + 1 in
  let pixels (alg : num -> num -> num -> num -> Z -> Z -> Z -> list plot_call) :=
    map pc_point (alg (PyInt x) (PyInt 0) (PyInt x) (PyInt 1) STYLE_SOLID 1 0) in
  pixels dda_line = [zpt (2 ^ 53) 0; zpt (2 ^ 53) 1]
  /\ pixels symmetrical_dda_line = [zpt (2 ^ 53) 0; zpt (2 ^ 53) 1]
  /\ zpt x 0 ∉ pixels dda_line /\ zpt x 1 ∉ pixels dda_line
  /\ zpt x 0 ∉ pixels symmetrical_dda_line /\ zpt x 1 ∉ pixels symmetrical_dda_line.
Proof.
  intros x pixels.
  assert (ED : pixels dda_line = [zpt (2 ^ 53) 0; zpt (2 ^ 53) 1])
    by (vm_compute; reflexivity).
  assert (ES : pixels symmetrical_dda_line = [zpt (2 ^ 53) 0; zpt (2 ^ 53) 1])
    by (vm_compute; reflexivity).
  rewrite ED, ES. repeat split;
    intros H; repeat (apply elem_of_cons in H; destruct H as [H|H]; [discriminate H|]);
    apply elem_of_nil in H; exact H.
Qed.

(** ** Transformation records *)

Ltac dict_unfold :=
  unfold additem, mulitem, negitem, scale_point, rotate_point, reflect_line_point, pass;
  unfold mbind, dictM_bind, mret, dictM_ret, getitem, setitem.

Section Records.
Context {trig : Trig}.

(** C7. Applying a Scale record multiplies the radius of a circle by [sx]
    alone, multiplies [rx] by [sx] and [ry] by [sy] for an ellipse, and
    scales both endpoints of a line relative to the fixed point, abscissae
    by [sx] and ordinates by [sy]; nothing else in the parameters changes. *)
Theorem scale_record_applied (sx sy fx fy : num) (d : gmap string num) :
  (forall r,
     apply_transformation "circle" (Scale sx sy fx fy) (<["r" := r]> d)
     = (Some tt, <["r" := py_mul r sx]> d))
  /\ (forall rx ry,
        apply_transformation "ellipse" (Scale sx sy fx fy)
          (<["rx" := rx]> (<["ry" := ry]> d))
        = (Some tt, <["rx" := py_mul rx sx]> (<["ry" := py_mul ry sy]> d)))
  /\ (forall x1 y1 x2 y2,
        apply_transformation "line" (Scale sx sy fx fy)
          (<["x1" := x1]> (<["y1" := y1]> (<["x2" := x2]> (<["y2" := y2]> d))))
        = (Some tt, <["x1" := scaled x1 fx sx]> (<["y1" := scaled y1 fy sy]>
                     (<["x2" := scaled x2 fx sx]> (<["y2" := scaled y2 fy sy]> d))))).
Proof.
  split; [|split].
  - intros r. simpl. dict_unfold. rewrite lookup_insert_eq, insert_insert_eq.
    reflexivity.
  - intros rx ry. simpl. dict_unfold.
    rewrite lookup_insert_eq, insert_insert_eq.
    rewrite lookup_insert_ne, lookup_insert_eq by done.
    f_equal. apply map_eq. intros k.
    destruct (decide (k = "ry")) as [->|?]; [|destruct (decide (k = "rx")) as [->|?]];
      simplify_map_eq; reflexivity.
  - intros x1 y1 x2 y2. simpl. dict_unfold.
    repeat (first [rewrite lookup_insert_eq | rewrite lookup_insert_ne by done]).
    f_equal. unfold scaled. apply map_eq. intros k.
    destruct (decide (k = "x1")) as [->|?]; [simplify_map_eq; reflexivity|].
    destruct (decide (k = "y1")) as [->|?]; [simplify_map_eq; reflexivity|].
    destruct (decide (k = "x2")) as [->|?]; [simplify_map_eq; reflexivity|].
    destruct (decide (k = "y2")) as [->|?]; simplify_map_eq; reflexivity.
Qed.

Lemma reflect_point_degenerate (px py p1x p1y p2x p2y : num) :
  py_eq p1x p2x = true -> py_eq p1y p2y = true ->
  reflect_point_across_line px py p1x p1y p2x p2y = (px, py).
Proof. intros H1 H2. unfold reflect_point_across_line. rewrite H1, H2. reflexivity. Qed.

Lemma has_key_Some d k : has_key d k = true -> exists v, d !! k = Some v.
Proof. unfold has_key. destruct (d !! k); [eauto | discriminate]. Qed.

Lemma reflect_line_point_degenerate kx ky (p1 p2 : num * num) d :
  py_eq p1.1 p2.1 = true -> py_eq p1.2 p2.2 = true ->
  has_key d kx = true -> has_key d ky = true ->
  reflect_line_point kx ky p1 p2 d = (Some tt, d).
Proof.
  intros H1 H2 [a Ha]%has_key_Some [b Hb]%has_key_Some.
  dict_unfold. rewrite Ha, Hb, reflect_point_degenerate by assumption.
  rewrite (insert_id d kx a Ha), (insert_id d ky b Hb). reflexivity.
Qed.

(** C9. When the two points of a [reflect_line] record coincide,
    [reflect_point_across_line] returns its point unchanged, and applying
    the record to the parameters of an object leaves them as they are,
    without an error. *)
Theorem degenerate_reflection_identity (p1 p2 : num * num) :
  py_eq p1.1 p2.1 = true -> py_eq p1.2 p2.2 = true ->
  (forall px py, reflect_point_across_line px py p1.1 p1.2 p2.1 p2.2 = (px, py))
  /\ (forall type d, well_formed_params type d = true ->
        apply_transformation type (ReflectLine p1 p2) d = (Some tt, d)).
Proof.
  intros H1 H2. split.
  - intros px py. apply reflect_point_degenerate; assumption.
  - intros type d Hwf. unfold well_formed_params in Hwf. simpl.
    destruct (String.eqb type "line").
    { apply andb_prop in Hwf as [Hwf K4]. apply andb_prop in Hwf as [Hwf K3].
      apply andb_prop in Hwf as [K1 K2].
      unfold mbind at 1, dictM_bind.
      rewrite !reflect_line_point_degenerate by assumption. reflexivity. }
    destruct (String.eqb type "circle").
    { apply andb_prop in Hwf as [Hwf K3]. apply andb_prop in Hwf as [K1 K2].
      simpl. apply reflect_line_point_degenerate; assumption. }
    destruct (String.eqb type "ellipse").
    { apply andb_prop in Hwf as [Hwf K4]. apply andb_prop in Hwf as [Hwf K3].
      apply andb_prop in Hwf as [K1 K2].
      simpl. apply reflect_line_point_degenerate; assumption. }
    reflexivity.
Qed.

End Records.

Lemma degenerate_reflection_identity_witness :
  let p1 := (PyInt 3, PyInt 4) in
  let p2 := (PyFloat 3, PyFloat (8 # 2)) in
  let d : gmap string num :=
    <["x1" := PyInt 0]> (<["y1" := PyInt 0]> (<["x2" := PyInt 10]> (<["y2" := PyInt 5]> ∅))) in
  (py_eq p1.1 p2.1 = true /\ py_eq p1.2 p2.2 = true /\ well_formed_params "line" d = true)
  /\ reflect_point_across_line (PyInt 7) (PyInt 1) p1.1 p1.2 p2.1 p2.2 = (PyInt 7, PyInt 1)
  /\ apply_transformation (trig := no_trig) "line" (ReflectLine p1 p2) d = (Some tt, d).
Proof.
  intros p1 p2 d.
  assert (H1 : py_eq p1.1 p2.1 = true) by reflexivity.
  assert (H2 : py_eq p1.2 p2.2 = true) by reflexivity.
  assert (H3 : well_formed_params "line" d = true) by reflexivity.
  split; [auto|].
  destruct (degenerate_reflection_identity (trig := no_trig) p1 p2 H1 H2) as [A B].
  split; [apply A | apply B; exact H3].
Defined.

(** ** Effective parameters and baking *)

Ltac heap_unfold :=
  unfold mbind, heapM_bind, mret, heapM_ret, read_obj, read_dict, read_list,
    alloc, write, on_dict, lift_option.

Lemma fresh_loc_None (h : gmap loc cell) : h !! fresh (dom h) = None.
Proof. apply not_elem_of_dom, is_fresh. Qed.

Lemma insert_fresh_subseteq (h : gmap loc cell) c : h ⊆ <[fresh (dom h) := c]> h.
Proof. apply insert_subseteq, fresh_loc_None. Qed.

Section Frame.
Context {trig : Trig}.

(** Whatever the heap holds, and whether or not an exception is raised,
    [apply_transformations] changes no object that exists when it is
    called. *)
Lemma apply_transformations_frame (obj : loc) (h : gmap loc cell) :
  h ⊆ (apply_transformations obj h).2.
Proof.
  unfold apply_transformations. heap_unfold.
  destruct (h !! obj) as [[| |o]|] eqn:Ho; simpl; try reflexivity.
  destruct (h !! obj_params o) as [[d| |]|] eqn:Hd; simpl; try reflexivity.
  pose proof (fresh_loc_None h) as Hf. set (r := fresh (dom h)) in *.
  destruct (decide (r = obj_transformations o)) as [Hr|Hr].
  { rewrite <- Hr, lookup_insert_eq. simpl. apply insert_subseteq, Hf. }
  rewrite lookup_insert_ne by exact Hr.
  destruct (h !! obj_transformations o) as [[|ts|]|] eqn:Ht; simpl;
    try (apply insert_subseteq, Hf).
  rewrite lookup_insert_eq.
  destruct (apply_transformation_list (obj_type o) ts d) as [[[]|] d']; simpl;
    rewrite insert_insert_eq; apply insert_subseteq, Hf.
Qed.

(** On a well-formed object the result is a new dictionary holding the
    folded parameters. *)
Lemma apply_transformations_spec h obj o d ts :
  h !! obj = Some (CObj o) ->
  h !! obj_params o = Some (CDict d) ->
  h !! obj_transformations o = Some (CList ts) ->
  apply_transformations obj h
  = (let '(res, d') := apply_transformation_list (obj_type o) ts d in
     (match res with Some _ => Some (fresh (dom h)) | None => None end,
      <[fresh (dom h) := CDict d']> h)).
Proof.
  intros Ho Hd Ht. unfold apply_transformations. heap_unfold.
  pose proof (fresh_loc_None h) as Hf.
  rewrite Ho, Hd. simpl.
  rewrite lookup_insert_ne by congruence. rewrite Ht.
  rewrite lookup_insert_eq.
  destruct (apply_transformation_list (obj_type o) ts d) as [[[]|] d']; simpl;
    rewrite insert_insert_eq; reflexivity.
Qed.

(** C6. Computing the effective parameters of an object leaves the object,
    its stored base parameters and its list of transformations as they were
    (as it leaves every object of the heap, also when it raises): the result
    is a new dictionary.  Baking, in contrast, makes the object refer to the
    effective parameters as its base parameters and to a new, empty list of
    transformations. *)
Theorem apply_transformations_preserves_base h obj o d ts :
  h !! obj = Some (CObj o) ->
  h !! obj_params o = Some (CDict d) ->
  h !! obj_transformations o = Some (CList ts) ->
  let '(res, h') := apply_transformations obj h in
  let '(ok, effective) := apply_transformation_list (obj_type o) ts d in
  (h' !! obj = Some (CObj o)
   /\ h' !! obj_params o = Some (CDict d)
   /\ h' !! obj_transformations o = Some (CList ts))
  /\ (forall obj0 h0, h0 ⊆ (apply_transformations obj0 h0).2)
  /\ (match res with
      | Some r => h !! r = None /\ h' !! r = Some (CDict effective) /\ ok = Some tt
      | None => ok = None
      end)
  /\ (match res with
      | Some r =>
          let '(_, h'') := bake_transformations obj h in
          exists empty_list,
            h'' !! obj = Some (CObj (Obj (obj_id o) (obj_type o) (obj_algo o)
                                      (obj_algorithm o) r (obj_color o) (obj_style o)
                                      (obj_thickness o) (obj_mask o) empty_list))
            /\ h'' !! r = Some (CDict effective)
            /\ h'' !! empty_list = Some (CList [])
      | None => True
      end).
Proof.
  intros Ho Hd Ht.
  pose proof (apply_transformations_frame obj h) as Hframe.
  pose proof (apply_transformations_spec h obj o d ts Ho Hd Ht) as Hspec.
  unfold bake_transformations. unfold mbind at 1, heapM_bind at 1.
  destruct (apply_transformations obj h) as [res h'] eqn:E. simpl in Hframe.
  destruct (apply_transformation_list (obj_type o) ts d) as [ok effective].
  injection Hspec as Hres Hh'.
  split.
  { split; [|split]; eapply lookup_weaken; eauto. }
  split; [intros obj0 h0; apply apply_transformations_frame|].
  pose proof (fresh_loc_None h) as Hf. set (r := fresh (dom h)) in *.
  destruct ok as [[]|]; subst res; [|split; reflexivity].
  split.
  { split; [exact Hf|]. split; [|reflexivity]. subst h'. apply lookup_insert_eq. }
  heap_unfold.
  assert (Hr : r <> obj) by congruence.
  assert (Ho' : h' !! obj = Some (CObj o)) by (eapply lookup_weaken; eauto).
  rewrite Ho'. simpl.
  set (h1 := <[obj := _]> h').
  pose proof (fresh_loc_None h1) as Hf1. set (l := fresh (dom h1)) in *.
  assert (Hl : l <> obj).
  { intros Hl. rewrite Hl in Hf1. subst h1. rewrite lookup_insert_eq in Hf1.
    discriminate. }
  rewrite lookup_insert_ne by exact Hl.
  assert (H1 : h1 !! obj = Some (CObj (Obj (obj_id o) (obj_type o) (obj_algo o)
            (obj_algorithm o) r (obj_color o) (obj_style o) (obj_thickness o)
            (obj_mask o) (obj_transformations o)))) by apply lookup_insert_eq.
  rewrite H1. simpl. exists l.
  assert (Hlr : l <> r).
  { intros Hlr. rewrite Hlr in Hf1. subst h1 h'.
    rewrite lookup_insert_ne, lookup_insert_eq in Hf1 by congruence. discriminate. }
  split; [apply lookup_insert_eq|].
  split.
  - rewrite lookup_insert_ne, lookup_insert_ne by congruence.
    subst h1 h'. rewrite lookup_insert_ne, lookup_insert_eq by congruence. reflexivity.
  - rewrite lookup_insert_ne, lookup_insert_eq by congruence. reflexivity.
Qed.

End Frame.

Lemma apply_transformations_preserves_base_witness :
  let d : gmap string num :=
    <["x1" := PyInt 0]> (<["y1" := PyInt 0]> (<["x2" := PyInt 10]> (<["y2" := PyInt 0]> ∅))) in
  let ts := [Translate (PyInt 5) (PyInt 5)] in
  let o := Obj 0 "line" f_dda_line "dda_line" 1%positive (0, 0, 1)%Q 1 1 0 2%positive in
  let h : gmap loc cell :=
    <[3%positive := CObj o]> (<[2%positive := CList ts]> (<[1%positive := CDict d]> ∅)) in
  (h !! 3%positive = Some (CObj o)
   /\ h !! 1%positive = Some (CDict d)
   /\ h !! 2%positive = Some (CList ts))
  /\ (apply_transformations (trig := no_trig) 3%positive h).2 !! 1%positive
     = Some (CDict d).
Proof.
  intros d ts o h.
  assert (H1 : h !! 3%positive = Some (CObj o)) by reflexivity.
  assert (H2 : h !! obj_params o = Some (CDict d)) by reflexivity.
  assert (H3 : h !! obj_transformations o = Some (CList ts)) by reflexivity.
  split; [auto|].
  pose proof (apply_transformations_preserves_base (trig := no_trig)
                h 3%positive o d ts H1 H2 H3) as T.
  destruct (apply_transformations 3%positive h) as [res h'].
  destruct (apply_transformation_list (obj_type o) ts d) as [ok effective].
  destruct T as [[_ [T _]] _]. exact T.
Defined.

Example bake_example :
  let d : gmap string num :=
    <["x1" := PyInt 0]> (<["y1" := PyInt 0]> (<["x2" := PyInt 10]> (<["y2" := PyInt 0]> ∅))) in
  let o := Obj 0 "line" f_dda_line "dda_line" 1%positive (0, 0, 1)%Q 1 1 0 2%positive in
  let h : gmap loc cell :=
    <[3%positive := CObj o]>
      (<[2%positive := CList [Translate (PyInt 5) (PyInt 5)]]> (<[1%positive := CDict d]> ∅)) in
  let h' := (bake_transformations (trig := no_trig) 3%positive h).2 in
  h' !! 3%positive
  = Some (CObj (Obj 0 "line" f_dda_line "dda_line" 4%positive (0, 0, 1)%Q 1 1 0 5%positive))
  /\ h' !! 4%positive
     = Some (CDict (<["x1" := PyInt 5]> (<["y1" := PyInt 5]>
                      (<["x2" := PyInt 15]> (<["y2" := PyInt 5]> ∅)))))
  /\ h' !! 5%positive = Some (CList [])
  /\ h' !! 1%positive = Some (CDict d).
Proof. vm_compute. repeat split; reflexivity. Qed.

(** ** Thick circles and ellipses *)

Lemma concat_map_if {A B} (P : A -> bool) (f : A -> B) (l : list A) :
  concat (map (fun a => if P a then [f a] else []) l) = map f (List.filter P l).
Proof.
  induction l as [|a l IH]; [reflexivity|].
  simpl. destruct (P a); simpl; rewrite IH; reflexivity.
Qed.

Lemma filter_length_le {A} (P : A -> bool) (l : list A) :
  (length (List.filter P l) <= length l)%nat.
Proof.
  induction l as [|a l IH]; simpl; [lia|]. destruct (P a); simpl; lia.
Qed.

Ltac push_inject_Z :=
  unfold Z.sub;
  repeat first [rewrite inject_Z_plus | rewrite inject_Z_opp | rewrite inject_Z_mult];
  change (inject_Z 2) with 2%Q; change (inject_Z 1) with 1%Q.

Lemma Zabs_le_Qle z b : Z.abs z <= b -> (- inject_Z b <= inject_Z z <= inject_Z b)%Q.
Proof.
  intros H. rewrite <- inject_Z_opp, <- !Zle_Qle. lia.
Qed.

(** For an integer radius and a thickness of ordinary size every step of
    [r + (i - (thickness - 1) / 2.0)] is exact: the operands are integers
    or half-integers far below [2^53]. *)
Lemma thick_offset_int (a thickness i : Z) :
  Z.abs a <= 2 ^ 50 -> 0 <= thickness <= 2 ^ 50 -> 0 <= i < thickness ->
  (num_val (thick_offset (PyInt a) thickness i)
   == inject_Z a + (inject_Z i - (inject_Z thickness - 1) / 2))%Q.
Proof.
  intros Ha Ht Hi. unfold thick_offset, fl_div, fl_sub, fl_add, fval, py_float.
  cbn [num_val].
  assert (P53 : 2 ^ 53 = 8 * 2 ^ 50) by reflexivity.
  rewrite !b64_int by lia.
  assert (E1 : (b64 (inject_Z (thickness - 1) / 2) == inject_Z (thickness - 1) / 2)%Q)
    by (apply b64_half; lia).
  set (h := b64 (inject_Z (thickness - 1) / 2)) in *.
  assert (E2 : (inject_Z i - h == inject_Z (2 * i - (thickness - 1)) / 2)%Q).
  { rewrite E1. push_inject_Z. field. }
  rewrite (b64_comp _ _ E2).
  assert (E3 : (b64 (inject_Z (2 * i - (thickness - 1)) / 2)
                == inject_Z (2 * i - (thickness - 1)) / 2)%Q) by (apply b64_half; lia).
  set (w := b64 (inject_Z (2 * i - (thickness - 1)) / 2)) in *.
  assert (E4 : (inject_Z a + w == inject_Z (2 * a + 2 * i - (thickness - 1)) / 2)%Q).
  { rewrite E3. push_inject_Z. field. }
  rewrite (b64_comp _ _ E4), b64_half by lia.
  push_inject_Z. field.
Qed.

Lemma Qtrunc_ge_1 q : (1 <= q)%Q <-> 1 <= Qtrunc q.
Proof.
  split.
  - intros H. rewrite Qtrunc_nonneg by lra.
    change 1 with (Qfloor 1). apply Qfloor_resp_le. exact H.
  - intros H. destruct (Qlt_le_dec q 1) as [Hq|Hq]; [exfalso|exact Hq].
    destruct (Qlt_le_dec q 0) as [Hn|Hn].
    + rewrite Qtrunc_nonpos in H by lra.
      assert (0 <= Qfloor (- q)); [|lia].
      change 0 with (Qfloor 0). apply Qfloor_resp_le. lra.
    + rewrite Qtrunc_nonneg in H by lra.
      pose proof (Qfloor_le q) as Hf.
      assert (H1 : (inject_Z 1 <= inject_Z (Qfloor q))%Q) by (rewrite <- Zle_Qle; exact H).
      change (inject_Z 1) with 1%Q in H1.
      apply (Qlt_irrefl 1). eapply Qle_lt_trans; [exact H1|].
      eapply Qle_lt_trans; [exact Hf | exact Hq].
Qed.

(** A candidate passes the guard exactly when the radius drawn for it, cut
    to an integer, is positive. *)
Lemma thick_guard_spec a : py_ge a (PyInt 1) = (1 <=? py_int a).
Proof.
  unfold py_ge. rewrite py_int_val. apply eq_true_iff_eq.
  rewrite py_le_spec, Z.leb_le. apply (Qtrunc_ge_1 (num_val a)).
Qed.

(** C5 (amended). Thick rendering of a circle or an ellipse goes through
    the candidates [i = 0 .. t - 1]; the radius of candidate [i] is the
    float that [r + (i - (t - 1) / 2.0)] evaluates to, which for an integer
    [r] and ordinary sizes is exactly [r + (i - (t - 1)/2)]; a candidate is
    drawn, as a solid shape of line width 1 whose radii are cut to
    integers, exactly when its radius (both radii, for an ellipse) is at
    least 1, that is when the integer radius is positive; at most [t]
    shapes are drawn. *)
Theorem thick_concentric_shapes (c : canvas) (d : gmap string num)
    (xc yc r rx ry : num) (t mask : Z) (color : Q * Q * Q) :
  draw_thick_object c (<["xc" := xc]> (<["yc" := yc]> (<["r" := r]> d)))
    "circle" t mask color
  = Some ([glLineWidth (PyInt t)] ++ thick_circle_shapes xc yc r t mask
          ++ [glLineWidth (PyFloat 1)])
  /\ draw_thick_object c (<["xc" := xc]> (<["yc" := yc]> (<["rx" := rx]> (<["ry" := ry]> d))))
       "ellipse" t mask color
     = Some ([glLineWidth (PyInt t)] ++ thick_ellipse_shapes xc yc rx ry t mask
             ++ [glLineWidth (PyFloat 1)])
  /\ (forall a i,
        thick_offset a t i
        = fl_add a (fl_sub (PyInt i) (fl_div (PyInt (t - 1)) (PyFloat 2))))
  /\ (forall a i : Z,
        Z.abs a <= 2 ^ 50 -> t <= 2 ^ 50 -> 0 <= i < t ->
        (num_val (thick_offset (PyInt a) t i)
         == inject_Z a + (inject_Z i - (inject_Z t - 1) / 2))%Q)
  /\ (forall a i, py_ge (thick_offset a t i) (PyInt 1) = (1 <=? py_int (thick_offset a t i)))
  /\ (length (thick_circle_shapes xc yc r t mask) <= Z.to_nat t)%nat
  /\ (length (thick_ellipse_shapes xc yc rx ry t mask) <= Z.to_nat t)%nat.
Proof.
  split; [|split; [|split; [|split; [|split; [|split]]]]].
  - set (e := <["xc" := xc]> _).
    assert (E1 : e !! "xc" = Some xc) by (subst e; simplify_map_eq; done).
    assert (E2 : e !! "yc" = Some yc) by (subst e; simplify_map_eq; done).
    assert (E3 : e !! "r" = Some r) by (subst e; simplify_map_eq; done).
    unfold draw_thick_object. simpl String.eqb. cbv iota.
    rewrite E1, E2, E3. simpl.
    unfold thick_circle_body. rewrite concat_map_if. reflexivity.
  - set (e := <["xc" := xc]> _).
    assert (E1 : e !! "xc" = Some xc) by (subst e; simplify_map_eq; done).
    assert (E2 : e !! "yc" = Some yc) by (subst e; simplify_map_eq; done).
    assert (E3 : e !! "rx" = Some rx) by (subst e; simplify_map_eq; done).
    assert (E4 : e !! "ry" = Some ry) by (subst e; simplify_map_eq; done).
    unfold draw_thick_object. simpl String.eqb. cbv iota.
    rewrite E1, E2, E3, E4. simpl.
    unfold thick_ellipse_body. rewrite concat_map_if. reflexivity.
  - reflexivity.
  - intros a i Ha Ht Hi. apply thick_offset_int; lia.
  - intros a i. apply thick_guard_spec.
  - unfold thick_circle_shapes. rewrite length_map.
    etransitivity; [apply filter_length_le|]. rewrite length_seqZ. lia.
  - unfold thick_ellipse_shapes. rewrite length_map.
    etransitivity; [apply filter_length_le|]. rewrite length_seqZ. lia.
Qed.

Lemma thick_concentric_shapes_witness :
  (num_val (thick_offset (PyInt 100) 5 0) == 98)%Q
  /\ draw_thick_object (update_canvas_dimensions 1000 700)
       (<["xc" := PyInt 0]> (<["yc" := PyInt 0]> (<["r" := PyInt 100]> ∅))) "circle" 5 0
       (0, 0, 1)%Q
     = Some ([glLineWidth (PyInt 5)]
             ++ thick_circle_shapes (PyInt 0) (PyInt 0) (PyInt 100) 5 0
             ++ [glLineWidth (PyFloat 1)]).
Proof.
  destruct (thick_concentric_shapes (update_canvas_dimensions 1000 700) ∅
              (PyInt 0) (PyInt 0) (PyInt 100) (PyInt 1) (PyInt 1) 5 0 (0, 0, 1)%Q)
    as (H1 & _ & _ & H4 & _).
  split; [|exact H1].
  rewrite (H4 100 0) by (cbv; intuition discriminate). reflexivity.
Defined.

(** C5, as stated, fails for a circle of radius 1 drawn with thickness 2:
    the candidate radii 0.5 and 1.5 are both positive, yet only one circle is
    drawn, and its radius is 1. *)
Lemma thick_circle_not_all_positive_radii :
  let d : gmap string num := <["xc" := PyInt 0]> (<["yc" := PyInt 0]> (<["r" := PyInt 1]> ∅)) in
  claimed_thick_radii (PyInt 1) 2 = [PyFloat (1 # 2); PyFloat (3 # 2)]
  /\ draw_thick_object (update_canvas_dimensions 1000 700) d "circle" 2 0 (0, 0, 1)%Q
     = Some [glLineWidth (PyInt 2); call_draw_circle (PyInt 0) (PyInt 0) 1 STYLE_SOLID 1 0;
             glLineWidth (PyFloat 1)]
  /\ (circle_radii <$> draw_thick_object (update_canvas_dimensions 1000 700) d "circle" 2 0
                         (0, 0, 1)%Q)
     <> Some (claimed_thick_radii (PyInt 1) 2).
Proof. vm_compute. repeat split; congruence. Qed.

(** The radii are floats: for the radius 254.99999999999997, which is what
    [100 * 2.55] evaluates to, and thickness 5 the sum for [i = 4] rounds up
    to 257.0, so the circles drawn have the radii 252, 253, 254, 255 and
    257, where exact arithmetic would give 252 to 256. *)
Example thick_circle_rounded_radii :
  let r := PyFloat (8972014882652159 # 35184372088832) in
  let d : gmap string num := <["xc" := PyInt 0]> (<["yc" := PyInt 0]> (<["r" := r]> ∅)) in
  circle_radii <$> draw_thick_object (update_canvas_dimensions 1000 700) d "circle" 5 0
                     (0, 0, 1)%Q
  = Some [PyInt 252; PyInt 253; PyInt 254; PyInt 255; PyInt 257]
  /\ Qtrunc (num_val r + (4 - (5 - 1) / 2)) = 256.
Proof. vm_compute. split; reflexivity. Qed.

(** ** Hit test of a line *)

#[global] Instance Qsqrt_comp : Proper (Qeq ==> eq) Qsqrt.
Proof.
  intros p q H. unfold Qsqrt. do 3 f_equal. apply Qfloor_comp. rewrite H. reflexivity.
Qed.

Lemma num_val_sq a : (num_val (py_sq a) == num_val a * num_val a)%Q.
Proof. apply num_val_mul. Qed.

Lemma num_val_min a b : (num_val (py_min a b) == Qmin (num_val a) (num_val b))%Q.
Proof.
  unfold py_min. destruct (py_lt b a) eqn:E.
  - apply py_lt_spec in E. rewrite Q.min_r by lra. reflexivity.
  - apply py_lt_false in E. rewrite Q.min_l by lra. reflexivity.
Qed.

(** The parameter of the foot of the perpendicular is clamped to the
    segment. *)
Lemma clamp_unit_range v :
  (0 <= num_val (py_max (PyFloat 0) (py_min (PyFloat 1) v)) <= 1)%Q.
Proof.
  rewrite num_val_max, num_val_min. cbn [num_val].
  split.
  - apply Q.le_max_l.
  - apply Q.max_lub; [lra | apply Q.le_min_l].
Qed.

Lemma euclid_nonneg x y a b : (0 <= num_val (euclid x y a b))%Q.
Proof. unfold euclid, fl_sqrt. cbn [num_val]. apply b64_sqrt_nonneg. Qed.

(** The distance of the line branch, by cases on the guard of the code:
    to P1 when the segment has length 0, and otherwise to the point of
    parameter [t] of the segment, [t] being the clamped quotient. *)
Lemma dist_to_line_segment_cases lx ly x1 y1 x2 y2 :
  let line_dx := fl_sub x2 x1 in
  let line_dy := fl_sub y2 y1 in
  let length_sq := fl_add (fl_sq line_dx) (fl_sq line_dy) in
  let t := py_max (PyFloat 0) (py_min (PyFloat 1)
             (fl_div (fl_add (fl_mul (fl_sub lx x1) line_dx) (fl_mul (fl_sub ly y1) line_dy))
                length_sq)) in
  dist_to_line_segment lx ly (x1, y1) (x2, y2)
  = if py_eq length_sq (PyInt 0) then euclid lx ly x1 y1
    else euclid lx ly (fl_add x1 (fl_mul t line_dx)) (fl_add y1 (fl_mul t line_dy)).
Proof. reflexivity. Qed.

Lemma Qsq_nonneg x : (0 <= x * x)%Q.
Proof.
  destruct (Qlt_le_dec x 0).
  - setoid_replace (x * x)%Q with ((- x) * (- x))%Q using relation Qeq by ring.
    apply Qmult_le_0_compat; lra.
  - apply Qmult_le_0_compat; lra.
Qed.

Lemma Qsq_zero x : (x * x == 0)%Q -> (x == 0)%Q.
Proof. intros H. destruct (Qmult_integral _ _ H); assumption. Qed.

(** No point of the segment is closer than the clamped foot. *)
Lemma segment_sq_dist_minimal px py ax ay bx b_y s :
  (0 <= s)%Q -> (s <= 1)%Q ->
  (segment_sq_dist px py ax ay bx b_y
   <= sq_dist px py (ax + s * (bx - ax)) (ay + s * (b_y - ay)))%Q.
Proof.
  intros Hs0 Hs1. unfold segment_sq_dist.
  set (dx := (bx - ax)%Q). set (dy := (b_y - ay)%Q).
  set (wx := (px - ax)%Q). set (wy := (py - ay)%Q).
  destruct (Qeq_bool (dx * dx + dy * dy) 0) eqn:E.
  - apply Qeq_bool_iff in E.
    pose proof (Qsq_nonneg dx) as Sx. pose proof (Qsq_nonneg dy) as Sy.
    assert (Hdx : (dx == 0)%Q) by (apply Qsq_zero; lra).
    assert (Hdy : (dy == 0)%Q) by (apply Qsq_zero; lra).
    unfold sq_dist. rewrite Hdx, Hdy. apply Qle_lteq. right. ring.
  - apply Qeq_bool_neq in E.
    set (L := (dx * dx + dy * dy)%Q) in *.
    assert (HL : (0 < L)%Q).
    { pose proof (Qsq_nonneg dx) as Sx. pose proof (Qsq_nonneg dy) as Sy.
      apply Qle_lteq in Sx, Sy. subst L.
      destruct Sx as [Sx|Sx], Sy as [Sy|Sy]; lra. }
    set (u := ((wx * dx + wy * dy) / L)%Q).
    assert (Hu : (u * L == wx * dx + wy * dy)%Q) by (subst u; field; exact E).
    unfold sq_dist.
    assert (key : forall t, ((t == u /\ True) \/ (t == 0 /\ u <= 0) \/ (t == 1 /\ 1 <= u))%Q ->
      ((px - (ax + t * dx)) * (px - (ax + t * dx)) + (py - (ay + t * dy)) * (py - (ay + t * dy))
       <= (px - (ax + s * dx)) * (px - (ax + s * dx)) + (py - (ay + s * dy)) * (py - (ay + s * dy)))%Q).
    { intros t Ht.
      assert (D : ((px - (ax + s * dx)) * (px - (ax + s * dx))
                   + (py - (ay + s * dy)) * (py - (ay + s * dy))
                   - ((px - (ax + t * dx)) * (px - (ax + t * dx))
                      + (py - (ay + t * dy)) * (py - (ay + t * dy)))
                   == L * (s - t) * (s + t - 2 * u))%Q).
      { subst wx wy L. 
        transitivity ((s - t) * ((s + t) * (dx * dx + dy * dy) - 2 * (u * (dx * dx + dy * dy))))%Q;
          [rewrite Hu|]; ring. }
      assert (P : (0 <= L * (s - t) * (s + t - 2 * u))%Q).
      { destruct Ht as [[Ht _]|[[Ht Hu0]|[Ht Hu1]]]; rewrite Ht.
        - setoid_replace (L * (s - u) * (s + u - 2 * u))%Q with (L * ((s - u) * (s - u)))%Q using relation Qeq by ring.
          apply Qmult_le_0_compat; [lra | apply Qsq_nonneg].
        - setoid_replace (L * (s - 0) * (s + 0 - 2 * u))%Q with (L * (s * (s - 2 * u)))%Q using relation Qeq by ring.
          apply Qmult_le_0_compat; [lra|]. apply Qmult_le_0_compat; lra.
        - setoid_replace (L * (s - 1) * (s + 1 - 2 * u))%Q with (L * ((1 - s) * (2 * u - s - 1)))%Q using relation Qeq by ring.
          apply Qmult_le_0_compat; [lra|]. apply Qmult_le_0_compat; lra. }
      lra. }
    apply key. unfold Qclamp01. fold u.
    destruct (Q.min_spec 1 u) as [[H1 E1]|[H1 E1]];
      destruct (Q.max_spec 0 (Qmin 1 u)) as [[H2 E2]|[H2 E2]].
    + right. right. split; [rewrite E2, E1; reflexivity | lra].
    + exfalso. lra.
    + left. split; [rewrite E2, E1; reflexivity | exact I].
    + right. left. split; [exact E2 | lra].
Qed.

Section HitTest.
Context {trig : Trig}.

(** One iteration of the selection loop on a well-formed object: the
    running minimum is replaced when the key of the object is strictly
    smaller. *)
Lemma select_loop_cons lx ly h obj o d ts eff key rest m c :
  h !! obj = Some (CObj o) ->
  h !! obj_params o = Some (CDict d) ->
  h !! obj_transformations o = Some (CList ts) ->
  apply_transformation_list (obj_type o) ts d = (Some tt, eff) ->
  hit_distance lx ly (obj_type o) (obj_thickness o) eff = Some key ->
  select_loop lx ly (obj :: rest) m c h
  = select_loop lx ly rest (if ext_lt key m then key else m)
      (if ext_lt key m then obj_id o else c) (<[fresh (dom h) := CDict eff]> h).
Proof.
  intros Ho Hd Ht Hts Hkey. simpl select_loop.
  unfold mbind at 1, heapM_bind at 1.
  rewrite (apply_transformations_spec h obj o d ts Ho Hd Ht), Hts.
  pose proof (fresh_loc_None h) as Hf. set (r := fresh (dom h)) in *.
  heap_unfold. rewrite lookup_insert_eq.
  rewrite lookup_insert_ne by congruence. rewrite Ho, Hkey.
  destruct (ext_lt key m); reflexivity.
Qed.

Lemma line_hit_distance lx ly t eff x1 y1 x2 y2 :
  eff !! "x1" = Some x1 -> eff !! "y1" = Some y1 ->
  eff !! "x2" = Some x2 -> eff !! "y2" = Some y2 ->
  hit_distance lx ly "line" t eff
  = Some (line_hit_key (dist_to_line_segment lx ly (x1, y1) (x2, y2))
            (fl_div (PyInt (t - 1)) (PyFloat 2))).
Proof.
  intros E1 E2 E3 E4. unfold hit_distance. simpl String.eqb. cbv iota.
  rewrite E1, E2, E3, E4. simpl. unfold line_hit_key, base_selection_pixel_tolerance.
  destruct (py_le _ _); reflexivity.
Qed.

(** C4 (amended). For a line object of thickness [t], with
    [h = (t - 1) / 2.0]: the distance used is the float that the code
    computes for the distance from the click to the point of the segment
    whose parameter is the clamped quotient (to P1 for a segment of length
    0); the object is hit exactly when this computed distance is at most the
    computed [h + 10]; the key of a hit is [|distance - h|], and in the
    selection loop an object replaces the closest so far exactly when its
    key is strictly smaller.  For the line from (0,0) to (10,0) of thickness
    3, the click (5,2) selects the line and the click (5,25) selects
    nothing. *)
Theorem line_hit_test lx ly h obj o d ts eff x1 y1 x2 y2 :
  h !! obj = Some (CObj o) ->
  h !! obj_params o = Some (CDict d) ->
  h !! obj_transformations o = Some (CList ts) ->
  obj_type o = "line" ->
  apply_transformation_list "line" ts d = (Some tt, eff) ->
  eff !! "x1" = Some x1 -> eff !! "y1" = Some y1 ->
  eff !! "x2" = Some x2 -> eff !! "y2" = Some y2 ->
  let half := fl_div (PyInt (obj_thickness o - 1)) (PyFloat 2) in
  let dist := dist_to_line_segment lx ly (x1, y1) (x2, y2) in
  let line_dx := fl_sub x2 x1 in
  let line_dy := fl_sub y2 y1 in
  let length_sq := fl_add (fl_sq line_dx) (fl_sq line_dy) in
  let t := py_max (PyFloat 0) (py_min (PyFloat 1)
             (fl_div (fl_add (fl_mul (fl_sub lx x1) line_dx) (fl_mul (fl_sub ly y1) line_dy))
                length_sq)) in
  let key := if py_le dist (fl_add half (PyInt 10))
             then Finite (py_abs (fl_sub dist half)) else Infinity in
  (Z.abs (obj_thickness o - 1) <= 2 ^ 53 ->
   (num_val half == (inject_Z (obj_thickness o) - 1) / 2)%Q)
  /\ (0 <= num_val t <= 1)%Q
  /\ dist = (if py_eq length_sq (PyInt 0) then euclid lx ly x1 y1
             else euclid lx ly (fl_add x1 (fl_mul t line_dx)) (fl_add y1 (fl_mul t line_dy)))
  /\ (0 <= num_val dist)%Q
  /\ (py_le dist (fl_add half (PyInt 10)) = true
      <-> (num_val dist <= num_val (fl_add half (PyInt 10)))%Q)
  /\ hit_distance lx ly "line" (obj_thickness o) eff = Some key
  /\ (select_loop lx ly [obj] Infinity (-1) h).1
     = Some (if py_le dist (fl_add half (PyInt 10)) then (key, obj_id o)
             else (Infinity, -1))
  /\ (forall rest m c,
        select_loop lx ly (obj :: rest) m c h
        = select_loop lx ly rest (if ext_lt key m then key else m)
            (if ext_lt key m then obj_id o else c) (<[fresh (dom h) := CDict eff]> h))
  /\ (selected_object_id <$> select_at (PyInt 5) (PyInt 2) thick_line_scene = Some 0
      /\ selected_object_id <$> select_at (PyInt 5) (PyInt 25) thick_line_scene = Some (-1)).
Proof.
  intros Ho Hd Ht Hty Hts E1 E2 E3 E4 half dist line_dx line_dy length_sq t key.
  assert (Hkey : hit_distance lx ly (obj_type o) (obj_thickness o) eff = Some key).
  { rewrite Hty. apply line_hit_distance; assumption. }
  rewrite <- Hty in Hts.
  split.
  { intros Hb. subst half. unfold fl_div, fval, py_float. cbn [num_val].
    rewrite b64_int, b64_half by exact Hb. push_inject_Z. reflexivity. }
  split; [apply clamp_unit_range|].
  split; [apply dist_to_line_segment_cases|].
  split.
  { subst dist. rewrite dist_to_line_segment_cases. cbv zeta.
    destruct (py_eq _ _); apply euclid_nonneg. }
  split; [apply py_le_spec|].
  split; [rewrite <- Hty; exact Hkey|].
  split.
  { rewrite (select_loop_cons lx ly h obj o d ts eff key [] Infinity (-1) Ho Hd Ht Hts Hkey).
    subst key. simpl. destruct (py_le dist _); reflexivity. }
  split.
  { intros rest m c. apply (select_loop_cons lx ly h obj o d ts eff key); assumption. }
  vm_compute. split; reflexivity.
Qed.

End HitTest.

Lemma line_hit_test_witness :
  let s := thick_line_scene in
  let d : gmap string num :=
    <["x1" := PyInt 0]> (<["y1" := PyInt 0]> (<["x2" := PyInt 10]> (<["y2" := PyInt 0]> ∅))) in
  let o := Obj 0 "line" f_dda_line "dda_line" 1%positive (0, 0, 1)%Q STYLE_THICK 3 0
             2%positive in
  (heap s !! 3%positive = Some (CObj o)
   /\ heap s !! obj_params o = Some (CDict d)
   /\ heap s !! obj_transformations o = Some (CList [])
   /\ obj_type o = "line"
   /\ apply_transformation_list (trig := no_trig) "line" [] d = (Some tt, d)
   /\ d !! "x1" = Some (PyInt 0) /\ d !! "y1" = Some (PyInt 0)
   /\ d !! "x2" = Some (PyInt 10) /\ d !! "y2" = Some (PyInt 0))
  /\ hit_distance (PyInt 5) (PyInt 2) "line" 3 d = Some (Finite (PyFloat 1))
  /\ hit_distance (PyInt 5) (PyInt 25) "line" 3 d = Some Infinity.
Proof.
  intros s d o.
  assert (H1 : heap s !! 3%positive = Some (CObj o)) by reflexivity.
  assert (H2 : heap s !! obj_params o = Some (CDict d)) by reflexivity.
  assert (H3 : heap s !! obj_transformations o = Some (CList [])) by reflexivity.
  assert (H4 : obj_type o = "line") by reflexivity.
  assert (H5 : apply_transformation_list (trig := no_trig) "line" [] d = (Some tt, d))
    by reflexivity.
  assert (K1 : d !! "x1" = Some (PyInt 0)) by reflexivity.
  assert (K2 : d !! "y1" = Some (PyInt 0)) by reflexivity.
  assert (K3 : d !! "x2" = Some (PyInt 10)) by reflexivity.
  assert (K4 : d !! "y2" = Some (PyInt 0)) by reflexivity.
  split; [repeat split; assumption|].
  split.
  - destruct (line_hit_test (trig := no_trig) (PyInt 5) (PyInt 2) (heap s) 3%positive o d []
                d (PyInt 0) (PyInt 0) (PyInt 10) (PyInt 0) H1 H2 H3 H4 H5 K1 K2 K3 K4)
      as (_ & _ & _ & _ & _ & T & _).
    refine (eq_trans T _). vm_compute. reflexivity.
  - destruct (line_hit_test (trig := no_trig) (PyInt 5) (PyInt 25) (heap s) 3%positive o d []
                d (PyInt 0) (PyInt 0) (PyInt 10) (PyInt 0) H1 H2 H3 H4 H5 K1 K2 K3 K4)
      as (_ & _ & _ & _ & _ & T & _).
    refine (eq_trans T _). vm_compute. reflexivity.
Defined.

(** C4, as stated, fails where the computed distance differs from the
    distance: for the line from (0,10) to (60,90) of thickness 5 and the
    click (60,70) the closest point of the segment is (50.4, 77.2), at
    distance exactly 12 = h + 10, a hit by the statement; the code computes
    the distance 12.000000000000002 and reports no hit. *)
Lemma line_hit_rounding_miss :
  let d : gmap string num :=
    <["x1" := PyInt 0]> (<["y1" := PyInt 10]> (<["x2" := PyInt 60]> (<["y2" := PyInt 90]> ∅))) in
  (segment_sq_dist 60 70 0 10 60 90 == 12 * 12)%Q
  /\ (12 <= (5 - 1) / 2 + 10)%Q
  /\ dist_to_line_segment (PyInt 60) (PyInt 70) (PyInt 0, PyInt 10) (PyInt 60, PyInt 90)
     = PyFloat (6755399441055745 # 562949953421312)
  /\ (12 < 6755399441055745 # 562949953421312)%Q
  /\ hit_distance (PyInt 60) (PyInt 70) "line" 5 d = Some Infinity.
Proof.
  intros d. split; [vm_compute; reflexivity|].
  split; [vm_compute; discriminate|].
  split; [vm_compute; reflexivity|].
  split; [vm_compute; reflexivity|].
  vm_compute. reflexivity.
Qed.

(** ** The store during a session *)

Lemma heap_extends_refl h : heap_extends h h.
Proof. intros l. destruct (h !! l) as [[]|]; eauto. Qed.

Lemma heap_extends_trans h1 h2 h3 :
  heap_extends h1 h2 -> heap_extends h2 h3 -> heap_extends h1 h3.
Proof.
  intros H12 H23 l. specialize (H12 l). specialize (H23 l).
  destruct (h1 !! l) as [[d|ts|o]|]; [| |..]; try exact I.
  - rewrite H12 in H23. exact H23.
  - destruct H12 as [ts' E]. rewrite E in H23. exact H23.
  - rewrite H12 in H23. exact H23.
Qed.

Lemma subseteq_heap_extends (h h' : gmap loc cell) : h ⊆ h' -> heap_extends h h'.
Proof.
  intros Hs l. destruct (h !! l) as [c|] eqn:E; [|exact I].
  pose proof (lookup_weaken _ _ _ _ E Hs) as E'. destruct c; eauto.
Qed.

Lemma heap_extends_fresh (h : gmap loc cell) c : heap_extends h (<[fresh (dom h) := c]> h).
Proof. apply subseteq_heap_extends, insert_fresh_subseteq. Qed.

Lemma heap_extends_list (h : gmap loc cell) l ts ts' :
  h !! l = Some (CList ts) -> heap_extends h (<[l := CList ts']> h).
Proof.
  intros E k. destruct (decide (l = k)) as [<-|Hk].
  - rewrite E, lookup_insert_eq. eauto.
  - rewrite lookup_insert_ne by exact Hk. destruct (h !! k) as [[]|]; eauto.
Qed.

Lemma heap_extends_obj h h' l o :
  heap_extends h h' -> h !! l = Some (CObj o) -> h' !! l = Some (CObj o).
Proof. intros H E. specialize (H l). rewrite E in H. exact H. Qed.

Lemma id_at_extends h h' obj i :
  heap_extends h h' -> id_at h obj = Some i -> id_at h' obj = Some i.
Proof.
  unfold id_at. intros H E. destruct (h !! obj) as [[| |o]|] eqn:Eo; try discriminate.
  rewrite (heap_extends_obj h h' obj o H Eo). exact E.
Qed.

Lemma serialize_extends h h' obj :
  heap_extends h h' -> is_Some (serialize h obj) -> is_Some (serialize h' obj).
Proof.
  unfold serialize. intros H [j E].
  destruct (h !! obj) as [[| |o]|] eqn:Eo; try discriminate.
  rewrite (heap_extends_obj h h' obj o H Eo).
  pose proof (H (obj_params o)) as Hp. pose proof (H (obj_transformations o)) as Ht.
  destruct (h !! obj_params o) as [[d| |]|]; try discriminate.
  destruct (h !! obj_transformations o) as [[|ts|]|]; try discriminate.
  rewrite Hp. destruct Ht as [ts' ->]. eauto.
Qed.

Lemma serialize_id_at h obj j : serialize h obj = Some j -> is_Some (id_at h obj).
Proof.
  unfold serialize, id_at. destruct (h !! obj) as [[| |o]|]; try discriminate. eauto.
Qed.

Lemma store_ok_Forall s :
  store_ok s = true
  <-> Forall (fun obj => is_Some (serialize (heap s) obj)) (objects_to_draw s).
Proof.
  unfold store_ok. rewrite forallb_forall, Forall_forall. split; intros H obj Hin.
  - apply list_elem_of_In in Hin. specialize (H obj Hin).
    apply bool_decide_eq_true in H. exact H.
  - apply list_elem_of_In in Hin. apply bool_decide_eq_true. apply H. exact Hin.
Qed.

Lemma save_objects_to_file_ok s :
  store_ok s = true ->
  exists js, save_objects_to_file s = Some (with_file (Some js) s).
Proof.
  intros H. apply store_ok_Forall in H. unfold save_objects_to_file.
  destruct (mapM_is_Some_2 (serialize (heap s)) (objects_to_draw s)) as [js E].
  { eapply Forall_impl; [exact H|]. intros obj Hobj. exact Hobj. }
  rewrite E. simpl. eauto.
Qed.

Lemma save_objects_to_file_inv s s' :
  save_objects_to_file s = Some s' ->
  store_ok s = true /\ exists js, s' = with_file (Some js) s.
Proof.
  unfold save_objects_to_file. intros H.
  destruct (mapM (serialize (heap s)) (objects_to_draw s)) as [js|] eqn:E; [|discriminate].
  simpl in H. injection H as <-. split; [|eauto].
  apply store_ok_Forall.
  assert (Hs : is_Some (mapM (serialize (heap s)) (objects_to_draw s))) by (rewrite E; eauto).
  apply mapM_is_Some_1 in Hs. eapply Forall_impl; [exact Hs|]. intros obj Hobj. exact Hobj.
Qed.

(** The three objects that a drawing interaction allocates. *)
Lemma append_object_cells (h : gmap loc cell) c1 c2 (c3 : loc -> loc -> cell) :
  let lp := fresh (dom h) in
  let h1 := <[lp := c1]> h in
  let lt := fresh (dom h1) in
  let h2 := <[lt := c2]> h1 in
  let lo := fresh (dom h2) in
  let h3 := <[lo := c3 lp lt]> h2 in
  h !! lo = None /\ h3 !! lo = Some (c3 lp lt) /\ h3 !! lp = Some c1 /\ h3 !! lt = Some c2
  /\ h ⊆ h3.
Proof.
  intros lp h1 lt h2 lo h3.
  pose proof (fresh_loc_None h) as F1. fold lp in F1.
  pose proof (fresh_loc_None h1) as F2. fold lt in F2.
  pose proof (fresh_loc_None h2) as F3. fold lo in F3.
  assert (N1 : lt <> lp).
  { intros E. rewrite E in F2. subst h1. rewrite lookup_insert_eq in F2. discriminate. }
  assert (N2 : lo <> lt).
  { intros E. rewrite E in F3. subst h2. rewrite lookup_insert_eq in F3. discriminate. }
  assert (N3 : lo <> lp).
  { intros E. rewrite E in F3. subst h2 h1.
    rewrite lookup_insert_ne, lookup_insert_eq in F3 by congruence. discriminate. }
  assert (F2' : h !! lt = None).
  { subst h1. rewrite lookup_insert_ne in F2 by congruence. exact F2. }
  assert (F3' : h !! lo = None).
  { subst h2 h1. rewrite !lookup_insert_ne in F3 by congruence. exact F3. }
  split; [exact F3'|]. subst h3 h2 h1.
  split; [apply lookup_insert_eq|].
  split; [rewrite !lookup_insert_ne, lookup_insert_eq by congruence; reflexivity|].
  split; [rewrite lookup_insert_ne, lookup_insert_eq by congruence; reflexivity|].
  etransitivity; [apply insert_subseteq, F1|].
  etransitivity; [apply insert_subseteq, F2|].
  apply insert_subseteq, F3.
Qed.

Lemma append_object_appended type algo algorithm params s :
  let h := heap s in
  let lp := fresh (dom h) in
  let lt := fresh (dom (<[lp := CDict params]> h)) in
  let lo := fresh (dom (<[lt := CList []]> (<[lp := CDict params]> h))) in
  let o := Obj (next_object_id s) type algo algorithm lp (current_color s)
             (current_style_choice s) (current_thickness s) (current_mask s) lt in
  let s2 := with_next_id (next_object_id s + 1)
              (with_objects (objects_to_draw s ++ [lo])
                 (with_heap (<[lo := CObj o]> (<[lt := CList []]> (<[lp := CDict params]> h))) s)) in
  append_object type algo algorithm params s
  = (s3 ← save_objects_to_file s2; Some (with_mode MODE_IDLE (with_temp_points [] s3)))
  /\ (store_ok s = true -> store_ok s2 = true)
  /\ (store_ok s2 = true -> appended type params s s2).
Proof.
  intros h lp lt lo o s2.
  destruct (append_object_cells h (CDict params) (CList [])
              (fun lp lt => CObj (Obj (next_object_id s) type algo algorithm lp
                 (current_color s) (current_style_choice s) (current_thickness s)
                 (current_mask s) lt)))
    as (F & Eo & Ep & Et & Hsub).
  fold lp lt lo in F, Eo, Ep, Et, Hsub. cbv beta in Eo. fold o in Eo.
  split; [reflexivity|]. split.
  - intros Hok. apply store_ok_Forall. apply store_ok_Forall in Hok.
    simpl. apply Forall_app. split.
    + eapply Forall_impl; [exact Hok|]. intros obj Hobj.
      eapply serialize_extends; [|exact Hobj]. apply subseteq_heap_extends, Hsub.
    + apply Forall_singleton. unfold serialize. fold h. rewrite Eo.
      subst o. cbn [obj_params obj_transformations]. rewrite Ep, Et. eauto.
  - intros Hok. exists lo, o. simpl. fold h.
    repeat split; try assumption; reflexivity.
Qed.

Lemma append_object_ok type algo algorithm params s :
  store_ok s = true ->
  exists s', append_object type algo algorithm params s = Some s'
             /\ appended type params s s'.
Proof.
  intros Hok.
  destruct (append_object_appended type algo algorithm params s) as (E & H1 & H2).
  specialize (H1 Hok). specialize (H2 H1).
  destruct (save_objects_to_file_ok _ H1) as [js Es].
  eexists. split; [rewrite E, Es; reflexivity|].
  destruct H2 as (lo & o & H). exists lo, o. exact H.
Qed.

Lemma append_object_inv type algo algorithm params s s' :
  append_object type algo algorithm params s = Some s' -> appended type params s s'.
Proof.
  intros H.
  destruct (append_object_appended type algo algorithm params s) as (E & _ & H2).
  rewrite E in H.
  match type of H with (mbind _ (save_objects_to_file ?s2) = _) =>
    destruct (save_objects_to_file s2) as [s3|] eqn:Es; [|discriminate];
    apply save_objects_to_file_inv in Es as [Hok [js ->]];
    specialize (H2 Hok) end.
  simpl in H. injection H as <-.
  destruct H2 as (lo & o & H). exists lo, o. exact H.
Qed.

(** ** Radii of created circles and ellipses *)

Lemma circle_radius_ge_1 cx cy px py : 1 <= circle_radius cx cy px py.
Proof.
  unfold circle_radius.
  assert (H : 0 <= py_int (euclid px py cx cy)).
  { rewrite py_int_val. apply Qtrunc_nonneg_le, euclid_nonneg. }
  destruct (Z.eqb_spec (py_int (euclid px py cx cy)) 0); lia.
Qed.

Lemma py_eq_int a b : py_eq (PyInt a) (PyInt b) = (a =? b).
Proof.
  apply eq_true_iff_eq. rewrite py_eq_spec, Z.eqb_eq. simpl.
  apply inject_Z_injective.
Qed.

Lemma ellipse_radius_int c p :
  exists r, ellipse_radius (PyInt c) (PyInt p) = PyInt r /\ 1 <= r.
Proof.
  unfold ellipse_radius. simpl py_sub. simpl py_abs. rewrite py_eq_int.
  destruct (Z.eqb_spec (Z.abs (p - c)) 0).
  - exists 1. split; [reflexivity | lia].
  - exists (Z.abs (p - c)). split; [reflexivity | lia].
Qed.

Lemma int_points_head l :
  int_points l = true -> l <> [] -> exists a b, l !! 0%nat = Some (PyInt a, PyInt b).
Proof.
  destruct l as [|[[a|] [b|]] l]; simpl; try discriminate; try congruence.
  intros _ _. eauto.
Qed.

Lemma int_points_lookup l i p :
  int_points l = true -> l !! i = Some p -> exists a b, p = (PyInt a, PyInt b).
Proof.
  unfold int_points. rewrite forallb_forall. intros H E.
  apply list_elem_of_lookup_2, list_elem_of_In in E. specialize (H p E).
  destruct p as [[a|] [b|]]; simpl in H; try discriminate. eauto.
Qed.

Lemma int_points_snoc l a b :
  int_points l = true -> int_points (l ++ [(PyInt a, PyInt b)]) = true.
Proof. unfold int_points. rewrite forallb_app. intros ->. reflexivity. Qed.

Section Created.
Context {trig : Trig}.

(** C10. A click that completes a circle stores an object of type circle
    whose radius is an integer at least 1, and a click that completes an
    ellipse stores an object of type ellipse whose two radii are integers at
    least 1; the click succeeds whenever the centre has been clicked and the
    store is sound. *)
Theorem created_radii_positive (x y : Z) (s : state) (algo : algo_func) :
  current_algo_func s = Some algo ->
  store_ok s = true ->
  int_points (temp_points s) = true ->
  temp_points s <> [] ->
  (current_mode s = MODE_DRAWING_CIRCLE_RADIUS ->
     exists s' d r,
       mousePressEvent x y s = Some s' /\ appended "circle" d s s'
       /\ d !! "r" = Some (PyInt r) /\ 1 <= r)
  /\ (current_mode s = MODE_DRAWING_ELLIPSE_RY_POINT ->
        exists s' d rx ry,
          mousePressEvent x y s = Some s' /\ appended "ellipse" d s s'
          /\ d !! "rx" = Some (PyInt rx) /\ 1 <= rx
          /\ d !! "ry" = Some (PyInt ry) /\ 1 <= ry)
  /\ (forall cx cy px py, 1 <= circle_radius cx cy px py)
  /\ (forall c p, exists r, ellipse_radius (PyInt c) (PyInt p) = PyInt r /\ 1 <= r).
Proof.
  intros Halgo Hok Hint Hne.
  destruct (int_points_head _ Hint Hne) as (cx & cy & Hc).
  split; [|split; [|split; [apply circle_radius_ge_1 | apply ellipse_radius_int]]].
  - intros Hmode. unfold mousePressEvent.
    change (screen_to_logical (dims s) (PyInt (snap x), PyInt (snap y)))
      with (PyInt (snap x - MID_X (dims s)), PyInt (MID_Y (dims s) - snap y)).
    cbv beta iota zeta. rewrite Hmode, Halgo. simpl.
    rewrite (lookup_app_l _ _ 0%nat)
      by (destruct (temp_points s); [congruence | simpl; lia]).
    rewrite Hc. simpl.
    set (s1 := with_temp_points _ s).
    set (d := <["xc" := _]> _).
    destruct (append_object_ok "circle" algo "draw_circle" d s1 Hok) as (s' & E & Happ).
    exists s', d, (circle_radius (PyInt cx) (PyInt cy) (PyInt (snap x - MID_X (dims s)))
                     (PyInt (MID_Y (dims s) - snap y))).
    split; [rewrite Halgo; exact E|]. split; [exact Happ|].
    split; [subst d; simplify_map_eq; reflexivity | apply circle_radius_ge_1].
  - intros Hmode. unfold mousePressEvent.
    change (screen_to_logical (dims s) (PyInt (snap x), PyInt (snap y)))
      with (PyInt (snap x - MID_X (dims s)), PyInt (MID_Y (dims s) - snap y)).
    cbv beta iota zeta. rewrite Hmode, Halgo. simpl.
    rewrite (lookup_app_l _ _ 0%nat)
      by (destruct (temp_points s); [congruence | simpl; lia]).
    rewrite Hc. simpl.
    set (lx := PyInt (snap x - MID_X (dims s))).
    set (ly := MID_Y (dims s) - snap y).
    destruct ((temp_points s ++ [(lx, PyInt ly)]) !! 1%nat) as [[px py]|] eqn:E1.
    2:{ apply lookup_ge_None in E1. rewrite length_app in E1. simpl in E1.
        destruct (temp_points s); [congruence | simpl in E1; lia]. }
    destruct (int_points_lookup _ _ _ (int_points_snoc _ _ _ Hint) E1) as (pa & pb & Hp).
    injection Hp as -> ->. simpl.
    set (s1 := with_temp_points _ s).
    set (d := <["xc" := _]> _).
    destruct (append_object_ok "ellipse" algo "draw_ellipse" d s1 Hok) as (s' & E & Happ).
    destruct (ellipse_radius_int cx pa) as (rx & Erx & Hrx).
    destruct (ellipse_radius_int cy ly) as (ry & Ery & Hry).
    exists s', d, rx, ry.
    split; [rewrite Halgo; exact E|]. split; [exact Happ|].
    subst d. rewrite Erx, Ery. simplify_map_eq. auto.
Qed.

End Created.

Lemma created_radii_positive_witness :
  let s := circle_scene in
  (current_algo_func s = Some f_draw_circle /\ store_ok s = true
   /\ int_points (temp_points s) = true /\ temp_points s <> []
   /\ current_mode s = MODE_DRAWING_CIRCLE_RADIUS)
  /\ exists s' d r,
       mousePressEvent (trig := no_trig) 500 350 s = Some s' /\ appended "circle" d s s'
       /\ d !! "r" = Some (PyInt r) /\ 1 <= r.
Proof.
  intros s.
  assert (H1 : current_algo_func s = Some f_draw_circle) by reflexivity.
  assert (H2 : store_ok s = true) by reflexivity.
  assert (H3 : int_points (temp_points s) = true) by reflexivity.
  assert (H4 : temp_points s <> []) by discriminate.
  assert (H5 : current_mode s = MODE_DRAWING_CIRCLE_RADIUS) by reflexivity.
  split; [auto|].
  destruct (created_radii_positive (trig := no_trig) 500 350 s f_draw_circle H1 H2 H3 H4)
    as [T _].
  exact (T H5).
Defined.

Example circle_radius_zero_replaced :
  (fun s => (stored_ids s, next_object_id s, data_file s))
    <$> mousePressEvent (trig := no_trig) 500 350 circle_scene
  = Some ([0], 1,
          Some [Json (PyInt 0) "circle" "draw_circle"
                  (<["xc" := PyInt 0]> (<["yc" := PyInt (-10)]> (<["r" := PyInt 1]> ∅)))
                  (0, 0, 1)%Q STYLE_SOLID 1 0 []]).
Proof. vm_compute. reflexivity. Qed.

(** ** Loading, and ids during a session *)

Lemma foldr_max_acc m a l : foldr Z.max (Z.max m a) l = Z.max a (foldr Z.max m l).
Proof. induction l as [|b l IH]; simpl; [|rewrite IH]; lia. Qed.

Lemma max_id_of_upper ids : Forall (fun i => i <= max_id_of ids) ids /\ 0 <= max_id_of ids.
Proof.
  unfold max_id_of. induction ids as [|a l [IH1 IH2]]; simpl.
  - split; [constructor | lia].
  - split; [|lia]. constructor; [lia|].
    eapply Forall_impl; [exact IH1|]. simpl. intros i Hi. lia.
Qed.

Lemma max_id_of_elem ids : ids <> [] -> Forall (fun i => 0 <= i) ids -> max_id_of ids ∈ ids.
Proof.
  unfold max_id_of. induction ids as [|a l IH]; [congruence|].
  intros _ Hall. apply Forall_cons in Hall as [Ha Hl]. simpl.
  destruct l as [|b l].
  - simpl. rewrite Z.max_l by lia. apply list_elem_of_here.
  - destruct (Z.max_spec a (foldr Z.max 0 (b :: l))) as [[_ ->]|[_ ->]].
    + apply list_elem_of_further, IH; [discriminate | exact Hl].
    + apply list_elem_of_here.
Qed.

Lemma omap_id_at_extends h h' objs :
  heap_extends h h' ->
  Forall (fun obj => is_Some (serialize h obj)) objs ->
  omap (id_at h') objs = omap (id_at h) objs.
Proof.
  intros He Hall. induction Hall as [|obj objs [j Hj] _ IH]; [reflexivity|].
  destruct (serialize_id_at h obj j Hj) as [i Hi].
  csimpl. rewrite (id_at_extends h h' obj i He Hi), Hi, IH. reflexivity.
Qed.

Lemma loaded_ids_cons j data :
  loaded_ids (j :: data)
  = match algo_map (j_algorithm j) with
    | Some _ => py_int (j_id j) :: loaded_ids data
    | None => loaded_ids data
    end.
Proof.
  unfold loaded_ids. simpl. destruct (algo_map (j_algorithm j)).
  - rewrite bool_decide_eq_true_2 by eauto. reflexivity.
  - rewrite bool_decide_eq_false_2; [reflexivity|]. intros [? ?]. discriminate.
Qed.

(** The loop of the loader keeps the largest id seen and appends one object
    per recognised record. *)
Lemma load_loop_spec data : forall h objs m,
  Forall (fun obj => is_Some (serialize h obj)) objs ->
  exists h' objs',
    load_loop data h objs m = (h', objs', foldr Z.max m (loaded_ids data))
    /\ heap_extends h h'
    /\ Forall (fun obj => is_Some (serialize h' obj)) objs'
    /\ omap (id_at h') objs' = omap (id_at h) objs ++ loaded_ids data.
Proof.
  induction data as [|j data IH]; intros h objs m Hall.
  - exists h, objs. simpl. rewrite app_nil_r.
    split; [reflexivity|]. split; [apply heap_extends_refl|]. split; [exact Hall | reflexivity].
  - simpl load_loop. rewrite loaded_ids_cons.
    destruct (algo_map (j_algorithm j)) as [algo|]; [|apply IH; exact Hall].
    set (c3 := fun lp lt => CObj (Obj (py_int (j_id j)) (j_type j) algo (j_algorithm j) lp
                 (j_color j) (j_style j) (j_thickness j) (j_mask j) lt)).
    destruct (append_object_cells h (CDict (j_params j)) (CList (j_transformations j)) c3)
      as (F & Eo & Ep & Et & Hsub).
    set (lp := fresh (dom h)) in *.
    set (lt := fresh (dom (<[lp := CDict (j_params j)]> h))) in *.
    set (lo := fresh (dom (<[lt := CList (j_transformations j)]>
                             (<[lp := CDict (j_params j)]> h)))) in *.
    set (h3 := <[lo := c3 lp lt]> _) in *.
    assert (He : heap_extends h h3) by apply subseteq_heap_extends, Hsub.
    assert (Hall3 : Forall (fun obj => is_Some (serialize h3 obj)) (objs ++ [lo])).
    { apply Forall_app. split.
      - eapply Forall_impl; [exact Hall|]. intros obj Hobj.
        eapply serialize_extends; [exact He | exact Hobj].
      - apply Forall_singleton. unfold serialize. rewrite Eo. subst c3.
        cbn [obj_params obj_transformations]. rewrite Ep, Et. eauto. }
    destruct (IH h3 (objs ++ [lo]) (if m <? py_int (j_id j) then py_int (j_id j) else m) Hall3)
      as (h' & objs' & E & He' & Hall' & Hids).
    exists h', objs'.
    split.
    { refine (eq_trans E _). f_equal. simpl. rewrite <- foldr_max_acc. f_equal.
      destruct (Z.ltb_spec m (py_int (j_id j))); lia. }
    split; [eapply heap_extends_trans; eassumption|].
    split; [exact Hall'|].
    rewrite Hids, omap_app, (omap_id_at_extends h h3 objs He Hall). simpl.
    unfold id_at at 2. rewrite Eo. subst c3. simpl. rewrite <- app_assoc. reflexivity.
Qed.

Lemma load_objects_from_file_spec s data :
  data_file s = Some data ->
  let s' := load_objects_from_file s in
  stored_ids s' = loaded_ids data
  /\ next_object_id s' = max_id_of (loaded_ids data) + 1
  /\ store_ok s' = true
  /\ ids_below s'.
Proof.
  intros Hf. unfold load_objects_from_file. rewrite Hf.
  destruct (load_loop_spec data (heap s) [] 0) as (h' & objs' & E & _ & Hall & Hids);
    [constructor|].
  rewrite E. cbv zeta. unfold stored_ids, ids_below, stored_ids. simpl.
  rewrite Hids. simpl.
  split; [reflexivity|]. split; [reflexivity|]. split.
  - apply store_ok_Forall. simpl. exact Hall.
  - destruct (max_id_of_upper (loaded_ids data)) as [Hup _].
    eapply Forall_impl; [exact Hup|]. unfold max_id_of. simpl. intros i Hi. lia.
Qed.

Lemma step_ok_extends s s' :
  heap_extends (heap s) (heap s') ->
  objects_to_draw s' = objects_to_draw s ->
  next_object_id s' = next_object_id s ->
  store_ok s = true -> step_ok s s'.
Proof.
  intros He Ho Hn Hok. split; [exact He|]. split; [|left; split; assumption].
  apply store_ok_Forall. rewrite Ho. apply store_ok_Forall in Hok.
  eapply Forall_impl; [exact Hok|]. intros obj Hobj.
  eapply serialize_extends; [exact He | exact Hobj].
Qed.

Lemma step_ok_same s s' :
  heap s' = heap s ->
  objects_to_draw s' = objects_to_draw s ->
  next_object_id s' = next_object_id s ->
  store_ok s = true -> step_ok s s'.
Proof.
  intros Hh. apply step_ok_extends. rewrite Hh. apply heap_extends_refl.
Qed.

Lemma step_ok_appended type d s1 s s' :
  appended type d s1 s' ->
  heap s1 = heap s -> objects_to_draw s1 = objects_to_draw s ->
  next_object_id s1 = next_object_id s ->
  step_ok s s'.
Proof.
  intros (lo & o & Ho & _ & Elo & Hid & _ & _ & _ & Hn & Hsub & Hok) Hh Hobjs Hnext.
  rewrite Hh in Hsub. rewrite Hobjs in Ho. rewrite Hnext in Hid, Hn.
  split; [apply subseteq_heap_extends, Hsub|]. split; [exact Hok|].
  right. exists lo. split; [exact Ho|]. split; [|exact Hn].
  unfold id_at. rewrite Elo, Hid. reflexivity.
Qed.

Lemma append_transformation_inv obj t s s' :
  append_transformation obj t s = Some s' ->
  heap_extends (heap s) (heap s')
  /\ objects_to_draw s' = objects_to_draw s
  /\ next_object_id s' = next_object_id s.
Proof.
  unfold append_transformation. intros H.
  destruct (heap s !! obj) as [[| |o]|]; try discriminate.
  destruct (heap s !! obj_transformations o) as [[|ts|]|] eqn:E; try discriminate.
  injection H as <-. simpl.
  split; [eapply heap_extends_list; exact E | split; reflexivity].
Qed.

Section SessionIds.
Context {trig : Trig}.

Lemma select_loop_subseteq lx ly objs : forall m c h,
  h ⊆ (select_loop lx ly objs m c h).2.
Proof.
  induction objs as [|obj objs IH]; intros m c h; [reflexivity|].
  simpl select_loop. unfold mbind at 1, heapM_bind at 1.
  pose proof (apply_transformations_frame obj h) as Hf.
  destruct (apply_transformations obj h) as [[r|] h1]; simpl in Hf; [|exact Hf].
  heap_unfold.
  destruct (h1 !! r) as [[d| |]|]; try exact Hf.
  destruct (h1 !! obj) as [[| |o]|]; try exact Hf.
  destruct (hit_distance lx ly (obj_type o) (obj_thickness o) d); [|exact Hf].
  destruct (ext_lt _ _); (etransitivity; [exact Hf | apply IH]).
Qed.

Lemma select_at_step lx ly s s' :
  store_ok s = true -> select_at lx ly s = Some s' -> step_ok s s'.
Proof.
  intros Hok H. unfold select_at in H.
  pose proof (select_loop_subseteq lx ly (objects_to_draw (with_selected (-1) s))
                Infinity (-1) (heap (with_selected (-1) s))) as Hsub.
  destruct (select_loop _ _ _ _ _ _) as [[[k id]|] h']; [|discriminate].
  simpl in Hsub. injection H as <-.
  apply step_ok_extends; try assumption.
  - destruct (negb (id =? -1)); simpl; apply subseteq_heap_extends, Hsub.
  - destruct (negb (id =? -1)); reflexivity.
  - destruct (negb (id =? -1)); reflexivity.
Qed.

Lemma transform_leaf_step obj t s s' :
  store_ok s = true ->
  (s1 ← append_transformation obj t s;
   s2 ← save_objects_to_file s1;
   Some (with_mode MODE_IDLE (with_selected (-1) (with_temp_points [] s2)))) = Some s' ->
  step_ok s s'.
Proof.
  intros Hok H.
  destruct (append_transformation obj t s) as [s1|] eqn:E1; [|discriminate].
  simpl in H. destruct (save_objects_to_file s1) as [s2|] eqn:E2; [|discriminate].
  simpl in H. injection H as <-.
  apply append_transformation_inv in E1 as (He & Ho & Hn).
  apply save_objects_to_file_inv in E2 as [_ [js ->]].
  apply step_ok_extends; assumption.
Qed.

End SessionIds.

Section SessionSteps.
Context {trig : Trig}.

Ltac same_step Hok :=
  match goal with
  | H : Some _ = Some _ |- _ =>
      injection H as <-; apply step_ok_same; [reflexivity .. | exact Hok]
  end.

Lemma mousePressEvent_step x y s s' :
  store_ok s = true -> mousePressEvent x y s = Some s' -> step_ok s s'.
Proof.
  intros Hok H. unfold mousePressEvent in H.
  destruct (screen_to_logical (dims s) (PyInt (snap x), PyInt (snap y))) as [lx ly].
  cbv zeta in H.
  repeat match type of H with
         | (if ?b then _ else _) = _ => destruct b eqn:?
         end.
  all: try same_step Hok.
  all: try (apply select_at_step with (lx := lx) (ly := ly); assumption).
  all: unfold mbind, option_bind in H.
  all: repeat match type of H with
              | match ?o with _ => _ end = _ => destruct o eqn:?; try discriminate
              end.
  all: try same_step Hok.
  all: try (apply append_object_inv in H; eapply step_ok_appended;
            [exact H | reflexivity ..]).
  all: match goal with
       | E1 : append_transformation _ _ _ = Some ?s1,
         E2 : save_objects_to_file ?s1 = Some ?s2 |- _ =>
           apply append_transformation_inv in E1 as (He & Ho & Hn);
           apply save_objects_to_file_inv in E2 as [_ [js ->]];
           injection H as <-; apply step_ok_extends; [exact He | exact Ho | exact Hn | exact Hok]
       end.
Qed.

End SessionSteps.

Lemma step_ok_ids s s' :
  step_ok s s' -> store_ok s = true ->
  (stored_ids s' = stored_ids s /\ next_object_id s' = next_object_id s)
  \/ (stored_ids s' = stored_ids s ++ [next_object_id s]
      /\ next_object_id s' = next_object_id s + 1).
Proof.
  intros (He & _ & [[Ho Hn]|(lo & Ho & Hid & Hn)]) Hok; apply store_ok_Forall in Hok.
  - left. split; [|exact Hn]. unfold stored_ids. rewrite Ho.
    apply omap_id_at_extends; assumption.
  - right. split; [|exact Hn]. unfold stored_ids. rewrite Ho, omap_app.
    rewrite (omap_id_at_extends _ _ _ He Hok). csimpl. rewrite Hid. reflexivity.
Qed.

Lemma remove_id_spec h k objs : forall objs',
  remove_id h objs k = Some objs' ->
  omap (id_at h) objs' = List.filter (fun i => negb (i =? k)) (omap (id_at h) objs).
Proof.
  induction objs as [|obj objs IH]; intros objs' H.
  - injection H as <-. reflexivity.
  - simpl in H. destruct (h !! obj) as [[| |o]|] eqn:Eo; try discriminate.
    destruct (remove_id h objs k) as [rest|]; [|discriminate].
    simpl in H. injection H as <-. specialize (IH rest eq_refl).
    assert (Eid : id_at h obj = Some (obj_id o)) by (unfold id_at; rewrite Eo; reflexivity).
    assert (ER : List.filter (fun i => negb (i =? k)) (omap (id_at h) (obj :: objs))
                 = if negb (obj_id o =? k)
                   then obj_id o :: List.filter (fun i => negb (i =? k)) (omap (id_at h) objs)
                   else List.filter (fun i => negb (i =? k)) (omap (id_at h) objs)).
    { csimpl. rewrite Eid. reflexivity. }
    rewrite ER. destruct (obj_id o =? k); cbn [negb].
    + exact IH.
    + csimpl. rewrite Eid, IH. reflexivity.
Qed.

Lemma delete_selected_object_inv s s' :
  store_ok s = true ->
  delete_selected_object s = Some s' ->
  next_object_id s' = next_object_id s
  /\ store_ok s' = true
  /\ stored_ids s'
     = (if selected_object_id s =? -1 then stored_ids s
        else List.filter (fun i => negb (i =? selected_object_id s)) (stored_ids s)).
Proof.
  intros Hok H. unfold delete_selected_object in H.
  destruct (selected_object_id s =? -1); simpl in H.
  - injection H as <-. auto.
  - destruct (remove_id (heap s) (objects_to_draw s) (selected_object_id s))
      as [objs|] eqn:E; [|discriminate].
    simpl in H. apply save_objects_to_file_inv in H as [Hok' [js ->]].
    apply remove_id_spec in E.
    split; [reflexivity|]. split; [exact Hok'|]. exact E.
Qed.

Section SessionRuns.
Context {trig : Trig}.

(** During a session the next id never decreases, and every id found in
    the store later is either one that was there or one issued since. *)
Lemma run_events_ids es : forall s s',
  store_ok s = true -> ids_below s -> run_events es s = Some s' ->
  store_ok s' = true /\ ids_below s'
  /\ next_object_id s <= next_object_id s'
  /\ (forall i, i ∈ stored_ids s' -> i ∈ stored_ids s \/ next_object_id s <= i).
Proof.
  induction es as [|e es IH]; intros s s' Hok Hb H.
  - injection H as <-. split; [exact Hok|]. split; [exact Hb|]. split; [lia | auto].
  - simpl in H. destruct (run_event e s) as [s1|] eqn:E1; [|discriminate]. simpl in H.
    assert (Hstep : store_ok s1 = true /\ ids_below s1
                    /\ next_object_id s <= next_object_id s1
                    /\ (forall i, i ∈ stored_ids s1 ->
                                  i ∈ stored_ids s \/ next_object_id s <= i)).
    { destruct e as [x y|]; simpl in E1.
      - pose proof (mousePressEvent_step x y s s1 Hok E1) as Hs.
        destruct (step_ok_ids s s1 Hs Hok) as [[Ei En]|[Ei En]].
        + split; [apply Hs|]. unfold ids_below in *. rewrite Ei, En.
          split; [exact Hb|]. split; [lia | auto].
        + split; [apply Hs|]. unfold ids_below in *. rewrite Ei, En.
          split.
          { apply Forall_app. split; [|apply Forall_singleton; lia].
            eapply Forall_impl; [exact Hb|]. simpl. intros i Hi. lia. }
          split; [lia|]. intros i [Hi|Hi]%elem_of_app; [auto|].
          apply list_elem_of_singleton in Hi. right. lia.
      - destruct (delete_selected_object_inv s s1 Hok E1) as (En & Hok1 & Ei).
        assert (Hsub : forall i, i ∈ stored_ids s1 -> i ∈ stored_ids s).
        { intros i Hi. rewrite Ei in Hi. destruct (selected_object_id s =? -1); [exact Hi|].
          apply list_elem_of_In, filter_In in Hi as [Hi _]. apply list_elem_of_In, Hi. }
        split; [exact Hok1|]. unfold ids_below in *. rewrite En.
        split; [|split; [lia | auto]].
        apply Forall_forall. intros i Hi. rewrite Forall_forall in Hb. auto. }
    destruct Hstep as (Hok1 & Hb1 & Hn1 & Hi1).
    destruct (IH s1 s' Hok1 Hb1 H) as (Hok' & Hb' & Hn' & Hi').
    split; [exact Hok'|]. split; [exact Hb'|]. split; [lia|].
    intros i Hi. destruct (Hi' i Hi) as [Hin|Hge]; [|right; lia].
    destruct (Hi1 i Hin) as [Hin0|Hge]; [left; exact Hin0 | right; lia].
Qed.

(** An id deleted during a session is never found in the store again. *)
Lemma deleted_id_not_reused s s1 es s2 :
  store_ok s = true -> ids_below s ->
  selected_object_id s <> -1 ->
  selected_object_id s ∈ stored_ids s ->
  delete_selected_object s = Some s1 ->
  run_events es s1 = Some s2 ->
  selected_object_id s ∉ stored_ids s2.
Proof.
  intros Hok Hb Hsel Hin Hdel Hrun.
  destruct (delete_selected_object_inv s s1 Hok Hdel) as (En & Hok1 & Ei).
  destruct (Z.eqb_spec (selected_object_id s) (-1)) as [|_]; [congruence|].
  assert (Hb1 : ids_below s1).
  { unfold ids_below in *. rewrite En, Ei. apply Forall_forall. intros i Hi.
    apply list_elem_of_In, filter_In in Hi as [Hi _].
    rewrite Forall_forall in Hb. apply Hb, list_elem_of_In, Hi. }
  destruct (run_events_ids es s1 s2 Hok1 Hb1 Hrun) as (_ & _ & _ & Hi2).
  intros Hbad. destruct (Hi2 _ Hbad) as [Hold|Hge].
  - rewrite Ei in Hold. apply list_elem_of_In, filter_In in Hold as [_ Hne].
    rewrite Z.eqb_refl in Hne. discriminate.
  - unfold ids_below in Hb. rewrite Forall_forall in Hb. specialize (Hb _ Hin). lia.
Qed.

End SessionRuns.

Section NextId.
Context {trig : Trig}.

(** C8 (amended). Loading an absent file gives an empty store and next id
    0.  Loading an existing file gives next id [m + 1], where [m] is the
    largest id among the loaded objects, and 0 if there is none (so 1 for a
    file without loadable record); for a non-empty store of non-negative ids
    [m] is the maximum of the ids.  During a session a created object carries
    the next id, which is then incremented, deletion leaves the next id as
    it is, and an id deleted in the session is never found in the store
    again. *)
Theorem next_id_after_load_and_in_session (s : state) :
  (data_file s = None ->
     next_object_id (load_objects_from_file s) = 0
     /\ objects_to_draw (load_objects_from_file s) = [])
  /\ (forall data, data_file s = Some data ->
        stored_ids (load_objects_from_file s) = loaded_ids data
        /\ next_object_id (load_objects_from_file s) = max_id_of (loaded_ids data) + 1
        /\ store_ok (load_objects_from_file s) = true
        /\ ids_below (load_objects_from_file s))
  /\ (forall ids,
        Forall (fun i => i <= max_id_of ids) ids
        /\ 0 <= max_id_of ids
        /\ (ids <> [] -> Forall (fun i => 0 <= i) ids -> max_id_of ids ∈ ids))
  /\ (forall type algo algorithm params s',
        append_object type algo algorithm params s = Some s' ->
        appended type params s s')
  /\ (forall s', delete_selected_object s = Some s' ->
        next_object_id s' = next_object_id s)
  /\ (forall es s',
        store_ok s = true -> ids_below s -> run_events es s = Some s' ->
        store_ok s' = true /\ ids_below s'
        /\ next_object_id s <= next_object_id s'
        /\ (forall i, i ∈ stored_ids s' -> i ∈ stored_ids s \/ next_object_id s <= i))
  /\ (forall s1 es s2,
        store_ok s = true -> ids_below s ->
        selected_object_id s <> -1 ->
        selected_object_id s ∈ stored_ids s ->
        delete_selected_object s = Some s1 ->
        run_events es s1 = Some s2 ->
        selected_object_id s ∉ stored_ids s2).
Proof.
  split.
  { intros Hf. unfold load_objects_from_file. rewrite Hf. split; reflexivity. }
  split; [intros data Hf; apply load_objects_from_file_spec; exact Hf|].
  split.
  { intros ids. destruct (max_id_of_upper ids) as [H1 H2].
    split; [exact H1|]. split; [exact H2 | apply max_id_of_elem]. }
  split; [intros type algo algorithm params s'; apply append_object_inv|].
  split.
  { intros s' H. unfold delete_selected_object in H.
    destruct (negb (selected_object_id s =? -1)).
    - destruct (remove_id _ _ _) as [objs|]; [|discriminate]. simpl in H.
      apply save_objects_to_file_inv in H as [_ [js ->]]. reflexivity.
    - injection H as <-. reflexivity. }
  split; [intros es s'; apply run_events_ids|].
  intros s1 es s2. apply deleted_id_not_reused.
Qed.

End NextId.

Lemma next_id_after_load_and_in_session_witness :
  let s := two_lines_scene in
  (exists data, data_file s = Some data /\ loaded_ids data = [0; 1])
  /\ next_object_id (load_objects_from_file s) = 2
  /\ stored_ids (load_objects_from_file s) = [0; 1].
Proof.
  intros s.
  destruct (data_file s) as [data|] eqn:E; [|discriminate E].
  assert (Hids : loaded_ids data = [0; 1]).
  { injection E as <-. reflexivity. }
  split; [exists data; split; [reflexivity | exact Hids]|].
  destruct (next_id_after_load_and_in_session (trig := no_trig) s) as (_ & T & _).
  destruct (T data E) as (T1 & T2 & _).
  split.
  - refine (eq_trans T2 _). rewrite Hids. reflexivity.
  - refine (eq_trans T1 _). exact Hids.
Defined.

(** C8, as stated, fails in two places.  A file that exists and holds no
    record gives an empty store with next id 1, not 0.  And after the object
    with the largest id is deleted and the file is loaded again, the next
    object created gets the deleted id: from the ids 0 and 1, deleting 1 and
    reloading, the next line drawn has id 1. *)
Lemma next_id_one_for_empty_file_and_reuse_after_reload :
  (let s := load_objects_from_file (with_file (Some []) circle_scene) in
   objects_to_draw s = [] /\ next_object_id s = 1 /\ next_object_id s <> 0)
  /\ (s1 ← delete_selected_object two_lines_scene;
      let s2 := set_algorithm f_dda_line MODE_DRAWING_LINE_P1 (load_objects_from_file s1) in
      s3 ← mousePressEvent (trig := no_trig) 100 100 s2;
      s4 ← mousePressEvent (trig := no_trig) 200 100 s3;
      Some (stored_ids two_lines_scene, stored_ids s1, next_object_id s2, stored_ids s4))
     = Some ([0; 1], [0], 1, [0; 1]).
Proof. vm_compute. repeat split; congruence. Qed.

(** ** The model on concrete inputs *)

Example bresenham_steep :
  map pc_point (bresenham_line (PyInt 0) (PyInt 0) (PyInt 3) (PyInt 7) STYLE_SOLID 1 0)
  = [zpt 0 0; zpt 0 1; zpt 1 2; zpt 1 3; zpt 2 4; zpt 2 5; zpt 3 6; zpt 3 7].
Proof. vm_compute. reflexivity. Qed.

Example symmetrical_dda_step_indices :
  map (fun p => (pc_point p, pc_step p))
    (symmetrical_dda_line (PyInt 0) (PyInt 0) (PyInt 4) (PyInt 2) STYLE_SOLID 1 0)
  = [(zpt 0 0, 0); (zpt 1 0, 1); (zpt 2 1, 2); (zpt 4 2, 3); (zpt 3 2, 4)].
Proof. vm_compute. reflexivity. Qed.

Example dotted_pattern :
  map (fun step => do_plot STYLE_DOTTED step 0) [0; 1; 2; 3; 4; 5] = [true; true; false; false; true; true].
Proof. reflexivity. Qed.

Example user_defined_pattern :
  map (fun step => do_plot STYLE_USER_DEFINED step 0xF0F0) [0; 3; 4; 7; 8; 16; 20]
  = [false; false; true; true; false; false; true].
Proof. reflexivity. Qed.

Example reflect_across_vertical_line :
  reflect_point_across_line (PyInt 3) (PyInt 4) (PyInt 0) (PyInt (-5)) (PyInt 0) (PyInt 5)
  = (PyInt (-3), PyInt 4).
Proof. reflexivity. Qed.

Example reflect_across_diagonal :
  reflect_point_across_line (PyInt 1) (PyInt 0) (PyInt 0) (PyInt 0) (PyInt 1) (PyInt 1)
  = (PyFloat 0, PyFloat 1).
Proof. vm_compute. reflexivity. Qed.

Example scaled_line_reaches_dda_with_fractions :
  (apply_transformation_list (trig := no_trig) "line"
     [Scale (PyFloat (7 # 16)) (PyInt 1) (PyInt 10) (PyInt 0)]
     (<["x1" := PyInt 0]> (<["y1" := PyInt 0]> (<["x2" := PyInt 20]> (<["y2" := PyInt 0]> ∅))))).2
  = <["x1" := PyFloat (45 # 8)]> (<["y1" := PyInt 0]>
      (<["x2" := PyFloat (115 # 8)]> (<["y2" := PyInt 0]> ∅))).
Proof. vm_compute. reflexivity. Qed.

(* ===================================================================== *)
(** * Further properties of the code *)
(* ===================================================================== *)

(** ** Snapping to the grid *)

Lemma snap_round raw : snap raw = Qround_half_even (inject_Z raw / 20) * GRID_SPACING.
Proof.
  unfold snap. f_equal. simpl. apply Qround_half_even_comp. apply Qred_correct.
Qed.

(** A click is snapped to a nearest multiple of the grid spacing: the
    result is a multiple of 20 at most 10 away, and a multiple of 20 is left
    where it is, so that snapping twice is snapping once. *)
Theorem snap_nearest_grid (raw : Z) :
  snap raw mod GRID_SPACING = 0
  /\ Z.abs (snap raw - raw) <= 10
  /\ (forall k, snap (GRID_SPACING * k) = GRID_SPACING * k)
  /\ snap (snap raw) = snap raw.
Proof.
  assert (Hmul : forall k, snap (GRID_SPACING * k) = GRID_SPACING * k).
  { intros k. rewrite snap_round. unfold GRID_SPACING.
    assert (E : (inject_Z (20 * k) / 20 == inject_Z k)%Q).
    { rewrite inject_Z_mult. change (inject_Z 20) with 20%Q. field. }
    rewrite (Qround_half_even_comp _ _ E), Qround_half_even_inject_Z. lia. }
  split; [|split; [|split; [exact Hmul|]]].
  - rewrite snap_round. apply Z_mod_mult.
  - rewrite snap_round. unfold GRID_SPACING.
    pose proof (Qround_half_even_nearest (inject_Z raw / 20)) as H.
    set (R := Qround_half_even (inject_Z raw / 20)) in *.
    apply Qabs_Qle_condition in H as [H1 H2].
    assert (L : (inject_Z (R * 20 - raw) <= inject_Z 10)%Q).
    { unfold Z.sub. rewrite inject_Z_plus, inject_Z_mult, inject_Z_opp.
      change (inject_Z 20) with 20%Q. change (inject_Z 10) with 10%Q.
      assert (E : (inject_Z raw == 20 * (inject_Z raw / 20))%Q) by field.
      lra. }
    assert (U : (inject_Z (- 10) <= inject_Z (R * 20 - raw))%Q).
    { unfold Z.sub. rewrite inject_Z_plus, inject_Z_mult, inject_Z_opp.
      change (inject_Z 20) with 20%Q. change (inject_Z (- 10)) with (- 10)%Q.
      assert (E : (inject_Z raw == 20 * (inject_Z raw / 20))%Q) by field.
      lra. }
    rewrite <- Zle_Qle in L, U. lia.
  - rewrite (snap_round raw).
    rewrite (Z.mul_comm (Qround_half_even (inject_Z raw / 20)) GRID_SPACING).
    apply Hmul.
Qed.

(** ** Visibility of a plotted step *)

Lemma land_shiftr_1 mask k :
  0 <= k -> negb (Z.land (Z.shiftr mask k) 1 =? 0) = Z.testbit mask k.
Proof.
  intros Hk. change 1 with (Z.ones 1). rewrite Z.land_ones by lia.
  rewrite <- Z.bit0_mod, Z.shiftr_spec by lia. rewrite Z.add_0_l.
  destruct (Z.testbit mask k); reflexivity.
Qed.

(** A solid or thick step is always visible; a dotted step is visible on
    two steps out of four; a step of a user-defined style is visible exactly
    when the bit of the mask at its index modulo 16 is set, so that only the
    low 16 bits of the mask count and the pattern has period 16; with any
    other style code nothing is visible.  A step is handed to the surface,
    as its screen point, exactly when it is visible and that point lies
    inside the canvas: a visible step inside the canvas gives this one
    vertex, every other step gives none. *)
Theorem plot_styled_pixel_visible (c : canvas) (p : plot_call) :
  (forall step mask, do_plot STYLE_SOLID step mask = true
                     /\ do_plot STYLE_THICK step mask = true)
  /\ (forall step mask, do_plot STYLE_DOTTED step mask = (step mod 4 <? 2))
  /\ (forall step mask,
        do_plot STYLE_USER_DEFINED step mask = Z.testbit mask (step mod 16)
        /\ do_plot STYLE_USER_DEFINED step (mask mod 2 ^ 16)
           = do_plot STYLE_USER_DEFINED step mask
        /\ do_plot STYLE_USER_DEFINED (step + 16) mask
           = do_plot STYLE_USER_DEFINED step mask)
  /\ (forall style step mask,
        style < 1 \/ 4 < style -> do_plot style step mask = false)
  /\ (length (plot_styled_pixel c p) <= 1)%nat
  /\ (forall v, v ∈ plot_styled_pixel c p ->
        v = logical_to_screen c (pc_x p, pc_y p)
        /\ do_plot (pc_style p) (pc_step p) (pc_mask p) = true
        /\ (0 <= num_val v.1 /\ num_val v.1 < inject_Z (CANVAS_WIDTH c))%Q
        /\ (0 <= num_val v.2 /\ num_val v.2 < inject_Z (SCREEN_HEIGHT c))%Q)
  /\ (forall v, v = logical_to_screen c (pc_x p, pc_y p) ->
        do_plot (pc_style p) (pc_step p) (pc_mask p) = true ->
        (0 <= num_val v.1 /\ num_val v.1 < inject_Z (CANVAS_WIDTH c))%Q ->
        (0 <= num_val v.2 /\ num_val v.2 < inject_Z (SCREEN_HEIGHT c))%Q ->
        plot_styled_pixel c p = [v]).
Proof.
  assert (U : forall step mask,
             do_plot STYLE_USER_DEFINED step mask = Z.testbit mask (step mod 16)).
  { intros step mask. unfold do_plot. simpl.
    apply land_shiftr_1. apply Z.mod_pos_bound. lia. }
  split; [intros; split; reflexivity|].
  split; [intros; reflexivity|].
  split.
  { intros step mask. split; [apply U|]. split.
    - rewrite !U. apply Z.mod_pow2_bits_low.
      pose proof (Z.mod_pos_bound step 16). lia.
    - rewrite !U. f_equal. rewrite <- (Z.mul_1_l 16) at 1. apply Z.mod_add. lia. }
  split.
  { intros style step mask H. unfold do_plot, STYLE_SOLID, STYLE_THICK, STYLE_DOTTED,
      STYLE_USER_DEFINED.
    destruct (Z.eqb_spec style 1), (Z.eqb_spec style 3), (Z.eqb_spec style 2),
      (Z.eqb_spec style 4); simpl; try lia; reflexivity. }
  unfold plot_styled_pixel.
  destruct (do_plot (pc_style p) (pc_step p) (pc_mask p)).
  2:{ split; [simpl; lia|]. split.
      - intros v Hv. apply elem_of_nil in Hv. destruct Hv.
      - intros v _ Hd. discriminate Hd. }
  destruct (logical_to_screen c (pc_x p, pc_y p)) as [sx sy].
  destruct (py_le (PyInt 0) sx) eqn:E1; simpl.
  2:{ apply py_le_false in E1. cbn [num_val] in E1. change (inject_Z 0) with 0%Q in E1. split; [lia|]. split.
      - intros v Hv. apply elem_of_nil in Hv. destruct Hv.
      - intros v -> _ [H _] _. cbn [fst num_val] in H. lra. }
  destruct (py_lt sx (PyInt (CANVAS_WIDTH c))) eqn:E2; simpl.
  2:{ apply py_lt_false in E2. cbn [num_val] in E2. split; [lia|]. split.
      - intros v Hv. apply elem_of_nil in Hv. destruct Hv.
      - intros v -> _ [_ H] _. cbn [fst num_val] in H. lra. }
  destruct (py_le (PyInt 0) sy) eqn:E3; simpl.
  2:{ apply py_le_false in E3. cbn [num_val] in E3. change (inject_Z 0) with 0%Q in E3. split; [lia|]. split.
      - intros v Hv. apply elem_of_nil in Hv. destruct Hv.
      - intros v -> _ _ [H _]. cbn [snd num_val] in H. lra. }
  destruct (py_lt sy (PyInt (SCREEN_HEIGHT c))) eqn:E4; simpl.
  2:{ apply py_lt_false in E4. cbn [num_val] in E4. split; [lia|]. split.
      - intros v Hv. apply elem_of_nil in Hv. destruct Hv.
      - intros v -> _ _ [_ H]. cbn [snd num_val] in H. lra. }
  split; [lia|]. split.
  - intros v Hv. apply list_elem_of_singleton in Hv. subst v. simpl.
    apply py_le_spec in E1, E3. apply py_lt_spec in E2, E4. simpl in *.
    repeat split; assumption.
  - intros v -> _ _ _. reflexivity.
Qed.

Lemma plot_styled_pixel_visible_witness :
  let c := update_canvas_dimensions 1000 700 in
  let p := Plot (PyInt 5) (PyInt 2) STYLE_USER_DEFINED 4 10 0xF0F0 in
  (PyInt 505, PyInt 348) ∈ plot_styled_pixel c p
  /\ (0 <= num_val (PyInt 505) /\ num_val (PyInt 505) < inject_Z (CANVAS_WIDTH c))%Q
  /\ plot_styled_pixel c (Plot (PyInt 5) (PyInt 2) STYLE_DOTTED 5 10 0)
     = [(PyInt 505, PyInt 348)].
Proof.
  intros c p.
  assert (H : (PyInt 505, PyInt 348) ∈ plot_styled_pixel c p) by apply list_elem_of_here.
  split; [exact H|].
  destruct (plot_styled_pixel_visible c p) as (_ & _ & _ & _ & _ & T & _).
  destruct (T _ H) as (_ & _ & T1 & _). split; [exact T1|].
  destruct (plot_styled_pixel_visible c (Plot (PyInt 5) (PyInt 2) STYLE_DOTTED 5 10 0))
    as (_ & _ & _ & _ & _ & _ & V).
  apply (V (PyInt 505, PyInt 348)); [reflexivity | reflexivity | |];
    cbv; intuition discriminate.
Defined.

(** ** Bresenham's line on integers *)

Lemma bresenham_loop_pixel style mask steep dx dy sx sy u v k :
  0 <= dy <= dx -> 0 <= k <= dx ->
  exists m,
    map pc_point (bresenham_loop style mask steep dx dy (PyInt sx) (PyInt sy)
                    (Z.to_nat (dx + 1)) 0 (PyInt u) (PyInt v) (2 * dy - dx))
      !! Z.to_nat k
    = Some (if steep then zpt (v + m * sy) (u + k * sx) else zpt (u + k * sx) (v + m * sy))
    /\ 0 <= m <= k
    /\ - dx <= 2 * dy * k - 2 * dx * m <= dx.
Proof.
  intros Hdy Hk.
  assert (Hm : exists m, (bres_state dx dy sy (Z.to_nat k) v (2 * dy - dx)).1 = v + m * sy
                         /\ 0 <= m <= k /\ - dx <= 2 * dy * k - 2 * dx * m <= dx).
  { destruct (Z.eq_dec dx 0) as [E0|E0].
    - assert (k = 0) by lia. subst k. exists 0. simpl. lia.
    - destruct (bres_state_inv dx dy sy ltac:(lia) Hdy (Z.to_nat k) v (2 * dy - dx))
        as (m & E & Hr); [lia|].
      rewrite Z2Nat.id in E, Hr by lia. exists m. rewrite E. simpl.
      split; [reflexivity|]. split; nia. }
  destruct Hm as (m & Em & Hm1 & Hm2). exists m.
  split; [|split; assumption].
  rewrite list_lookup_fmap, bresenham_loop_lookup by lia. simpl.
  rewrite Em, Z2Nat.id by lia. destruct steep; reflexivity.
Qed.

Lemma bresenham_loop_steps style mask steep dx dy sx sy n : forall i x y p,
  map (fun c => (pc_step c, pc_total c))
    (bresenham_loop style mask steep dx dy sx sy n i x y p)
  = map (fun j => (j, dx)) (seqZ i (Z.of_nat n)).
Proof.
  induction n as [|n IH]; intros i x y p; [reflexivity|].
  rewrite Nat2Z.inj_succ, seqZ_cons by lia. rewrite Z.pred_succ.
  simpl. destruct (0 <=? p); rewrite IH; destruct steep; reflexivity.
Qed.

(** For integer endpoints Bresenham's line has [n + 1] pixels, where [n] is
    the larger of [|dx|] and [|dy|], numbered 0 to [n]; pixel [k] is [k] steps
    from the start along the major axis, lies within half a pixel of the
    ideal line (twice its cross product with the direction of the line is at
    most [n]), and the next pixel is one of its eight neighbours. *)
Theorem bresenham_pixels (x1 y1 x2 y2 style thickness mask : Z) :
  let calls := bresenham_line (PyInt x1) (PyInt y1) (PyInt x2) (PyInt y2)
                 style thickness mask in
  let out := map pc_point calls in
  let n := Z.max (Z.abs (x2 - x1)) (Z.abs (y2 - y1)) in
  length out = Z.to_nat (n + 1)
  /\ map (fun c => (pc_step c, pc_total c)) calls = map (fun j => (j, n)) (seqZ 0 (n + 1))
  /\ (forall k, 0 <= k <= n ->
        exists a b,
          out !! Z.to_nat k = Some (zpt a b)
          /\ Z.max (Z.abs (a - x1)) (Z.abs (b - y1)) = k
          /\ 2 * Z.abs ((a - x1) * (y2 - y1) - (b - y1) * (x2 - x1)) <= n
          /\ (k < n ->
              exists a' b',
                out !! Z.to_nat (k + 1) = Some (zpt a' b')
                /\ Z.abs (a' - a) <= 1 /\ Z.abs (b' - b) <= 1)).
Proof.
  intros calls out n. subst out calls. unfold bresenham_line.
  simpl py_sub. simpl py_abs. unfold py_gt. rewrite py_lt_int.
  destruct (Z.ltb_spec (Z.abs (x2 - x1)) (Z.abs (y2 - y1))) as [Hsteep|Hflat];
    simpl py_sub; simpl py_abs; simpl py_int; rewrite !py_lt_int.
  - set (dx := Z.abs (y2 - y1)). set (dy := Z.abs (x2 - x1)).
    set (sx := if y1 <? y2 then 1 else -1). set (sy := if x1 <? x2 then 1 else -1).
    replace (if y1 <? y2 then PyInt 1 else PyInt (-1)) with (PyInt sx)
      by (subst sx; destruct (y1 <? y2); reflexivity).
    replace (if x1 <? x2 then PyInt 1 else PyInt (-1)) with (PyInt sy)
      by (subst sy; destruct (x1 <? x2); reflexivity).
    assert (En : n = dx) by (subst n dx; lia). rewrite En.
    split; [rewrite length_map, bresenham_loop_length; reflexivity|].
    split; [rewrite bresenham_loop_steps, Z2Nat.id by lia; reflexivity|].
    intros k Hk.
    destruct (bresenham_loop_pixel style mask true dx dy sx sy y1 x1 k ltac:(lia) Hk)
      as (m & E & Hm1 & Hm2).
    exists (x1 + m * sy), (y1 + k * sx). split; [exact E|].
    assert (Hsx : y2 - y1 = dx * sx)
      by (subst dx sx; destruct (Z.ltb_spec y1 y2); lia).
    assert (Hsy : x2 - x1 = dy * sy)
      by (subst dy sy; destruct (Z.ltb_spec x1 x2); lia).
    assert (Hsx1 : sx = 1 \/ sx = -1) by (subst sx; destruct (y1 <? y2); lia).
    assert (Hsy1 : sy = 1 \/ sy = -1) by (subst sy; destruct (x1 <? x2); lia).
    split; [destruct Hsx1 as [-> | ->], Hsy1 as [-> | ->]; lia|].
    split.
    { rewrite Hsx, Hsy. destruct Hsx1 as [-> | ->], Hsy1 as [-> | ->]; lia. }
    intros Hlt.
    destruct (bresenham_loop_pixel style mask true dx dy sx sy y1 x1 (k + 1)
                ltac:(lia) ltac:(lia)) as (m' & E' & Hm1' & Hm2').
    exists (x1 + m' * sy), (y1 + (k + 1) * sx). split; [exact E'|].
    assert (m' - m = 0 \/ m' - m = 1) by nia.
    destruct Hsx1 as [-> | ->], Hsy1 as [-> | ->]; lia.
  - set (dx := Z.abs (x2 - x1)). set (dy := Z.abs (y2 - y1)).
    set (sx := if x1 <? x2 then 1 else -1). set (sy := if y1 <? y2 then 1 else -1).
    replace (if x1 <? x2 then PyInt 1 else PyInt (-1)) with (PyInt sx)
      by (subst sx; destruct (x1 <? x2); reflexivity).
    replace (if y1 <? y2 then PyInt 1 else PyInt (-1)) with (PyInt sy)
      by (subst sy; destruct (y1 <? y2); reflexivity).
    assert (En : n = dx) by (subst n dx; lia). rewrite En.
    split; [rewrite length_map, bresenham_loop_length; reflexivity|].
    split; [rewrite bresenham_loop_steps, Z2Nat.id by lia; reflexivity|].
    intros k Hk.
    destruct (bresenham_loop_pixel style mask false dx dy sx sy x1 y1 k ltac:(lia) Hk)
      as (m & E & Hm1 & Hm2).
    exists (x1 + k * sx), (y1 + m * sy). split; [exact E|].
    assert (Hsx : x2 - x1 = dx * sx)
      by (subst dx sx; destruct (Z.ltb_spec x1 x2); lia).
    assert (Hsy : y2 - y1 = dy * sy)
      by (subst dy sy; destruct (Z.ltb_spec y1 y2); lia).
    assert (Hsx1 : sx = 1 \/ sx = -1) by (subst sx; destruct (x1 <? x2); lia).
    assert (Hsy1 : sy = 1 \/ sy = -1) by (subst sy; destruct (y1 <? y2); lia).
    split; [destruct Hsx1 as [-> | ->], Hsy1 as [-> | ->]; lia|].
    split.
    { rewrite Hsx, Hsy. destruct Hsx1 as [-> | ->], Hsy1 as [-> | ->]; lia. }
    intros Hlt.
    destruct (bresenham_loop_pixel style mask false dx dy sx sy x1 y1 (k + 1)
                ltac:(lia) ltac:(lia)) as (m' & E' & Hm1' & Hm2').
    exists (x1 + (k + 1) * sx), (y1 + m' * sy). split; [exact E'|].
    assert (m' - m = 0 \/ m' - m = 1) by nia.
    destruct Hsx1 as [-> | ->], Hsy1 as [-> | ->]; lia.
Qed.

Lemma bresenham_pixels_witness :
  let out := map pc_point (bresenham_line (PyInt 0) (PyInt 0) (PyInt 3) (PyInt 7)
                             STYLE_SOLID 1 0) in
  0 <= 4 <= Z.max (Z.abs (3 - 0)) (Z.abs (7 - 0))
  /\ exists a b, out !! 4%nat = Some (zpt a b)
                 /\ 2 * Z.abs ((a - 0) * (7 - 0) - (b - 0) * (3 - 0)) <= 7.
Proof.
  intros out. split; [lia|].
  destruct (bresenham_pixels 0 0 3 7 STYLE_SOLID 1 0) as (_ & _ & T).
  destruct (T 4 ltac:(lia)) as (a & b & E & _ & Hacc & _).
  exists a, b. split; [exact E | exact Hacc].
Defined.

(** ** Symmetrical DDA *)

Lemma sym_back_loop_map style mask steps x_inc y_inc off n : forall i x y,
  sym_back_loop style mask steps x_inc y_inc off n i x y
  = map (fun k => Plot (PyInt (py_round (Nat.iter k (fun a => fl_sub a x_inc) x)))
                       (PyInt (py_round (Nat.iter k (fun a => fl_sub a y_inc) y)))
                       style (i + Z.of_nat k + off) steps mask)
        (seq 0 n).
Proof.
  induction n as [|n IH]; intros i x y; [reflexivity|].
  simpl. f_equal.
  - f_equal. lia.
  - rewrite IH, <- seq_shift, map_map. apply map_ext. intros k.
    rewrite !Nat.iter_succ_r. f_equal. lia.
Qed.

(** Symmetrical DDA between integer points of magnitude at most [2^53]
    (the integers that convert to float unchanged) makes [steps + 1] plots,
    numbered 0 to [steps] in the order they are made, through both passes;
    the first plot is P1 itself, and plot number [steps // 2 + 1], the first
    of the second pass, is P2 itself (there is no second pass when
    P1 = P2). *)
Theorem symmetrical_dda_plots (x1 y1 x2 y2 style thickness mask : Z) :
  Z.abs x1 <= 2 ^ 53 -> Z.abs y1 <= 2 ^ 53 ->
  Z.abs x2 <= 2 ^ 53 -> Z.abs y2 <= 2 ^ 53 ->
  let steps := Z.max (Z.abs (x2 - x1)) (Z.abs (y2 - y1)) in
  let S := symmetrical_dda_line (PyInt x1) (PyInt y1) (PyInt x2) (PyInt y2)
             style thickness mask in
  map (fun p => (pc_step p, pc_total p, pc_style p, pc_mask p)) S
    = map (fun i => (i, steps, style, mask)) (seqZ 0 (steps + 1))
  /\ S !! 0%nat = Some (Plot (PyInt x1) (PyInt y1) style 0 steps mask)
  /\ S !! Z.to_nat (steps / 2 + 1)
     = if steps =? 0 then None
       else Some (Plot (PyInt x2) (PyInt y2) style (steps / 2 + 1) steps mask).
Proof.
  intros Hx1 Hy1 Hx2 Hy2 steps S. subst S. unfold symmetrical_dda_line.
  rewrite dda_steps_int. fold steps.
  destruct (Z.eqb_spec steps 0) as [E|E].
  { rewrite E. repeat split; reflexivity. }
  assert (Hnn : 0 <= steps) by (unfold steps; lia).
  assert (H2 : 0 <= steps / 2 < steps).
  { clearbody steps. split; [apply Z.div_pos|apply Z.div_lt]; lia. }
  set (h := steps / 2) in *.
  rewrite dda_loop_map, sym_back_loop_map.
  split; [|split].
  - rewrite map_app, !map_map. cbn [pc_step pc_total pc_style pc_mask].
    replace (steps + 1) with ((h + 1) + (steps - h)) by lia.
    rewrite (seqZ_app 0 (h + 1) (steps - h)) by lia.
    rewrite map_app. f_equal.
    + unfold seqZ. change (?f <$> ?l) with (map f l). rewrite map_map.
      apply map_ext. intros k. do 3 f_equal. lia.
    + unfold seqZ. change (?f <$> ?l) with (map f l). rewrite map_map.
      apply map_ext. intros k. do 3 f_equal; lia.
  - rewrite lookup_app_l by (rewrite length_map, length_seq; lia).
    replace (Z.to_nat (h + 1)) with (S (Z.to_nat h)) by lia.
    cbn [seq map lookup list_lookup Nat.iter nat_rect].
    rewrite !py_round_float_int by assumption. f_equal; f_equal; lia.
  - rewrite lookup_app_r by (rewrite length_map, length_seq; lia).
    rewrite length_map, length_seq, Nat.sub_diag.
    replace (Z.to_nat (steps - h)) with (S (Z.to_nat (steps - h - 1))) by lia.
    cbn [seq map lookup list_lookup Nat.iter nat_rect].
    rewrite !py_round_float_int by assumption. f_equal; f_equal; lia.
Qed.

Lemma symmetrical_dda_plots_witness :
  let S := symmetrical_dda_line (PyInt 0) (PyInt 0) (PyInt 5) (PyInt 3) STYLE_DOTTED 1 0 in
  map (fun p => (pc_step p, pc_total p, pc_style p, pc_mask p)) S
    = map (fun i => (i, 5, STYLE_DOTTED, 0)) (seqZ 0 6)
  /\ S !! 0%nat = Some (Plot (PyInt 0) (PyInt 0) STYLE_DOTTED 0 5 0)
  /\ S !! 3%nat = Some (Plot (PyInt 5) (PyInt 3) STYLE_DOTTED 3 5 0).
Proof.
  exact (symmetrical_dda_plots 0 0 5 3 STYLE_DOTTED 1 0
           ltac:(cbv; discriminate) ltac:(cbv; discriminate)
           ltac:(cbv; discriminate) ltac:(cbv; discriminate)).
Defined.

(** ** The transformation loop *)

Lemma frames_bind {A B} K (m : dictM A) (f : A -> dictM B) :
  frames K m -> (forall a, frames K (f a)) -> frames K (m ≫= f).
Proof.
  intros Hm Hf d k Hk. unfold mbind, dictM_bind.
  specialize (Hm d k Hk). destruct (m d) as [[a|] d1]; simpl in *.
  - rewrite (Hf a d1 k Hk). exact Hm.
  - exact Hm.
Qed.

Lemma frames_getitem K k : frames K (getitem k).
Proof. intros d k' _. reflexivity. Qed.

Lemma frames_setitem K k v : k ∈ K -> frames K (setitem k v).
Proof.
  intros Hin d k' Hk'. unfold setitem. simpl.
  apply lookup_insert_ne. intros ->. contradiction.
Qed.

Lemma frames_pass K : frames K pass.
Proof. intros d k _. reflexivity. Qed.

Ltac notin_tac :=
  repeat (apply not_elem_of_cons; split; [discriminate|]); apply not_elem_of_nil.

Ltac frames_tac :=
  repeat first
    [ apply frames_pass
    | apply frames_getitem
    | apply frames_setitem; by repeat constructor
    | apply frames_bind; [|intros ?]
    | match goal with
      | |- frames _ (let '(_, _) := ?p in _) => destruct p
      end ].

Lemma total_on_bind K (m1 m2 : dictM unit) :
  total_on K m1 -> total_on K m2 -> total_on K (m1;; m2).
Proof.
  intros H1 H2 d Hd. destruct (H1 d Hd) as (d1 & E1 & D1).
  destruct (H2 d1) as (d2 & E2 & D2).
  { intros k Hk. apply elem_of_dom. rewrite D1. apply elem_of_dom. auto. }
  exists d2. unfold mbind, dictM_bind. rewrite E1. split; [exact E2|congruence].
Qed.

Lemma total_on_pass K : total_on K pass.
Proof. intros d _. exists d. split; reflexivity. Qed.

Lemma total_on_update K k (f : num -> num) :
  k ∈ K -> total_on K (x ← getitem k; setitem k (f x)).
Proof.
  intros Hin d Hd. destruct (Hd k Hin) as [x Hx].
  exists (<[k := f x]> d). unfold mbind, dictM_bind, getitem, setitem. rewrite Hx.
  split; [reflexivity|]. apply dom_insert_lookup_L. eauto.
Qed.

Lemma total_on_point K kx ky (f : num -> num -> num * num) :
  kx ∈ K -> ky ∈ K ->
  total_on K (px ← getitem kx; py ← getitem ky;
              setitem kx (f px py).1;; setitem ky (f px py).2).
Proof.
  intros Hx Hy d Hd. destruct (Hd kx Hx) as [x Ex]. destruct (Hd ky Hy) as [y Ey].
  exists (<[ky := (f x y).2]> (<[kx := (f x y).1]> d)).
  unfold mbind, dictM_bind, getitem, setitem. rewrite Ex, Ey.
  split; [reflexivity|].
  rewrite dom_insert_lookup_L.
  - apply dom_insert_lookup_L. eauto.
  - destruct (decide (ky = kx)) as [->|Hne].
    + rewrite lookup_insert_eq. eauto.
    + rewrite lookup_insert_ne by congruence. eauto.
Qed.

Lemma type_keys_well_formed type d :
  well_formed_params type d = true -> forall k, k ∈ type_keys type -> is_Some (d !! k).
Proof.
  unfold well_formed_params, type_keys, has_key. intros H k Hk.
  destruct (String.eqb type "line");
    [|destruct (String.eqb type "circle"); [|destruct (String.eqb type "ellipse")]];
    repeat match goal with
           | H : _ && _ = true |- _ => apply andb_true_iff in H; destruct H
           | H : match ?d !! ?k with Some _ => true | None => false end = true |- _ =>
               destruct (d !! k) eqn:?; [clear H|discriminate H]
           end;
    repeat match goal with
           | H : _ ∈ _ :: _ |- _ => apply elem_of_cons in H; destruct H as [->|H]
           | H : _ ∈ [] |- _ => apply elem_of_nil in H; contradiction
           end; eauto.
Qed.

Section Loop.
Context {trig : Trig}.

Lemma apply_transformation_frames type t :
  frames (written_keys type t) (apply_transformation type t).
Proof.
  unfold written_keys, apply_transformation.
  destruct (String.eqb type "line"); [|destruct (String.eqb type "circle");
    [|destruct (String.eqb type "ellipse")]]; cbn [orb];
    destruct t; unfold additem, mulitem, negitem, scale_point, rotate_point,
      reflect_line_point; repeat case_match; frames_tac.
Qed.

Lemma apply_transformation_total type t :
  total_on (type_keys type) (apply_transformation type t).
Proof.
  unfold type_keys, apply_transformation.
  assert (Hrot : forall K kx ky a cx cy, kx ∈ K -> ky ∈ K ->
            total_on K (rotate_point kx ky a cx cy)).
  { intros K kx ky a cx cy Hx Hy. unfold rotate_point.
    exact (total_on_point K kx ky
      (fun px py =>
         (py_add (py_sub (py_mul (py_sub px cx) (math_cos a))
                         (py_mul (py_sub py cy) (math_sin a))) cx,
          py_add (py_add (py_mul (py_sub px cx) (math_sin a))
                         (py_mul (py_sub py cy) (math_cos a))) cy)) Hx Hy). }
  assert (Hsc : forall K kx ky sx sy fx fy, kx ∈ K -> ky ∈ K ->
            total_on K (scale_point kx ky sx sy fx fy)).
  { intros K kx ky sx sy fx fy Hx Hy. unfold scale_point.
    exact (total_on_point K kx ky
      (fun px py => (py_add (py_mul (py_sub px fx) sx) fx,
                     py_add (py_mul (py_sub py fy) sy) fy)) Hx Hy). }
  assert (Hrf : forall K kx ky p1 p2, kx ∈ K -> ky ∈ K ->
            total_on K (reflect_line_point kx ky p1 p2)).
  { intros K kx ky p1 p2 Hx Hy d Hd.
    destruct (total_on_point K kx ky
      (fun px py => reflect_point_across_line px py p1.1 p1.2 p2.1 p2.2) Hx Hy d Hd)
      as (d' & E & D).
    exists d'. split; [|exact D]. rewrite <- E. unfold reflect_line_point.
    unfold mbind, dictM_bind, getitem.
    destruct (d !! kx) as [px|]; [|reflexivity]. destruct (d !! ky) as [py|]; [|reflexivity].
    destruct (reflect_point_across_line px py p1.1 p1.2 p2.1 p2.2); reflexivity. }
  assert (Hup : forall K k (f : num -> num), k ∈ K ->
            total_on K (x ← getitem k; setitem k (f x))) by (intros; apply total_on_update; auto).
  destruct (String.eqb type "line"); [|destruct (String.eqb type "circle");
    [|destruct (String.eqb type "ellipse")]]; cbn [orb];
    destruct t; unfold additem, mulitem, negitem; repeat case_match;
    repeat first [apply total_on_pass | apply total_on_bind
                 | apply Hrot; by repeat constructor | apply Hsc; by repeat constructor
                 | apply Hrf; by repeat constructor | apply Hup; by repeat constructor].
Qed.

Lemma apply_transformation_list_total type ts :
  total_on (type_keys type) (apply_transformation_list type ts).
Proof.
  induction ts as [|t ts IH]; simpl.
  - apply total_on_pass.
  - apply total_on_bind; [apply apply_transformation_total|exact IH].
Qed.

Lemma apply_transformation_list_app type ts1 ts2 d :
  apply_transformation_list type (ts1 ++ ts2) d
  = (apply_transformation_list type ts1;; apply_transformation_list type ts2) d.
Proof.
  revert d. induction ts1 as [|t ts1 IH]; intros d; simpl.
  - reflexivity.
  - unfold mbind, dictM_bind in *.
    destruct (apply_transformation type t d) as [[[]|] d1]; [|reflexivity].
    apply IH.
Qed.

End Loop.

Lemma has_key_dom (d d' : gmap string num) k : dom d' = dom d -> has_key d' k = has_key d k.
Proof.
  intros D. unfold has_key.
  destruct (d' !! k) eqn:E1, (d !! k) eqn:E2; try reflexivity.
  - apply mk_is_Some, elem_of_dom in E1. rewrite D in E1. apply elem_of_dom in E1.
    rewrite E2 in E1. destruct E1; discriminate.
  - apply mk_is_Some, elem_of_dom in E2. rewrite <- D in E2. apply elem_of_dom in E2.
    rewrite E1 in E2. destruct E2; discriminate.
Qed.

Lemma well_formed_params_dom type (d d' : gmap string num) :
  dom d' = dom d -> well_formed_params type d' = well_formed_params type d.
Proof.
  intros D. unfold well_formed_params. rewrite !(has_key_dom d d') by exact D. reflexivity.
Qed.

Section Effective.
Context {trig : Trig}.

Lemma apply_transformation_list_frames type ts d k :
  (forall t, t ∈ ts -> k ∉ written_keys type t) ->
  (apply_transformation_list type ts d).2 !! k = d !! k.
Proof.
  revert d. induction ts as [|t ts IH]; intros d Hk; [reflexivity|].
  simpl. unfold mbind, dictM_bind.
  pose proof (apply_transformation_frames type t d k) as Ht.
  destruct (apply_transformation type t d) as [[[]|] d1]; simpl in Ht.
  - rewrite IH by (intros t' Ht'; apply Hk; right; exact Ht').
    apply Ht, Hk. left.
  - apply Ht, Hk. left.
Qed.

(** Computing the effective parameters of an object whose stored
    parameters have the entries of its type never stops on a missing entry
    ([KeyError], the one exception of the model, whose numbers are all
    finite), whatever the records of its list: the result is a new
    dictionary with the keys of the stored one, so again with the entries of
    the type.  An entry under a key that no record of the list assigns is
    the stored one; for an object that is no line, circle or ellipse the
    result is a copy of the stored parameters. *)
Theorem effective_params_well_formed h obj o d ts :
  h !! obj = Some (CObj o) ->
  h !! obj_params o = Some (CDict d) ->
  h !! obj_transformations o = Some (CList ts) ->
  well_formed_params (obj_type o) d = true ->
  exists eff,
    apply_transformations obj h
      = (Some (fresh (dom h)), <[fresh (dom h) := CDict eff]> h)
    /\ dom eff = dom d
    /\ well_formed_params (obj_type o) eff = true
    /\ (forall k, (forall t, t ∈ ts -> k ∉ written_keys (obj_type o) t) ->
                  eff !! k = d !! k)
    /\ (type_keys (obj_type o) = [] -> eff = d).
Proof.
  intros Ho Hd Ht Hwf.
  destruct (apply_transformation_list_total (obj_type o) ts d
              (type_keys_well_formed _ _ Hwf)) as (eff & E & D).
  exists eff. rewrite (apply_transformations_spec h obj o d ts Ho Hd Ht), E.
  split; [reflexivity|]. split; [exact D|].
  split; [rewrite (well_formed_params_dom _ d eff D); exact Hwf|].
  assert (Hfr : forall k, (forall t, t ∈ ts -> k ∉ written_keys (obj_type o) t) ->
                          eff !! k = d !! k).
  { intros k Hk. pose proof (apply_transformation_list_frames (obj_type o) ts d k Hk) as F.
    rewrite E in F. exact F. }
  split; [exact Hfr|].
  intros Hty. apply map_eq. intros k. apply Hfr. intros t _.
  unfold type_keys in Hty. unfold written_keys.
  destruct (String.eqb (obj_type o) "line"); [discriminate|].
  destruct (String.eqb (obj_type o) "circle"); [discriminate|].
  destruct (String.eqb (obj_type o) "ellipse"); [discriminate|].
  destruct t; apply not_elem_of_nil.
Qed.

Lemma fold_left_mul_cons (l : list num) (r sx : num) :
  fold_left py_mul l (py_mul r sx) = fold_left py_mul (sx :: l) r.
Proof. reflexivity. Qed.

(** The effective radius of a circle is its stored radius multiplied by the
    factor [sx] of each Scale record of its list, in the order of the list;
    the effective radii of an ellipse are [rx] multiplied by the factors
    [sx] and [ry] multiplied by the factors [sy].  Records of the other
    kinds have no effect on the radii. *)
Theorem effective_radii (ts : list transformation) (d : gmap string num) :
  (well_formed_params "circle" d = true ->
   forall r, d !! "r" = Some r ->
     exists eff, apply_transformation_list "circle" ts d = (Some tt, eff)
       /\ eff !! "r" = Some (fold_left py_mul (scale_factors_x ts) r))
  /\ (well_formed_params "ellipse" d = true ->
      forall rx ry, d !! "rx" = Some rx -> d !! "ry" = Some ry ->
        exists eff, apply_transformation_list "ellipse" ts d = (Some tt, eff)
          /\ eff !! "rx" = Some (fold_left py_mul (scale_factors_x ts) rx)
          /\ eff !! "ry" = Some (fold_left py_mul (scale_factors_y ts) ry)).
Proof.
  split.
  - revert d. induction ts as [|t ts IH]; intros d Hwf r Hr.
    { exists d. split; [reflexivity|exact Hr]. }
    destruct (apply_transformation_total "circle" t d (type_keys_well_formed _ _ Hwf))
      as (d1 & E1 & D1).
    assert (Hwf1 : well_formed_params "circle" d1 = true)
      by (rewrite (well_formed_params_dom _ d d1 D1); exact Hwf).
    assert (Hr1 : d1 !! "r"
                  = Some (match t with Scale sx _ _ _ => py_mul r sx | _ => r end)).
    { pose proof (apply_transformation_frames "circle" t d "r") as F.
      rewrite E1 in F. simpl in F.
      destruct t; try (rewrite F by notin_tac; exact Hr).
      simpl in E1. unfold mulitem, mbind, dictM_bind, getitem, setitem in E1.
      rewrite Hr in E1. injection E1 as <-. apply lookup_insert_eq. }
    destruct (IH d1 Hwf1 _ Hr1) as (eff & E & R).
    exists eff. simpl apply_transformation_list. unfold mbind, dictM_bind. rewrite E1.
    split; [exact E|]. rewrite R. destruct t; reflexivity.
  - revert d. induction ts as [|t ts IH]; intros d Hwf rx ry Hrx Hry.
    { exists d. split; [reflexivity|]. split; assumption. }
    destruct (apply_transformation_total "ellipse" t d (type_keys_well_formed _ _ Hwf))
      as (d1 & E1 & D1).
    assert (Hwf1 : well_formed_params "ellipse" d1 = true)
      by (rewrite (well_formed_params_dom _ d d1 D1); exact Hwf).
    assert (Hr1 : d1 !! "rx"
                  = Some (match t with Scale sx _ _ _ => py_mul rx sx | _ => rx end)
                  /\ d1 !! "ry"
                     = Some (match t with Scale _ sy _ _ => py_mul ry sy | _ => ry end)).
    { pose proof (apply_transformation_frames "ellipse" t d) as F.
      rewrite E1 in F. simpl in F.
      destruct t; try (rewrite !F by notin_tac; split; assumption).
      simpl in E1. unfold mulitem, mbind, dictM_bind, getitem, setitem in E1.
      rewrite Hrx in E1. rewrite lookup_insert_ne, Hry in E1 by done.
      injection E1 as <-. split.
      - rewrite lookup_insert_ne by done. apply lookup_insert_eq.
      - apply lookup_insert_eq. }
    destruct Hr1 as [Hrx1 Hry1].
    destruct (IH d1 Hwf1 _ _ Hrx1 Hry1) as (eff & E & Rx & Ry).
    exists eff. simpl apply_transformation_list. unfold mbind, dictM_bind. rewrite E1.
    split; [exact E|]. rewrite Rx, Ry. destruct t; split; reflexivity.
Qed.

(** A record appended to the list of an object acts on the effective
    parameters the object had before: after the append, the effective
    parameters are those of the list so far with the record applied to them
    (and computing them raises if either part does). *)
Theorem appended_record_acts_on_effective (s : state) obj o d ts t :
  heap s !! obj = Some (CObj o) ->
  heap s !! obj_params o = Some (CDict d) ->
  heap s !! obj_transformations o = Some (CList ts) ->
  exists s',
    append_transformation obj t s = Some s'
    /\ objects_to_draw s' = objects_to_draw s
    /\ heap s' !! obj = Some (CObj o)
    /\ heap s' !! obj_params o = Some (CDict d)
    /\ heap s' !! obj_transformations o = Some (CList (ts ++ [t]))
    /\ apply_transformations obj (heap s')
       = (let '(res, eff) :=
            (apply_transformation_list (obj_type o) ts;;
             apply_transformation (obj_type o) t) d in
          (match res with Some _ => Some (fresh (dom (heap s'))) | None => None end,
           <[fresh (dom (heap s')) := CDict eff]> (heap s'))).
Proof.
  intros Ho Hd Ht. unfold append_transformation. rewrite Ho, Ht.
  eexists. split; [reflexivity|]. destruct s; simpl in *.
  assert (N1 : obj_transformations o <> obj) by congruence.
  assert (N2 : obj_transformations o <> obj_params o) by congruence.
  assert (Ho' : <[obj_transformations o := CList (ts ++ [t])]> heap0 !! obj = Some (CObj o))
    by (rewrite lookup_insert_ne by exact N1; exact Ho).
  assert (Hd' : <[obj_transformations o := CList (ts ++ [t])]> heap0 !! obj_params o
                = Some (CDict d))
    by (rewrite lookup_insert_ne by exact N2; exact Hd).
  assert (Ht' : <[obj_transformations o := CList (ts ++ [t])]> heap0
                  !! obj_transformations o = Some (CList (ts ++ [t])))
    by apply lookup_insert_eq.
  split; [reflexivity|]. split; [exact Ho'|]. split; [exact Hd'|]. split; [exact Ht'|].
  rewrite (apply_transformations_spec _ obj o d (ts ++ [t]) Ho' Hd' Ht').
  rewrite apply_transformation_list_app. simpl apply_transformation_list.
  unfold mbind, dictM_bind, pass, mret, dictM_ret.
  destruct (apply_transformation_list (obj_type o) ts d) as [[[]|] d1]; [|reflexivity].
  destruct (apply_transformation (obj_type o) t d1) as [[[]|] d2]; reflexivity.
Qed.

End Effective.

Lemma effective_params_well_formed_witness :
  let d : gmap string num :=
    <["xc" := PyInt 0]> (<["yc" := PyInt 0]> (<["r" := PyInt 10]> ∅)) in
  let ts := [Translate (PyInt 5) (PyInt 5); Reflect "x"] in
  let o := Obj 0 "circle" f_draw_circle "midpoint_circle" 1%positive (0, 0, 1)%Q 1 1 0
             2%positive in
  let h : gmap loc cell :=
    <[3%positive := CObj o]> (<[2%positive := CList ts]> (<[1%positive := CDict d]> ∅)) in
  exists eff,
    apply_transformations (trig := no_trig) 3%positive h
      = (Some 4%positive, <[4%positive := CDict eff]> h)
    /\ eff !! "r" = Some (PyInt 10).
Proof.
  intros d ts o h.
  destruct (effective_params_well_formed (trig := no_trig) h 3%positive o d ts)
    as (eff & E & _ & _ & F & _); try reflexivity.
  exists eff. split; [exact E|].
  rewrite F; [reflexivity|].
  intros t Ht. subst ts.
  repeat (apply elem_of_cons in Ht; destruct Ht as [->|Ht]);
    [| |apply elem_of_nil in Ht; contradiction]; vm_compute; notin_tac.
Defined.

Lemma effective_radii_witness :
  let d : gmap string num :=
    <["xc" := PyInt 0]> (<["yc" := PyInt 0]> (<["r" := PyInt 10]> ∅)) in
  let ts := [Scale (PyInt 2) (PyInt 7) (PyInt 1) (PyInt 1); Translate (PyInt 5) (PyInt 5);
             Scale (PyInt 3) (PyInt 1) (PyInt 0) (PyInt 0)] in
  exists eff,
    apply_transformation_list (trig := no_trig) "circle" ts d = (Some tt, eff)
    /\ eff !! "r" = Some (PyInt 60).
Proof.
  intros d ts.
  destruct (effective_radii (trig := no_trig) ts d) as [C _].
  destruct (C eq_refl (PyInt 10) eq_refl) as (eff & E & R).
  exists eff. split; [exact E|exact R].
Defined.

Lemma appended_record_acts_on_effective_witness :
  let d : gmap string num :=
    <["x1" := PyInt 0]> (<["y1" := PyInt 0]> (<["x2" := PyInt 10]> (<["y2" := PyInt 0]> ∅))) in
  let ts := [Translate (PyInt 5) (PyInt 5)] in
  let o := Obj 0 "line" f_dda_line "dda_line" 1%positive (0, 0, 1)%Q 1 1 0 2%positive in
  let h : gmap loc cell :=
    <[3%positive := CObj o]> (<[2%positive := CList ts]> (<[1%positive := CDict d]> ∅)) in
  let s := State h [3%positive] MODE_IDLE (Some f_dda_line) STYLE_SOLID 1 0 (0, 0, 0)%Q []
             (-1) 1 (update_canvas_dimensions 1000 700) None in
  exists s', append_transformation 3%positive (Reflect "y") s = Some s'
             /\ heap s' !! 2%positive
                = Some (CList [Translate (PyInt 5) (PyInt 5); Reflect "y"]).
Proof.
  intros d ts o h s.
  destruct (appended_record_acts_on_effective (trig := no_trig) s 3%positive o d ts
              (Reflect "y")) as (s' & E & _ & _ & _ & L & _); try reflexivity.
  exists s'. split; [exact E|exact L].
Defined.

(** ** Reflection across a line *)

Lemma Qsq_sum_zero a b : (a * a + b * b == 0)%Q -> (a == 0)%Q /\ (b == 0)%Q.
Proof.
  intros H. pose proof (Qsq_nonneg a). pose proof (Qsq_nonneg b).
  split; apply Qsq_zero; lra.
Qed.

(** A point has one mirror image in a line through two different points. *)
Lemma mirror_image_unique px py qx qy qx' qy' ax ay bx b_y :
  ~ ((ax == bx)%Q /\ (ay == b_y)%Q) ->
  mirror_image px py qx qy ax ay bx b_y ->
  mirror_image px py qx' qy' ax ay bx b_y ->
  (qx == qx')%Q /\ (qy == qy')%Q.
Proof.
  intros Hne [M1 P1] [M2 P2].
  set (dx := (bx - ax)%Q) in *. set (dy := (b_y - ay)%Q) in *.
  set (u := (qx - qx')%Q). set (v := (qy - qy')%Q).
  assert (E1 : (u * dy - v * dx == 0)%Q) by (unfold u, v; lra).
  assert (E2 : (u * dx + v * dy == 0)%Q) by (unfold u, v; lra).
  assert (N : ~ (dx * dx + dy * dy == 0)%Q).
  { intros Z. apply Qsq_sum_zero in Z. destruct Z as [Zx Zy].
    apply Hne. unfold dx, dy in *. split; lra. }
  assert (U : (u * (dx * dx + dy * dy) == 0)%Q).
  { setoid_replace (u * (dx * dx + dy * dy))%Q
      with ((u * dx + v * dy) * dx + (u * dy - v * dx) * dy)%Q using relation Qeq by ring.
    rewrite E1, E2. ring. }
  assert (V : (v * (dx * dx + dy * dy) == 0)%Q).
  { setoid_replace (v * (dx * dx + dy * dy))%Q
      with ((u * dx + v * dy) * dy - (u * dy - v * dx) * dx)%Q using relation Qeq by ring.
    rewrite E1, E2. ring. }
  destruct (Qmult_integral _ _ U) as [U0|]; [|contradiction].
  destruct (Qmult_integral _ _ V) as [V0|]; [|contradiction].
  unfold u, v in *. split; lra.
Qed.

Lemma reflect_point_mirror px py x1 y1 x2 y2 :
  ~ ((num_val x1 == num_val x2)%Q /\ (num_val y1 == num_val y2)%Q) ->
  mirror_image (num_val px) (num_val py)
    (num_val (reflect_point_across_line px py x1 y1 x2 y2).1)
    (num_val (reflect_point_across_line px py x1 y1 x2 y2).2)
    (num_val x1) (num_val y1) (num_val x2) (num_val y2).
Proof.
  intros Hne. unfold reflect_point_across_line, mirror_image.
  destruct (py_eq x1 x2) eqn:Ex; [apply py_eq_spec in Ex|];
    (destruct (py_eq y1 y2) eqn:Ey; [apply py_eq_spec in Ey|]); cbn [andb fst snd].
  - exfalso. apply Hne. split; assumption.
  - rewrite num_val_sub, num_val_mul. simpl (num_val (PyInt 2)).
    change (inject_Z 2) with 2%Q. rewrite Ex. split; ring.
  - rewrite num_val_sub, num_val_mul. simpl (num_val (PyInt 2)).
    change (inject_Z 2) with 2%Q. rewrite Ey. split; ring.
  - assert (Nx : ~ (num_val x2 - num_val x1 == 0)%Q).
    { intros Z. apply not_true_iff_false in Ex. apply Ex. apply py_eq_spec. lra. }
    set (m := py_div (py_sub y2 y1) (py_sub x2 x1)).
    assert (Hm : (num_val m == (num_val y2 - num_val y1) / (num_val x2 - num_val x1))%Q).
    { unfold m. rewrite num_val_div, !num_val_sub. reflexivity. }
    assert (Nd : ~ (1 + num_val m * num_val m == 0)%Q).
    { pose proof (Qsq_nonneg (num_val m)). lra. }
    repeat rewrite ?num_val_div, ?num_val_sub, ?num_val_add, ?num_val_mul.
    simpl (num_val (PyInt 2)). simpl (num_val (PyInt 1)).
    change (inject_Z 2) with 2%Q. change (inject_Z 1) with 1%Q.
    set (M := num_val m) in *.
    assert (Hy : (num_val y2 - num_val y1 == M * (num_val x2 - num_val x1))%Q).
    { rewrite Hm. field. exact Nx. }
    set (X1 := num_val x1) in *. set (Y1 := num_val y1) in *.
    set (DX := (num_val x2 - X1)%Q) in *.
    setoid_replace (num_val y2 - Y1)%Q with (M * DX)%Q using relation Qeq by exact Hy.
    split; field; exact Nd.
Qed.

(** Read in exact arithmetic, [reflect_point_across_line] returns the
    mirror image of the point in the line through two different points: the
    middle of the point and the result is on the line and the segment from
    one to the other is perpendicular to the line.  So reflecting the result
    again gives the point back, and a point of the line is its own image. *)
Theorem reflect_point_is_mirror_image (px py x1 y1 x2 y2 : num) :
  ~ ((num_val x1 == num_val x2)%Q /\ (num_val y1 == num_val y2)%Q) ->
  let P' := reflect_point_across_line px py x1 y1 x2 y2 in
  let P'' := reflect_point_across_line P'.1 P'.2 x1 y1 x2 y2 in
  mirror_image (num_val px) (num_val py) (num_val P'.1) (num_val P'.2)
    (num_val x1) (num_val y1) (num_val x2) (num_val y2)
  /\ ((num_val P''.1 == num_val px)%Q /\ (num_val P''.2 == num_val py)%Q)
  /\ (((num_val px - num_val x1) * (num_val y2 - num_val y1)
       - (num_val py - num_val y1) * (num_val x2 - num_val x1) == 0)%Q ->
      (num_val P'.1 == num_val px)%Q /\ (num_val P'.2 == num_val py)%Q).
Proof.
  intros Hne P' P''.
  pose proof (reflect_point_mirror px py x1 y1 x2 y2 Hne) as M1. fold P' in M1.
  pose proof (reflect_point_mirror P'.1 P'.2 x1 y1 x2 y2 Hne) as M2. fold P'' in M2.
  split; [exact M1|]. split.
  - apply (mirror_image_unique (num_val P'.1) (num_val P'.2) _ _ _ _
             (num_val x1) (num_val y1) (num_val x2) (num_val y2) Hne M2).
    destruct M1 as [A B]. split; lra.
  - intros On.
    apply (mirror_image_unique (num_val px) (num_val py) _ _ _ _
             (num_val x1) (num_val y1) (num_val x2) (num_val y2) Hne M1).
    split; lra.
Qed.

Lemma reflect_point_is_mirror_image_witness :
  reflect_point_across_line (PyInt 3) (PyInt 1) (PyInt 0) (PyInt 0) (PyInt 2) (PyInt 2)
  = (PyFloat 1, PyFloat 3)
  /\ mirror_image 3 1 1 3 0 0 2 2.
Proof.
  split; [vm_compute; reflexivity|].
  assert (Hne : ~ ((num_val (PyInt 0) == num_val (PyInt 2))%Q
                   /\ (num_val (PyInt 0) == num_val (PyInt 2))%Q)).
  { intros [H _]. vm_compute in H. discriminate H. }
  exact (proj1 (reflect_point_is_mirror_image (PyInt 3) (PyInt 1) (PyInt 0) (PyInt 0)
                  (PyInt 2) (PyInt 2) Hne)).
Defined.

(** ** The persisted file *)

Lemma serialize_weaken (h h' : gmap loc cell) obj j :
  h ⊆ h' -> serialize h obj = Some j -> serialize h' obj = Some j.
Proof.
  unfold serialize. intros Hs E.
  destruct (h !! obj) as [[| |o]|] eqn:Eo; try discriminate.
  rewrite (lookup_weaken _ _ _ _ Eo Hs).
  destruct (h !! obj_params o) as [[d| |]|] eqn:Ep; try discriminate.
  destruct (h !! obj_transformations o) as [[|ts|]|] eqn:Et; try discriminate.
  rewrite (lookup_weaken _ _ _ _ Ep Hs), (lookup_weaken _ _ _ _ Et Hs). exact E.
Qed.

Lemma algo_map_name f : algo_map (algo_name_map f) = Some f.
Proof. destruct f; reflexivity. Qed.

Lemma algo_name_map_inv name f : algo_map name = Some f -> algo_name_map f = name.
Proof.
  unfold algo_map. intros H.
  repeat match type of H with
         | (if String.eqb ?a ?b then _ else _) = _ =>
             destruct (String.eqb_spec a b) as [->|]; [injection H as <-; reflexivity|]
         end.
  discriminate.
Qed.

Lemma reloaded_cons j data :
  reloaded (j :: data)
  = match algo_map (j_algorithm j) with
    | Some algo =>
        Json (PyInt (py_int (j_id j))) (j_type j) (algo_name_map algo) (j_params j)
          (j_color j) (j_style j) (j_thickness j) (j_mask j) (j_transformations j)
        :: reloaded data
    | None => reloaded data
    end.
Proof. unfold reloaded. simpl. destruct (algo_map (j_algorithm j)); reflexivity. Qed.

Lemma load_loop_serialize data : forall h objs m js0,
  Forall2 (fun obj j => serialize h obj = Some j) objs js0 ->
  h ⊆ (load_loop data h objs m).1.1
  /\ Forall2 (fun obj j => serialize (load_loop data h objs m).1.1 obj = Some j)
       (load_loop data h objs m).1.2 (js0 ++ reloaded data).
Proof.
  induction data as [|j data IH]; intros h objs m js0 Hall.
  - simpl. unfold reloaded. simpl. rewrite app_nil_r. split; [reflexivity|exact Hall].
  - simpl load_loop. rewrite reloaded_cons.
    destruct (algo_map (j_algorithm j)) as [algo|] eqn:Ealgo; [|apply IH; exact Hall].
    set (c3 := fun lp lt => CObj (Obj (py_int (j_id j)) (j_type j) algo (j_algorithm j) lp
                 (j_color j) (j_style j) (j_thickness j) (j_mask j) lt)).
    destruct (append_object_cells h (CDict (j_params j)) (CList (j_transformations j)) c3)
      as (F & Eo & Ep & Et & Hsub).
    set (lp := fresh (dom h)) in *.
    set (lt := fresh (dom (<[lp := CDict (j_params j)]> h))) in *.
    set (lo := fresh (dom (<[lt := CList (j_transformations j)]>
                             (<[lp := CDict (j_params j)]> h)))) in *.
    set (h3 := <[lo := c3 lp lt]> _) in *.
    set (j' := Json (PyInt (py_int (j_id j))) (j_type j) (algo_name_map algo) (j_params j)
                 (j_color j) (j_style j) (j_thickness j) (j_mask j) (j_transformations j)).
    assert (Hall3 : Forall2 (fun obj j => serialize h3 obj = Some j) (objs ++ [lo])
                      (js0 ++ [j'])).
    { apply Forall2_app.
      - eapply Forall2_impl; [exact Hall|]. intros obj j0 Hobj.
        eapply serialize_weaken; [exact Hsub | exact Hobj].
      - constructor; [|constructor]. unfold serialize. rewrite Eo. subst c3.
        cbn [obj_params obj_transformations]. rewrite Ep, Et. reflexivity. }
    destruct (IH h3 (objs ++ [lo]) (if m <? py_int (j_id j) then py_int (j_id j) else m)
                (js0 ++ [j']) Hall3) as [S1 S2].
    split; [etransitivity; [exact Hsub|exact S1]|].
    simpl. rewrite <- app_assoc in S2. exact S2.
Qed.

Lemma reloaded_serialized h objs js :
  Forall2 (fun obj j => serialize h obj = Some j) objs js -> reloaded js = js.
Proof.
  induction 1 as [|obj j objs js E _ IH]; [reflexivity|].
  rewrite reloaded_cons, IH. unfold serialize in E.
  destruct (h !! obj) as [[| |o]|]; try discriminate.
  destruct (h !! obj_params o) as [[d| |]|]; try discriminate.
  destruct (h !! obj_transformations o) as [[|ts|]|]; try discriminate.
  injection E as <-. simpl. rewrite algo_map_name. reflexivity.
Qed.

Lemma load_objects_from_file_saved (s : state) (data : list json_obj) :
  data_file s = Some data ->
  let s' := load_objects_from_file s in
  save_objects_to_file s' = Some (with_file (Some (reloaded data)) s')
  /\ length (objects_to_draw s') = length (reloaded data)
  /\ heap s ⊆ heap s'.
Proof.
  intros Hf s'. subst s'. unfold load_objects_from_file. rewrite Hf.
  destruct (load_loop_serialize data (heap s) [] 0 [] (Forall2_nil_2 _ _ _)) as [Hsub Hall].
  destruct (load_loop data (heap s) [] 0) as [[h objs] max_id]. simpl in *.
  assert (E : mapM (serialize h) objs = Some (reloaded data)) by (apply mapM_Some; exact Hall).
  split; [|split].
  - unfold save_objects_to_file. destruct s; simpl in *. rewrite E. reflexivity.
  - destruct s; simpl. eapply Forall2_length; exact Hall.
  - destruct s; simpl in *. exact Hsub.
Qed.

Lemma loaded_ids_serialized h objs js :
  Forall2 (fun obj j => serialize h obj = Some j) objs js ->
  loaded_ids js = omap (id_at h) objs.
Proof.
  induction 1 as [|obj j objs js E _ IH]; [reflexivity|].
  rewrite loaded_ids_cons, IH. simpl omap. unfold serialize in E.
  destruct (h !! obj) as [[| |o]|] eqn:Eo; try discriminate.
  replace (id_at h obj) with (Some (obj_id o)) by (unfold id_at; rewrite Eo; reflexivity).
  destruct (h !! obj_params o) as [[d| |]|]; try discriminate.
  destruct (h !! obj_transformations o) as [[|ts|]|]; try discriminate.
  injection E as <-. simpl. rewrite algo_map_name. reflexivity.
Qed.

(** Loading a file and saving writes the records of the file whose
    algorithm name is one of the five known names, in their order, with the
    id converted by [int]; the records with another algorithm name are
    not loaded, and are gone from the file after the save. *)
Theorem load_then_save (s : state) (data : list json_obj) :
  data_file s = Some data ->
  let s' := load_objects_from_file s in
  save_objects_to_file s' = Some (with_file (Some (reloaded data)) s')
  /\ length (objects_to_draw s') = length (reloaded data)
  /\ heap s ⊆ heap s'.
Proof. exact (load_objects_from_file_saved s data). Qed.

(** What a save writes is read back as it is: loading the file written for
    a store, in any session, gives a store of as many objects, with the same
    ids, that a save writes as the very same file. *)
Theorem save_load_round_trip (s : state) :
  store_ok s = true ->
  exists js,
    save_objects_to_file s = Some (with_file (Some js) s)
    /\ length js = length (objects_to_draw s)
    /\ forall s0, data_file s0 = Some js ->
         let s' := load_objects_from_file s0 in
         save_objects_to_file s' = Some (with_file (Some js) s')
         /\ length (objects_to_draw s') = length (objects_to_draw s)
         /\ stored_ids s' = stored_ids s.
Proof.
  intros Hok. unfold save_objects_to_file at 1.
  destruct (mapM (serialize (heap s)) (objects_to_draw s)) as [js|] eqn:E.
  2:{ exfalso. apply store_ok_Forall in Hok. apply mapM_is_Some in Hok.
      rewrite E in Hok. destruct Hok; discriminate. }
  exists js. split; [reflexivity|].
  apply mapM_Some in E. pose proof (Forall2_length _ _ _ E) as Hlen.
  split; [symmetry; exact Hlen|].
  intros s0 Hf.
  destruct (load_objects_from_file_saved s0 js Hf) as (A & B & _).
  rewrite (reloaded_serialized _ _ _ E) in A, B.
  split; [exact A|]. split; [congruence|].
  destruct (load_objects_from_file_spec s0 js Hf) as (I & _).
  rewrite I. apply (loaded_ids_serialized _ _ _ E).
Qed.

Lemma load_then_save_witness :
  let j := Json (PyFloat 3) "line" "no_such_algorithm" ∅ (0, 0, 1)%Q 1 1 0 [] in
  let k := Json (PyFloat 7) "circle" "draw_circle" ∅ (0, 0, 1)%Q 1 1 0 [] in
  let s := State ∅ [] MODE_IDLE None STYLE_SOLID 1 0 (0, 0, 1)%Q [] (-1) 0
             (update_canvas_dimensions 1000 700) (Some [j; k]) in
  data_file (load_objects_from_file s) = Some [j; k]
  /\ (s' ← save_objects_to_file (load_objects_from_file s); data_file s')
     = Some [Json (PyInt 7) "circle" "draw_circle" ∅ (0, 0, 1)%Q 1 1 0 []].
Proof.
  intros j k s. split; [reflexivity|].
  destruct (load_then_save s [j; k] eq_refl) as (E & _).
  rewrite E. reflexivity.
Defined.

Lemma save_load_round_trip_witness :
  exists js,
    save_objects_to_file two_lines_scene = Some (with_file (Some js) two_lines_scene)
    /\ length js = 2%nat.
Proof.
  destruct (save_load_round_trip two_lines_scene eq_refl) as (js & E & L & _).
  exists js. split; [exact E|exact L].
Defined.

(** ** Deleting, drawing and moving an object *)

Lemma remove_id_filter h objs k :
  Forall (fun obj => is_Some (serialize h obj)) objs ->
  remove_id h objs k
  = Some (List.filter (fun obj => negb (bool_decide (id_at h obj = Some k))) objs).
Proof.
  induction 1 as [|obj objs [j Hj] _ IH]; [reflexivity|].
  assert (Ho : exists o, h !! obj = Some (CObj o)).
  { unfold serialize in Hj. destruct (h !! obj) as [[| |o]|]; try discriminate. eauto. }
  destruct Ho as [o Ho]. cbn [remove_id List.filter]. rewrite Ho, IH.
  replace (id_at h obj) with (Some (obj_id o)) by (unfold id_at; rewrite Ho; reflexivity).
  simpl.
  destruct (Z.eqb_spec (obj_id o) k) as [->|Hne].
  - rewrite bool_decide_eq_true_2 by reflexivity. reflexivity.
  - rewrite bool_decide_eq_false_2 by congruence. reflexivity.
Qed.

Lemma Forall_list_filter {A} (P : A -> Prop) (f : A -> bool) (l : list A) :
  Forall P l -> Forall P (List.filter f l).
Proof.
  induction 1 as [|x l Hx _ IH]; simpl; [constructor|].
  destruct (f x); [constructor; assumption|assumption].
Qed.

(** Deleting with no object selected does nothing, and writes no file.
    With the id of an object selected, deleting removes from the store, in
    one pass, every object that carries the id, keeps the others in their
    order, writes the file for them, and deselects; the objects themselves,
    the next id, the mode and the pending points stay as they are. *)
Theorem delete_selected_object_removes (s : state) :
  store_ok s = true ->
  exists s',
    delete_selected_object s = Some s'
    /\ (if selected_object_id s =? -1 then s' = s
        else
          objects_to_draw s'
          = List.filter
              (fun obj => negb (bool_decide (id_at (heap s) obj = Some (selected_object_id s))))
              (objects_to_draw s)
          /\ selected_object_id s' = -1
          /\ heap s' = heap s
          /\ next_object_id s' = next_object_id s
          /\ current_mode s' = current_mode s
          /\ temp_points s' = temp_points s
          /\ data_file s' = mapM (serialize (heap s)) (objects_to_draw s')
          /\ is_Some (data_file s')).
Proof.
  intros Hok. unfold delete_selected_object.
  destruct (selected_object_id s =? -1) eqn:Esel; simpl.
  { exists s. split; reflexivity. }
  apply store_ok_Forall in Hok.
  rewrite (remove_id_filter _ _ (selected_object_id s) Hok). simpl.
  set (objs := List.filter _ (objects_to_draw s)).
  assert (Hobjs : Forall (fun obj => is_Some (serialize (heap s) obj)) objs)
    by (apply Forall_list_filter; exact Hok).
  apply mapM_is_Some in Hobjs. destruct Hobjs as [js Hjs].
  unfold save_objects_to_file. destruct s; simpl in *. rewrite Hjs. simpl.
  eexists. split; [reflexivity|]. simpl. rewrite Hjs. repeat split; eauto.
Qed.

Lemma delete_selected_object_removes_witness :
  exists s',
    delete_selected_object two_lines_scene = Some s'
    /\ objects_to_draw s' = [3%positive]
    /\ selected_object_id s' = -1
    /\ next_object_id s' = 2.
Proof.
  destruct (delete_selected_object_removes two_lines_scene eq_refl)
    as (s' & E & A & B & _ & C & _).
  exists s'. split; [exact E|]. split; [exact A|]. split; [exact B|exact C].
Defined.

Lemma append_object_saved type algo algorithm params s js :
  mapM (serialize (heap s)) (objects_to_draw s) = Some js ->
  let j := Json (PyInt (next_object_id s)) type (algo_name_map algo) params (current_color s)
             (current_style_choice s) (current_thickness s) (current_mask s) [] in
  exists s' lo,
    append_object type algo algorithm params s = Some s'
    /\ objects_to_draw s' = objects_to_draw s ++ [lo]
    /\ heap s !! lo = None
    /\ heap s ⊆ heap s'
    /\ serialize (heap s') lo = Some j
    /\ data_file s' = Some (js ++ [j])
    /\ next_object_id s' = next_object_id s + 1
    /\ current_mode s' = MODE_IDLE
    /\ temp_points s' = []
    /\ selected_object_id s' = selected_object_id s
    /\ current_algo_func s' = current_algo_func s.
Proof.
  intros Hjs j. unfold append_object.
  set (c3 := fun lp lt => CObj (Obj (next_object_id s) type algo algorithm lp (current_color s)
               (current_style_choice s) (current_thickness s) (current_mask s) lt)).
  destruct (append_object_cells (heap s) (CDict params) (CList []) c3)
    as (F & Eo & Ep & Et & Hsub).
  set (lp := fresh (dom (heap s))) in *.
  set (lt := fresh (dom (<[lp := CDict params]> (heap s)))) in *.
  set (lo := fresh (dom (<[lt := CList []]> (<[lp := CDict params]> (heap s))))) in *.
  fold (c3 lp lt). set (h3 := <[lo := c3 lp lt]> _) in *.
  assert (Hnew : serialize h3 lo = Some j).
  { unfold serialize. rewrite Eo. subst c3. cbn [obj_params obj_transformations].
    rewrite Ep, Et. reflexivity. }
  assert (Hall : mapM (serialize h3) (objects_to_draw s ++ [lo]) = Some (js ++ [j])).
  { apply mapM_Some. apply mapM_Some in Hjs. apply Forall2_app.
    - eapply Forall2_impl; [exact Hjs|]. intros obj j0 Hobj.
      eapply serialize_weaken; [exact Hsub|exact Hobj].
    - constructor; [exact Hnew|constructor]. }
  unfold save_objects_to_file. destruct s; simpl in *. rewrite Hall. simpl.
  eexists _, lo. split; [reflexivity|]. simpl. repeat split; auto.
Qed.

Section Drawing.
Context {trig : Trig}.

(** Choosing an algorithm for lines and clicking twice adds one line to the
    store: its end points are the two clicks, snapped to the grid and
    converted to logical coordinates, it carries the next id, the current
    colour, style, thickness and mask and no transformation, and the file is
    rewritten with its record after the others.  The first click only
    records the point.  The selection is as it was before. *)
Theorem two_clicks_create_line (s : state) (algo : algo_func) (xa ya xb yb : Z)
    (js : list json_obj) :
  mapM (serialize (heap s)) (objects_to_draw s) = Some js ->
  let c := dims s in
  let params : gmap string num :=
    <["x1" := PyInt (snap xa - MID_X c)]> (<["y1" := PyInt (MID_Y c - snap ya)]>
      (<["x2" := PyInt (snap xb - MID_X c)]> (<["y2" := PyInt (MID_Y c - snap yb)]> ∅))) in
  let j := Json (PyInt (next_object_id s)) "line" (algo_name_map algo) params
             (current_color s) (current_style_choice s) (current_thickness s)
             (current_mask s) [] in
  exists s1 s2 lo,
    mousePressEvent xa ya (set_algorithm algo MODE_DRAWING_LINE_P1 s) = Some s1
    /\ current_mode s1 = MODE_DRAWING_LINE_P2
    /\ objects_to_draw s1 = objects_to_draw s
    /\ data_file s1 = data_file s
    /\ mousePressEvent xb yb s1 = Some s2
    /\ objects_to_draw s2 = objects_to_draw s ++ [lo]
    /\ heap s !! lo = None
    /\ serialize (heap s2) lo = Some j
    /\ data_file s2 = Some (js ++ [j])
    /\ next_object_id s2 = next_object_id s + 1
    /\ current_mode s2 = MODE_IDLE
    /\ temp_points s2 = []
    /\ selected_object_id s2 = selected_object_id s.
Proof.
  intros Hjs c params j.
  set (s1 := with_mode MODE_DRAWING_LINE_P2
               (with_temp_points [(PyInt (snap xa - MID_X c), PyInt (MID_Y c - snap ya))]
                  (set_algorithm algo MODE_DRAWING_LINE_P1 s))).
  assert (E1 : mousePressEvent xa ya (set_algorithm algo MODE_DRAWING_LINE_P1 s) = Some s1).
  { subst s1 c. unfold mousePressEvent. generalize (snap xa) (snap ya). intros sx sy.
    destruct s; reflexivity. }
  destruct (append_object_saved "line" algo (line_algorithm_name algo) params
              (with_temp_points [(PyInt (snap xa - MID_X c), PyInt (MID_Y c - snap ya));
                                 (PyInt (snap xb - MID_X c), PyInt (MID_Y c - snap yb))] s1)
              js) as (s2 & lo & E2 & A).
  { destruct s; exact Hjs. }
  assert (E2' : mousePressEvent xb yb s1 = Some s2).
  { rewrite <- E2. subst params s1 c. unfold mousePressEvent.
    generalize (snap xa) (snap ya) (snap xb) (snap yb). intros sx sy sx' sy'.
    destruct s; reflexivity. }
  exists s1, s2, lo. split; [exact E1|].
  split; [destruct s; reflexivity|]. split; [destruct s; reflexivity|].
  split; [destruct s; reflexivity|]. split; [exact E2'|].
  destruct A as (A1 & A2 & _ & A3 & A4 & A5 & A6 & A7 & A8 & _).
  destruct s; simpl in *. repeat split; assumption.
Qed.

End Drawing.

Lemma two_clicks_create_line_witness :
  exists s1 s2 lo,
    mousePressEvent (trig := no_trig) 493 352
      (set_algorithm f_bresenham_line MODE_DRAWING_LINE_P1 two_lines_scene) = Some s1
    /\ mousePressEvent (trig := no_trig) 608 291 s1 = Some s2
    /\ objects_to_draw s2 = [3%positive; 6%positive; lo]
    /\ (o ← heap s2 !! lo;
        match o with
        | CObj o => d ← heap s2 !! obj_params o; Some (obj_id o, d)
        | _ => None
        end)
       = Some (2, CDict (<["x1" := PyInt 0]> (<["y1" := PyInt (-10)]>
                          (<["x2" := PyInt 100]> (<["y2" := PyInt 50]> ∅))))).
Proof.
  destruct (two_clicks_create_line (trig := no_trig) two_lines_scene f_bresenham_line
              493 352 608 291 _ eq_refl)
    as (s1 & s2 & lo & E1 & _ & _ & _ & E2 & O & _ & S & _).
  exists s1, s2, lo. split; [exact E1|]. split; [exact E2|]. split; [exact O|].
  unfold serialize in S.
  destruct (heap s2 !! lo) as [[| |o]|]; try discriminate S. simpl.
  destruct (heap s2 !! obj_params o) as [[d| |]|]; try discriminate S.
  destruct (heap s2 !! obj_transformations o) as [[|ts|]|]; try discriminate S.
  injection S as S1 _ _ S2 _. simpl. rewrite S1, S2. reflexivity.
Defined.

Lemma find_object_found h objs id obj :
  find_object h objs id = Some (Some obj) ->
  obj ∈ objs /\ exists o, h !! obj = Some (CObj o) /\ obj_id o = id.
Proof.
  induction objs as [|x objs IH]; simpl; [discriminate|].
  destruct (h !! x) as [[| |o]|] eqn:Ex; try discriminate.
  destruct (Z.eqb_spec (obj_id o) id) as [E|_].
  - intros [= <-]. split; [left|eauto].
  - intros H. destruct (IH H) as [Hin Ho]. split; [right; exact Hin|exact Ho].
Qed.

Section Moving.
Context {trig : Trig}.

(** With an object selected and the translation started, two clicks append
    one Translate record to the list of the first object that carries the
    selected id: its [dx] and [dy] are the differences of the two clicks
    after snapping, in logical coordinates (so [dy] is counted upwards), and
    do not depend on the size of the canvas.  The first click only records
    the start point; after the second the file is rewritten, the selection
    is dropped and the editor is idle.  No object is added or removed. *)
Theorem two_clicks_translate (s : state) (obj : loc) (xa ya xb yb : Z) :
  store_ok s = true ->
  selected_object_id s <> -1 ->
  find_object (heap s) (objects_to_draw s) (selected_object_id s) = Some (Some obj) ->
  current_mode s = MODE_APPLY_TRANSLATE ->
  temp_points s = [] ->
  exists o ts s1 s2,
    heap s !! obj = Some (CObj o)
    /\ obj_id o = selected_object_id s
    /\ heap s !! obj_transformations o = Some (CList ts)
    /\ mousePressEvent xa ya s = Some s1
    /\ heap s1 = heap s
    /\ data_file s1 = data_file s
    /\ mousePressEvent xb yb s1 = Some s2
    /\ heap s2
       = <[obj_transformations o :=
             CList (ts ++ [Translate (PyInt (snap xb - snap xa)) (PyInt (snap ya - snap yb))])]>
           (heap s)
    /\ objects_to_draw s2 = objects_to_draw s
    /\ next_object_id s2 = next_object_id s
    /\ selected_object_id s2 = -1
    /\ current_mode s2 = MODE_IDLE
    /\ temp_points s2 = []
    /\ data_file s2 = mapM (serialize (heap s2)) (objects_to_draw s)
    /\ is_Some (data_file s2).
Proof.
  intros Hok Hsel Hfind Hmode Htemp.
  destruct (find_object_found _ _ _ _ Hfind) as (Hin & o & Ho & Hid).
  pose proof (proj1 (store_ok_Forall s) Hok) as Hall.
  assert (Hts : exists ts, heap s !! obj_transformations o = Some (CList ts)).
  { rewrite Forall_forall in Hall. destruct (Hall obj Hin) as [j Hj].
    unfold serialize in Hj. rewrite Ho in Hj.
    destruct (heap s !! obj_params o) as [[d| |]|]; try discriminate.
    destruct (heap s !! obj_transformations o) as [[|ts|]|]; try discriminate. eauto. }
  destruct Hts as [ts Hts].
  set (c := dims s).
  set (p1 := (PyInt (snap xa - MID_X c), PyInt (MID_Y c - snap ya))).
  set (t := Translate (PyInt (snap xb - snap xa)) (PyInt (snap ya - snap yb))).
  set (h2 := <[obj_transformations o := CList (ts ++ [t])]> (heap s)).
  assert (Hsel' : (selected_object_id s =? -1) = false) by (apply Z.eqb_neq; exact Hsel).
  assert (E1 : mousePressEvent xa ya s = Some (with_temp_points [p1] s)).
  { unfold mousePressEvent. rewrite Hmode, Hsel', Hfind, Htemp.
    destruct (bool_decide (current_algo_func s = None)); reflexivity. }
  assert (Hall2 : Forall (fun x => is_Some (serialize h2 x)) (objects_to_draw s)).
  { eapply Forall_impl; [exact Hall|]. intros x Hx.
    eapply serialize_extends; [|exact Hx]. eapply heap_extends_list. exact Hts. }
  apply mapM_is_Some in Hall2. destruct Hall2 as [js Hjs].
  set (s2 := with_mode MODE_IDLE (with_selected (-1) (with_temp_points []
               (with_file (Some js) (with_heap h2 (with_temp_points [p1] s)))))).
  assert (E2 : mousePressEvent xb yb (with_temp_points [p1] s) = Some s2).
  { unfold mousePressEvent.
    replace (current_mode (with_temp_points [p1] s)) with MODE_APPLY_TRANSLATE
      by (rewrite <- Hmode; destruct s; reflexivity).
    replace (selected_object_id (with_temp_points [p1] s)) with (selected_object_id s)
      by (destruct s; reflexivity).
    replace (heap (with_temp_points [p1] s)) with (heap s) by (destruct s; reflexivity).
    replace (objects_to_draw (with_temp_points [p1] s)) with (objects_to_draw s)
      by (destruct s; reflexivity).
    replace (dims (with_temp_points [p1] s)) with c by (destruct s; reflexivity).
    replace (temp_points (with_temp_points [p1] s)) with [p1] by (destruct s; reflexivity).
    rewrite Hsel', Hfind.
    destruct (bool_decide (current_algo_func (with_temp_points [p1] s) = None));
      cbn -[snap append_transformation save_objects_to_file].
    all: replace (snap xb - MID_X c - (snap xa - MID_X c)) with (snap xb - snap xa) by lia.
    all: replace (MID_Y c - snap yb - (MID_Y c - snap ya)) with (snap ya - snap yb) by lia.
    all: fold t; unfold append_transformation.
    all: replace (heap (with_temp_points [p1] s)) with (heap s) by (destruct s; reflexivity).
    all: rewrite Ho, Hts; cbn -[snap save_objects_to_file]; fold h2.
    all: unfold save_objects_to_file.
    all: replace (heap (with_heap h2 (with_temp_points [p1] s))) with h2
      by (destruct s; reflexivity).
    all: replace (objects_to_draw (with_heap h2 (with_temp_points [p1] s)))
      with (objects_to_draw s) by (destruct s; reflexivity).
    all: rewrite Hjs; reflexivity. }
  exists o, ts, (with_temp_points [p1] s), s2.
  split; [exact Ho|]. split; [exact Hid|]. split; [exact Hts|]. split; [exact E1|].
  split; [destruct s; reflexivity|]. split; [destruct s; reflexivity|].
  split; [exact E2|].
  subst s2. destruct s; simpl in *. rewrite Hjs. repeat split; eauto.
Qed.

End Moving.

Lemma two_clicks_translate_witness :
  exists s1 s2,
    mousePressEvent (trig := no_trig) 493 352
      (with_mode MODE_APPLY_TRANSLATE two_lines_scene) = Some s1
    /\ mousePressEvent (trig := no_trig) 608 291 s1 = Some s2
    /\ heap s2 !! 5%positive = Some (CList [Translate (PyInt 100) (PyInt 60)])
    /\ selected_object_id s2 = -1.
Proof.
  destruct (two_clicks_translate (trig := no_trig)
              (with_mode MODE_APPLY_TRANSLATE two_lines_scene) 6%positive 493 352 608 291)
    as (o & ts & s1 & s2 & Ho & _ & Hts & E1 & _ & _ & E2 & H2 & _ & _ & S & _);
    try reflexivity; [discriminate|].
  exists s1, s2. split; [exact E1|]. split; [exact E2|]. split; [|exact S].
  injection Ho as <-. injection Hts as <-. rewrite H2. reflexivity.
Defined.

(** ** The midpoint circle *)

Lemma nearest_beyond_diagonal r x y :
  -1 <= y -> y < x -> - y <= x * x + y * y - r * r ->
  forall y', nearest_to_circle r x y' -> y' < x.
Proof.
  intros Hy Hxy Hlow y' [N1 N2].
  destruct (Z_lt_le_dec y' x) as [|Hge]; [assumption|exfalso].
  assert (0 <= (y' - y - 1) * (y' + y)) by (apply Z.mul_nonneg_nonneg; lia).
  nia.
Qed.

Lemma draw_circle_loop_columns x_c y_c r style mask : forall fuel x y p,
  0 <= x -> -1 <= y ->
  p = (x + 1) * (x + 1) + y * y - y - r * r ->
  - y <= x * x + y * y - r * r ->
  (x <= y -> x * x + y * y - r * r < y) ->
  y + 1 - x <= Z.of_nat fuel ->
  exists ys : list Z,
    draw_circle_loop x_c y_c r style mask fuel x x y p
    = Some (concat (zip_with (fun k yk => draw_circle_plots x_c y_c r style mask k k yk)
                      (seqZ x (Z.of_nat (length ys))) ys))
    /\ (x <= y -> ys !! 0%nat = Some y)
    /\ (forall z, ys !! 0%nat = Some z -> z = y)
    /\ (forall k yk, ys !! k = Some yk ->
          x + Z.of_nat k <= yk /\ nearest_to_circle r (x + Z.of_nat k) yk)
    /\ (forall k yk yk', ys !! k = Some yk -> ys !! S k = Some yk' ->
          yk' = yk \/ yk' = yk - 1)
    /\ (forall y', nearest_to_circle r (x + Z.of_nat (length ys)) y' ->
          y' < x + Z.of_nat (length ys)).
Proof.
  induction fuel as [|fuel IH]; intros x y p Hx Hy Hp Hlow Hup Hfuel.
  - simpl. destruct (Z.leb_spec x y) as [|Hxy]; [lia|].
    exists []. split; [reflexivity|]. split; [lia|]. split; [discriminate|].
    split; [discriminate|]. split; [discriminate|].
    simpl. rewrite Z.add_0_r. exact (nearest_beyond_diagonal r x y Hy Hxy Hlow).
  - simpl. destruct (Z.leb_spec x y) as [Hxy|Hxy].
    2:{ exists []. split; [reflexivity|]. split; [lia|]. split; [discriminate|].
        split; [discriminate|]. split; [discriminate|].
        simpl. rewrite Z.add_0_r. exact (nearest_beyond_diagonal r x y Hy Hxy Hlow). }
    specialize (Hup Hxy).
    set (st := if p <? 0 then (p + (2 * x + 3), y) else (p + (2 * (x - y) + 5), y - 1)).
    assert (Hst : exists p' y', st = (p', y') /\ (y' = y \/ y' = y - 1)
              /\ p' = (x + 1 + 1) * (x + 1 + 1) + y' * y' - y' - r * r
              /\ - y' <= (x + 1) * (x + 1) + y' * y' - r * r
              /\ (x + 1 <= y' -> (x + 1) * (x + 1) + y' * y' - r * r < y')).
    { subst st. destruct (Z.ltb_spec p 0) as [Hneg|Hpos].
      - exists (p + (2 * x + 3)), y. split; [reflexivity|]. split; [left; reflexivity|].
        split; [lia|]. split; lia.
      - exists (p + (2 * (x - y) + 5)), (y - 1). split; [reflexivity|].
        split; [right; reflexivity|]. split; [lia|]. split; lia. }
    destruct Hst as (p' & y' & -> & Hy' & Hp' & Hlow' & Hup').
    destruct (IH (x + 1) y' p') as (ys & E & Hhead & Hhd & Hall & Hadj & Hend);
      try assumption; try lia.
    exists (y :: ys). rewrite E. simpl length. rewrite Nat2Z.inj_succ.
    rewrite (seqZ_cons x) by lia. rewrite Z.pred_succ. simpl.
    split; [reflexivity|]. split; [reflexivity|].
    split; [intros z [= <-]; reflexivity|].
    split.
    { intros [|k] yk Hk; simpl in Hk.
      - injection Hk as <-. rewrite Z.add_0_r. unfold nearest_to_circle. lia.
      - destruct (Hall k yk Hk) as [A B]. rewrite Nat2Z.inj_succ.
        replace (x + Z.succ (Z.of_nat k)) with (x + 1 + Z.of_nat k) by lia.
        split; assumption. }
    split.
    { intros [|k] yk yk' Hk Hk'; simpl in Hk, Hk'.
      - injection Hk as <-. rewrite (Hhd _ Hk'). exact Hy'.
      - exact (Hadj k yk yk' Hk Hk'). }
    intros z Hz. replace (x + Z.succ (Z.of_nat (length ys)))
      with (x + 1 + Z.of_nat (length ys)) in * by lia. exact (Hend z Hz).
Qed.

(** The midpoint circle, for an integer radius.  The loop ends.  A
    negative radius plots nothing, and radius 0 plots the centre, eight
    times.  For a radius of at least 1 the loop visits the columns
    [x = 0, 1, ...] of the octant from [(0, r)] down to the diagonal, one
    iteration each, numbered by [x]; in each column it takes the pixel
    nearest to the circle (so [x^2 + y^2] differs from [r^2] by at most
    [y]), going down by at most one pixel from a column to the next, and it
    stops at the first column whose nearest pixel is beyond the diagonal.
    Each iteration plots the pixel and its seven mirror images about the
    centre. *)
Theorem draw_circle_nearest_pixels (x_c y_c : num) (r style thickness mask : Z) :
  (r < 0 -> draw_circle x_c y_c r style thickness mask = Some [])
  /\ (r = 0 -> draw_circle x_c y_c r style thickness mask
               = Some (draw_circle_plots x_c y_c 0 style mask 0 0 0))
  /\ (1 <= r ->
      exists ys : list Z,
        draw_circle x_c y_c r style thickness mask
        = Some (concat (zip_with (fun k yk => draw_circle_plots x_c y_c r style mask k k yk)
                          (seqZ 0 (Z.of_nat (length ys))) ys))
        /\ ys !! 0%nat = Some r
        /\ (forall k yk, ys !! k = Some yk ->
              Z.of_nat k <= yk /\ nearest_to_circle r (Z.of_nat k) yk)
        /\ (forall k yk yk', ys !! k = Some yk -> ys !! S k = Some yk' ->
              yk' = yk \/ yk' = yk - 1)
        /\ (forall y', nearest_to_circle r (Z.of_nat (length ys)) y' ->
              y' < Z.of_nat (length ys))).
Proof.
  split; [|split].
  - intros Hr. unfold draw_circle.
    destruct (Z.to_nat (r + 1)); simpl; destruct (Z.leb_spec 0 r); try lia; reflexivity.
  - intros ->. reflexivity.
  - intros Hr. unfold draw_circle.
    destruct (draw_circle_loop_columns x_c y_c r style mask (Z.to_nat (r + 1)) 0 r (1 - r))
      as (ys & E & Hhead & _ & Hall & Hadj & Hend); try lia.
    exists ys. split; [exact E|]. split; [apply Hhead; lia|].
    split; [|split].
    + intros k yk Hk. destruct (Hall k yk Hk) as [A B]. rewrite Z.add_0_l in A, B.
      split; assumption.
    + exact Hadj.
    + intros y' Hy'. specialize (Hend y'). rewrite Z.add_0_l in Hend. exact (Hend Hy').
Qed.

Lemma draw_circle_nearest_pixels_witness :
  1 <= 5
  /\ exists ys : list Z,
       draw_circle (PyInt 0) (PyInt 0) 5 STYLE_SOLID 1 0
       = Some (concat (zip_with (fun k yk => draw_circle_plots (PyInt 0) (PyInt 0) 5
                                               STYLE_SOLID 0 k k yk)
                         (seqZ 0 (Z.of_nat (length ys))) ys))
       /\ ys !! 0%nat = Some 5.
Proof.
  assert (Hr : 1 <= 5) by lia. split; [exact Hr|].
  destruct (draw_circle_nearest_pixels (PyInt 0) (PyInt 0) 5 STYLE_SOLID 1 0)
    as (_ & _ & H).
  destruct (H Hr) as (ys & E & H0 & _).
  exists ys. split; [exact E|exact H0].
Defined.

Example draw_circle_radius_5 :
  draw_circle (PyInt 0) (PyInt 0) 5 STYLE_SOLID 1 0
  = Some (concat (zip_with (fun k yk => draw_circle_plots (PyInt 0) (PyInt 0) 5 STYLE_SOLID 0
                                          k k yk)
                    [0; 1; 2; 3] [5; 5; 5; 4])).
Proof. vm_compute. reflexivity. Qed.

(** ** The visible window *)

Lemma py_le_int a b : py_le (PyInt a) (PyInt b) = (a <=? b).
Proof.
  unfold py_le, Z.leb. simpl. unfold Qcompare. simpl. rewrite !Z.mul_1_r.
  reflexivity.
Qed.

(** Whatever the size of the widget, the canvas is at least 400 wide and
    600 high and the logical origin is a pixel of it.  A solid pixel at an
    integer logical point is drawn exactly when the point is in the window
    [-MID_X <= x < CANVAS_WIDTH - MID_X], [MID_Y - SCREEN_HEIGHT < y <= MID_Y],
    at the screen point [(x + MID_X, MID_Y - y)]; outside of the window
    nothing is drawn. *)
Theorem visible_window (width height lx ly step total mask : Z) :
  let c := update_canvas_dimensions width height in
  MIN_CANVAS_WIDTH <= CANVAS_WIDTH c
  /\ MIN_WINDOW_HEIGHT <= SCREEN_HEIGHT c
  /\ width <= CANVAS_WIDTH c /\ height <= SCREEN_HEIGHT c
  /\ plot_styled_pixel c (Plot (PyInt 0) (PyInt 0) STYLE_SOLID step total mask)
     = [(PyInt (MID_X c), PyInt (MID_Y c))]
  /\ plot_styled_pixel c (Plot (PyInt lx) (PyInt ly) STYLE_SOLID step total mask)
     = (if (- MID_X c <=? lx) && (lx <? CANVAS_WIDTH c - MID_X c)
           && (MID_Y c - SCREEN_HEIGHT c <? ly) && (ly <=? MID_Y c)
        then [(PyInt (lx + MID_X c), PyInt (MID_Y c - ly))] else []).
Proof.
  intros c.
  assert (Hw : MIN_CANVAS_WIDTH <= CANVAS_WIDTH c) by (simpl; lia).
  assert (Hh : MIN_WINDOW_HEIGHT <= SCREEN_HEIGHT c) by (simpl; lia).
  assert (Hmx : MID_X c = CANVAS_WIDTH c / 2) by reflexivity.
  assert (Hmy : MID_Y c = SCREEN_HEIGHT c / 2) by reflexivity.
  assert (Hgen : forall x y,
    plot_styled_pixel c (Plot (PyInt x) (PyInt y) STYLE_SOLID step total mask)
    = (if (- MID_X c <=? x) && (x <? CANVAS_WIDTH c - MID_X c)
          && (MID_Y c - SCREEN_HEIGHT c <? y) && (y <=? MID_Y c)
       then [(PyInt (x + MID_X c), PyInt (MID_Y c - y))] else [])).
  { intros x y. unfold plot_styled_pixel, logical_to_screen.
    cbn [pc_style pc_step pc_mask pc_x pc_y do_plot].
    change (do_plot STYLE_SOLID step mask) with true. cbn iota.
    change (fl_add (PyInt x) (PyInt (MID_X c))) with (PyInt (x + MID_X c)).
    change (fl_sub (PyInt (MID_Y c)) (PyInt y)) with (PyInt (MID_Y c - y)).
    rewrite !py_le_int, !py_lt_int.
    generalize (MID_X c) (MID_Y c) (CANVAS_WIDTH c) (SCREEN_HEIGHT c). intros mx my w h.
    destruct (Z.leb_spec 0 (x + mx)), (Z.leb_spec (- mx) x); try lia;
      destruct (Z.ltb_spec (x + mx) w), (Z.ltb_spec x (w - mx)); try lia;
      destruct (Z.leb_spec 0 (my - y)), (Z.leb_spec y my); try lia;
      destruct (Z.ltb_spec (my - y) h), (Z.ltb_spec (my - h) y); try lia;
      reflexivity. }
  split; [exact Hw|]. split; [exact Hh|].
  split; [simpl; lia|]. split; [simpl; lia|].
  split; [|apply Hgen].
  rewrite Hgen. unfold MIN_CANVAS_WIDTH, MIN_WINDOW_HEIGHT in *.
  assert (0 < CANVAS_WIDTH c / 2 < CANVAS_WIDTH c)
    by (split; [apply Z.div_str_pos|apply Z.div_lt]; lia).
  assert (0 < SCREEN_HEIGHT c / 2 < SCREEN_HEIGHT c)
    by (split; [apply Z.div_str_pos|apply Z.div_lt]; lia).
  rewrite Hmx, Hmy in *.
  destruct (Z.leb_spec (- (CANVAS_WIDTH c / 2)) 0); [|lia].
  destruct (Z.ltb_spec 0 (CANVAS_WIDTH c - CANVAS_WIDTH c / 2)); [|lia].
  destruct (Z.ltb_spec (SCREEN_HEIGHT c / 2 - SCREEN_HEIGHT c) 0); [|lia].
  destruct (Z.leb_spec 0 (SCREEN_HEIGHT c / 2)); [|lia].
  simpl. rewrite Z.sub_0_r. reflexivity.
Qed.


(** ** Thick lines *)

(** Operations on numbers whose value is a half-integer [p / 2] of
    ordinary size are exact. *)
Lemma fval_half a p :
  (num_val a == inject_Z p / 2)%Q -> Z.abs p <= 2 ^ 53 ->
  (fval a == inject_Z p / 2)%Q.
Proof.
  intros H Hp. destruct a as [z|q]; [|exact H].
  unfold fval, py_float. cbn [num_val] in *.
  assert (E : p = 2 * z).
  { apply (inject_Z_injective p (2 * z)). rewrite inject_Z_mult, H.
    change (inject_Z 2) with 2%Q. field. }
  rewrite b64_int by lia. exact H.
Qed.

Lemma fl_add_half a b p q :
  (num_val a == inject_Z p / 2)%Q -> (num_val b == inject_Z q / 2)%Q ->
  Z.abs p <= 2 ^ 52 -> Z.abs q <= 2 ^ 52 ->
  (num_val (fl_add a b) == inject_Z (p + q) / 2)%Q.
Proof.
  intros Ha Hb Hp Hq.
  assert (P : 2 ^ 53 = 2 * 2 ^ 52) by reflexivity.
  pose proof (fval_half a p Ha ltac:(lia)) as Fa.
  pose proof (fval_half b q Hb ltac:(lia)) as Fb.
  assert (E : (fval a + fval b == inject_Z (p + q) / 2)%Q).
  { rewrite Fa, Fb, inject_Z_plus. field. }
  destruct a as [x|x], b as [y|y]; unfold fl_add; cbn [num_val] in *;
    try (rewrite (b64_comp _ _ E); apply b64_half; lia).
  rewrite !inject_Z_plus, Ha, Hb. field.
Qed.

Lemma fl_sub_half a b p q :
  (num_val a == inject_Z p / 2)%Q -> (num_val b == inject_Z q / 2)%Q ->
  Z.abs p <= 2 ^ 52 -> Z.abs q <= 2 ^ 52 ->
  (num_val (fl_sub a b) == inject_Z (p - q) / 2)%Q.
Proof.
  intros Ha Hb Hp Hq.
  assert (P : 2 ^ 53 = 2 * 2 ^ 52) by reflexivity.
  pose proof (fval_half a p Ha ltac:(lia)) as Fa.
  pose proof (fval_half b q Hb ltac:(lia)) as Fb.
  assert (E : (fval a - fval b == inject_Z (p - q) / 2)%Q).
  { rewrite Fa, Fb. push_inject_Z. field. }
  destruct a as [x|x], b as [y|y]; unfold fl_sub; cbn [num_val] in *;
    try (rewrite (b64_comp _ _ E); apply b64_half; lia).
  push_inject_Z. rewrite Ha, Hb. field.
Qed.

Lemma fl_mul_sign_half (g q : Z) (b : num) :
  -1 <= g <= 1 -> (num_val b == inject_Z q / 2)%Q -> Z.abs q <= 2 ^ 53 ->
  (num_val (fl_mul (PyFloat (inject_Z g)) b) == inject_Z (g * q) / 2)%Q.
Proof.
  intros Hg Hb Hq.
  pose proof (fval_half b q Hb Hq) as Fb.
  assert (E : (fval (PyFloat (inject_Z g)) * fval b == inject_Z (g * q) / 2)%Q).
  { rewrite Fb. unfold fval, py_float. cbn [num_val]. rewrite inject_Z_mult. field. }
  unfold fl_mul. cbn [num_val].
  rewrite (b64_comp _ _ E). apply b64_half. nia.
Qed.

Lemma num_val_int_half z : (num_val (PyInt z) == inject_Z (2 * z) / 2)%Q.
Proof. cbn [num_val]. rewrite inject_Z_mult. change (inject_Z 2) with 2%Q. field. Qed.

Lemma fl_mul_unit_half (g q : Z) (n b : num) :
  -1 <= g <= 1 -> (n = PyFloat (inject_Z g) \/ (n = PyInt 0 /\ g = 0)) ->
  (num_val b == inject_Z q / 2)%Q -> Z.abs q <= 2 ^ 25 ->
  (num_val (fl_mul n b) == inject_Z (g * q) / 2)%Q /\ Z.abs (g * q) <= 2 ^ 25.
Proof.
  intros Hg Hn Hb Hq. split; [|nia].
  assert (Hq' : Z.abs q <= 2 ^ 53) by lia.
  destruct Hn as [->|[-> ->]].
  - apply fl_mul_sign_half; assumption.
  - pose proof (fval_half b q Hb Hq') as Fb.
    assert (E0 : (fval (PyInt 0) * fval b == inject_Z (0 * q) / 2)%Q).
    { change (fval (PyInt 0)) with 0%Q. rewrite Z.mul_0_l.
      change (inject_Z 0) with 0%Q. field. }
    destruct b as [y|y]; unfold fl_mul; cbn [num_val] in *.
    + rewrite !Z.mul_0_l. change (inject_Z 0) with 0%Q. field.
    + rewrite (b64_comp _ _ E0). apply b64_half. lia.
Qed.

(** The corners of the quadrilateral on one end of the segment: the end
    point moved by plus or minus the scaled unit normal, mapped to the
    screen. *)
Lemma thick_corners (c : canvas) (thickness : Z) (half : num) :
  Z.abs thickness <= 2 ^ 25 -> Z.abs (MID_X c) <= 2 ^ 25 -> Z.abs (MID_Y c) <= 2 ^ 25 ->
  (num_val half == inject_Z thickness / 2)%Q ->
  forall (gx gy : Z) (nx ny : num),
    -1 <= gx <= 1 -> -1 <= gy <= 1 ->
    (nx = PyFloat (inject_Z gx) \/ (nx = PyInt 0 /\ gx = 0)) ->
    (ny = PyFloat (inject_Z gy) \/ (ny = PyInt 0 /\ gy = 0)) ->
    forall x y : Z, Z.abs x <= 2 ^ 25 -> Z.abs y <= 2 ^ 25 ->
      at_point (logical_to_screen c (fl_sub (PyInt x) (fl_mul nx half),
                                     fl_sub (PyInt y) (fl_mul ny half)))
        (inject_Z (x + MID_X c) - inject_Z (gx * thickness) / 2)
        (inject_Z (MID_Y c - y) + inject_Z (gy * thickness) / 2)
      /\ at_point (logical_to_screen c (fl_add (PyInt x) (fl_mul nx half),
                                        fl_add (PyInt y) (fl_mul ny half)))
           (inject_Z (x + MID_X c) + inject_Z (gx * thickness) / 2)
           (inject_Z (MID_Y c - y) - inject_Z (gy * thickness) / 2).
Proof.
  intros Bt Bmx Bmy Hhalf gx gy nx ny Hgx Hgy Hnx Hny x y Bx By.
  destruct (fl_mul_unit_half gx thickness nx half Hgx Hnx Hhalf Bt) as [Sx Bgx].
  destruct (fl_mul_unit_half gy thickness ny half Hgy Hny Hhalf Bt) as [Sy Bgy].
  unfold at_point, logical_to_screen. cbn [fst snd].
  set (sx := fl_mul nx half) in *. set (sy := fl_mul ny half) in *.
  set (tx := gx * thickness) in *. set (ty := gy * thickness) in *.
  set (mx := MID_X c) in *. set (my := MID_Y c) in *.
  clearbody sx sy tx ty mx my. clear Hgx Hgy Hnx Hny Hhalf Bt.
  assert (P25 : 2 ^ 25 = 33554432) by reflexivity.
  assert (P52 : 2 ^ 52 = 4503599627370496) by reflexivity.
  assert (A1 := fl_sub_half (PyInt x) sx (2 * x) tx (num_val_int_half x) Sx
                  ltac:(lia) ltac:(lia)).
  assert (A2 := fl_sub_half (PyInt y) sy (2 * y) ty (num_val_int_half y) Sy
                  ltac:(lia) ltac:(lia)).
  assert (A3 := fl_add_half (PyInt x) sx (2 * x) tx (num_val_int_half x) Sx
                  ltac:(lia) ltac:(lia)).
  assert (A4 := fl_add_half (PyInt y) sy (2 * y) ty (num_val_int_half y) Sy
                  ltac:(lia) ltac:(lia)).
  assert (C1 := fl_add_half _ (PyInt mx) (2 * x - tx) (2 * mx) A1 (num_val_int_half mx)
                  ltac:(lia) ltac:(lia)).
  assert (C2 := fl_sub_half (PyInt my) _ (2 * my) (2 * y - ty) (num_val_int_half my) A2
                  ltac:(lia) ltac:(lia)).
  assert (C3 := fl_add_half _ (PyInt mx) (2 * x + tx) (2 * mx) A3 (num_val_int_half mx)
                  ltac:(lia) ltac:(lia)).
  assert (C4 := fl_sub_half (PyInt my) _ (2 * my) (2 * y + ty) (num_val_int_half my) A4
                  ltac:(lia) ltac:(lia)).
  rewrite C1, C2, C3, C4. push_inject_Z. repeat split; field.
Qed.

(** A thick line between integer points that is horizontal or vertical is
    drawn as one quadrilateral: the rectangle that has the segment as its
    middle line and the thickness as its width, given by its four corners
    in screen coordinates.  For a line of length zero the four corners are
    the point itself.  The line width is set to the thickness before and
    reset to 1 after.  The coordinates, the thickness and the canvas are of
    ordinary size (at most [2^25]), where every float operation of the
    computation is exact. *)
Theorem thick_line_axis_aligned (c : canvas) (d : gmap string num)
    (x1 y1 x2 y2 thickness mask : Z) (color : Q * Q * Q) :
  d !! "x1" = Some (PyInt x1) -> d !! "y1" = Some (PyInt y1) ->
  d !! "x2" = Some (PyInt x2) -> d !! "y2" = Some (PyInt y2) ->
  x1 = x2 \/ y1 = y2 ->
  Z.abs x1 <= 2 ^ 25 -> Z.abs y1 <= 2 ^ 25 ->
  Z.abs x2 <= 2 ^ 25 -> Z.abs y2 <= 2 ^ 25 ->
  Z.abs thickness <= 2 ^ 25 ->
  Z.abs (MID_X c) <= 2 ^ 25 -> Z.abs (MID_Y c) <= 2 ^ 25 ->
  let ox := (inject_Z (Z.sgn (y2 - y1) * thickness) / 2)%Q in
  let oy := (inject_Z (Z.sgn (x2 - x1) * thickness) / 2)%Q in
  exists v1 v2 v3 v4,
    draw_thick_object c d "line" thickness mask color
    = Some [glLineWidth (PyInt thickness); glColor3fv color; glQuad v1 v2 v3 v4;
            glLineWidth (PyFloat 1)]
    /\ at_point v1 (inject_Z (x1 + MID_X c) + ox) (inject_Z (MID_Y c - y1) + oy)
    /\ at_point v2 (inject_Z (x1 + MID_X c) - ox) (inject_Z (MID_Y c - y1) - oy)
    /\ at_point v3 (inject_Z (x2 + MID_X c) - ox) (inject_Z (MID_Y c - y2) - oy)
    /\ at_point v4 (inject_Z (x2 + MID_X c) + ox) (inject_Z (MID_Y c - y2) + oy).
Proof.
  intros H1 H2 H3 H4 Hax Bx1 By1 Bx2 By2 Bt Bmx Bmy ox oy.
  assert (P25 : 2 ^ 25 = 33554432) by reflexivity.
  assert (P52 : 2 ^ 52 = 4503599627370496) by reflexivity.
  assert (P53 : 2 ^ 53 = 9007199254740992) by reflexivity.
  unfold draw_thick_object. cbn [String.eqb Ascii.eqb Bool.eqb].
  change (String.eqb "line" "line") with true. cbn iota.
  rewrite H1, H2, H3, H4. cbn [mbind option_bind].
  set (dx := x2 - x1) in *. set (dy := y2 - y1) in *.
  change (fl_sub (PyInt x2) (PyInt x1)) with (PyInt dx).
  change (fl_sub (PyInt y2) (PyInt y1)) with (PyInt dy).
  change (py_neg (PyInt dy)) with (PyInt (- dy)).
  set (n := Z.abs dx + Z.abs dy).
  assert (Hn : 0 <= n <= 2 ^ 26) by (unfold n, dx, dy; lia).
  assert (Elen : fl_sqrt (fl_add (fl_sq (PyInt (- dy))) (fl_sq (PyInt dx)))
                 = PyFloat (b64_sqrt (inject_Z (n * n)))).
  { unfold fl_sqrt, fl_sq, fl_add, fval, py_float. cbn [num_val].
    replace (- dy * - dy + dx * dx) with (n * n)
      by (unfold n, dx, dy; destruct Hax as [E|E]; rewrite E; lia).
    rewrite b64_int by nia. reflexivity. }
  rewrite Elen. clear Elen.
  assert (Hlen : (b64_sqrt (inject_Z (n * n)) == inject_Z n)%Q)
    by (apply b64_sqrt_square; lia).
  set (L := b64_sqrt (inject_Z (n * n))) in *.
  set (half := fl_div (PyInt thickness) (PyFloat 2)).
  assert (Hhalf : (num_val half == inject_Z thickness / 2)%Q).
  { unfold half, fl_div, fval, py_float. cbn [num_val].
    rewrite b64_int by lia. apply b64_half. lia. }
  assert (Hsgn : forall a b : Z, a = 0 \/ b = 0 -> Z.abs a <= 2 ^ 26 ->
            Z.abs a + Z.abs b = n -> n <> 0 ->
            fl_div (PyInt a) (PyFloat L) = PyFloat (inject_Z (Z.sgn a))).
  { intros a b Hab Ba En Hnz.
    unfold fl_div, fval, py_float. cbn [num_val]. rewrite b64_int by lia.
    assert (E : (inject_Z a / L == inject_Z (Z.sgn a))%Q).
    { rewrite Hlen.
      assert (Ea : a = Z.sgn a * n) by (destruct (Z.sgn_spec a) as [[? ->]|[[? ->]|[? ->]]]; lia).
      rewrite Ea at 1. rewrite inject_Z_mult. field.
      intros Z0. apply Hnz. apply (inject_Z_injective n 0). exact Z0. }
    rewrite (b64_comp _ _ E), b64_int by (pose proof (Z.sgn_spec a); lia).
    reflexivity. }
  pose proof (thick_corners c thickness half Bt Bmx Bmy Hhalf) as Hcorner.
  assert (Bdx : Z.abs dx <= 2 ^ 26) by (unfold dx; lia).
  assert (Bdy : Z.abs dy <= 2 ^ 26) by (unfold dy; lia).
  destruct (py_eq (PyFloat L) (PyInt 0)) eqn:Ez.
  - apply py_eq_spec in Ez. cbn [num_val] in Ez. rewrite Hlen in Ez.
    pose proof (proj1 (inject_Z_injective _ 0) Ez) as Ez0.
    assert (Hdx : dx = 0) by lia. assert (Hdy : dy = 0) by lia.
    eexists _, _, _, _. split; [reflexivity|].
    destruct (Hcorner 0 0 (PyInt 0) (PyInt 0) ltac:(lia) ltac:(lia)
                (or_intror (conj eq_refl eq_refl)) (or_intror (conj eq_refl eq_refl))
                x1 y1 Bx1 By1) as [Q1 Q2].
    destruct (Hcorner 0 0 (PyInt 0) (PyInt 0) ltac:(lia) ltac:(lia)
                (or_intror (conj eq_refl eq_refl)) (or_intror (conj eq_refl eq_refl))
                x2 y2 Bx2 By2) as [Q3 Q4].
    unfold ox, oy. rewrite Hdx, Hdy. cbn [Z.sgn]. rewrite Z.mul_0_l in *.
    unfold at_point in *. cbn [fst snd] in *.
    repeat split;
      first [rewrite (proj1 Q1) | rewrite (proj2 Q1) | rewrite (proj1 Q2) | rewrite (proj2 Q2)
            | rewrite (proj1 Q3) | rewrite (proj2 Q3) | rewrite (proj1 Q4) | rewrite (proj2 Q4)];
      change (inject_Z 0) with 0%Q; field.
  - assert (Hnz : n <> 0).
    { intros Z0. apply not_true_iff_false in Ez. apply Ez. apply py_eq_spec.
      cbn [num_val]. rewrite Hlen, Z0. reflexivity. }
    rewrite (Hsgn (- dy) dx) by (unfold n, dx, dy in *; lia).
    rewrite (Hsgn dx dy) by (unfold n, dx, dy in *; lia).
    eexists _, _, _, _. split; [reflexivity|].
    assert (Gx : -1 <= Z.sgn (- dy) <= 1) by (pose proof (Z.sgn_spec (- dy)); lia).
    assert (Gy : -1 <= Z.sgn dx <= 1) by (pose proof (Z.sgn_spec dx); lia).
    destruct (Hcorner (Z.sgn (- dy)) (Z.sgn dx) _ _ Gx Gy (or_introl eq_refl)
                (or_introl eq_refl) x1 y1 Bx1 By1) as [Q1 Q2].
    destruct (Hcorner (Z.sgn (- dy)) (Z.sgn dx) _ _ Gx Gy (or_introl eq_refl)
                (or_introl eq_refl) x2 y2 Bx2 By2) as [Q3 Q4].
    unfold ox, oy. rewrite Z.sgn_opp in *.
    unfold at_point in *. cbn [fst snd] in *.
    repeat split;
      first [rewrite (proj1 Q1) | rewrite (proj2 Q1) | rewrite (proj1 Q2) | rewrite (proj2 Q2)
            | rewrite (proj1 Q3) | rewrite (proj2 Q3) | rewrite (proj1 Q4) | rewrite (proj2 Q4)];
      push_inject_Z; field.
Qed.

Lemma thick_line_axis_aligned_witness :
  let d : gmap string num :=
    <["x1" := PyInt 0]> (<["y1" := PyInt 0]> (<["x2" := PyInt 20]> (<["y2" := PyInt 0]> ∅))) in
  draw_thick_object (update_canvas_dimensions 1000 700) d "line" 4 0 (0, 0, 1)%Q
  = Some [glLineWidth (PyInt 4); glColor3fv (0, 0, 1)%Q;
          glQuad (PyFloat 500, PyFloat 352) (PyFloat 500, PyFloat 348)
            (PyFloat 520, PyFloat 348) (PyFloat 520, PyFloat 352);
          glLineWidth (PyFloat 1)].
Proof.
  intros d.
  destruct (thick_line_axis_aligned (update_canvas_dimensions 1000 700) d 0 0 20 0 4 0
              (0, 0, 1)%Q eq_refl eq_refl eq_refl eq_refl (or_intror eq_refl)
              ltac:(cbv; discriminate) ltac:(cbv; discriminate) ltac:(cbv; discriminate)
              ltac:(cbv; discriminate) ltac:(cbv; discriminate) ltac:(cbv; discriminate)
              ltac:(cbv; discriminate))
    as (v1 & v2 & v3 & v4 & E & _).
  rewrite E. vm_compute in E. injection E as <- <- <- <-. reflexivity.
Defined.


(** ** Selecting the closest object *)

Lemma closest_unchanged keys m c :
  Forall (fun k => ext_lt k.1 m = false) keys -> closest keys m c = (m, c).
Proof.
  unfold closest. induction 1 as [|k keys Hk _ IH]; [reflexivity|].
  simpl. rewrite Hk. exact IH.
Qed.

Lemma closest_in keys : forall m c,
  closest keys m c = (m, c) \/ closest keys m c ∈ keys.
Proof.
  unfold closest. induction keys as [|k keys IH]; intros m c; [left; reflexivity|].
  simpl. destruct (ext_lt k.1 m).
  - destruct k as [km kc]. destruct (IH km kc) as [E|E].
    + right. rewrite E. left.
    + right. right. exact E.
  - destruct (IH m c) as [E|E]; [left; exact E|right; right; exact E].
Qed.

Lemma closest_app l1 l2 m c :
  closest (l1 ++ l2) m c = closest l2 (closest l1 m c).1 (closest l1 m c).2.
Proof.
  unfold closest. rewrite fold_left_app.
  destruct (fold_left _ l1 (m, c)) as [m1 c1]. reflexivity.
Qed.

Lemma closest_first_minimum l1 l2 k m c :
  ext_lt k.1 m = true ->
  Forall (fun k' => ext_lt k.1 k'.1 = true) l1 ->
  Forall (fun k' => ext_lt k'.1 k.1 = false) l2 ->
  closest (l1 ++ k :: l2) m c = k.
Proof.
  intros Hm H1 H2. rewrite closest_app.
  assert (Hacc : ext_lt k.1 (closest l1 m c).1 = true).
  { destruct (closest_in l1 m c) as [E|E].
    - rewrite E. exact Hm.
    - rewrite Forall_forall in H1. apply H1. exact E. }
  destruct (closest l1 m c) as [m1 c1]. simpl in *.
  unfold closest. simpl. rewrite Hacc. destruct k as [km kc].
  apply (closest_unchanged l2 km kc). exact H2.
Qed.

Section Closest.
Context {trig : Trig}.

Lemma hit_key_weaken lx ly (h h' : gmap loc cell) obj k :
  h ⊆ h' -> hit_key lx ly h obj = Some k -> hit_key lx ly h' obj = Some k.
Proof.
  unfold hit_key. intros Hs E.
  destruct (h !! obj) as [[| |o]|] eqn:Eo; try discriminate.
  rewrite (lookup_weaken _ _ _ _ Eo Hs).
  destruct (h !! obj_params o) as [[d| |]|] eqn:Ep; try discriminate.
  destruct (h !! obj_transformations o) as [[|ts|]|] eqn:Et; try discriminate.
  rewrite (lookup_weaken _ _ _ _ Ep Hs), (lookup_weaken _ _ _ _ Et Hs). exact E.
Qed.

Lemma select_loop_keys lx ly objs keys : forall m c h,
  Forall2 (fun obj k => hit_key lx ly h obj = Some k) objs keys ->
  exists h', select_loop lx ly objs m c h = (Some (closest keys m c), h') /\ h ⊆ h'.
Proof.
  revert keys. induction objs as [|obj objs IH]; intros keys m c h Hall.
  - inversion Hall; subst. exists h. split; reflexivity.
  - inversion Hall as [|? k ? keys' Hk Hrest]; subst.
    unfold hit_key in Hk.
    destruct (h !! obj) as [[| |o]|] eqn:Eo; try discriminate.
    destruct (h !! obj_params o) as [[d| |]|] eqn:Ep; try discriminate.
    destruct (h !! obj_transformations o) as [[|ts|]|] eqn:Et; try discriminate.
    destruct (apply_transformation_list (obj_type o) ts d) as [[[]|] eff] eqn:Ea;
      try discriminate.
    destruct (hit_distance lx ly (obj_type o) (obj_thickness o) eff) as [key|] eqn:Eh;
      try discriminate.
    injection Hk as <-.
    rewrite (select_loop_cons lx ly h obj o d ts eff key objs m c Eo Ep Et Ea Eh).
    pose proof (insert_fresh_subseteq h (CDict eff)) as Hsub.
    destruct (IH keys' (if ext_lt key m then key else m)
                (if ext_lt key m then obj_id o else c)
                (<[fresh (dom h) := CDict eff]> h)) as (h' & E & Hsub').
    { eapply Forall2_impl; [exact Hrest|]. intros x kx Hx.
      eapply hit_key_weaken; [exact Hsub|exact Hx]. }
    exists h'. split; [|etransitivity; eassumption].
    rewrite E. f_equal. f_equal. unfold closest. simpl.
    destruct (ext_lt key m); reflexivity.
Qed.

(** A click in selection mode selects the closest object that is hit: with
    the hit distance and the id of every object of the store computed from
    its effective parameters, the selected id is that of the first object
    that is hit and strictly closer than every object before it in the
    store, provided no object after it is strictly closer; so of several
    objects at the same distance the earliest one is selected.  When no
    object is hit, nothing is selected.  The store is as before, and the
    editor is idle afterwards. *)
Theorem select_at_closest (lx ly : num) (s : state) (keys : list (ext * Z)) :
  Forall2 (fun obj k => hit_key lx ly (heap s) obj = Some k) (objects_to_draw s) keys ->
  exists s',
    select_at lx ly s = Some s'
    /\ selected_object_id s' = (closest keys Infinity (-1)).2
    /\ current_mode s' = MODE_IDLE
    /\ objects_to_draw s' = objects_to_draw s
    /\ next_object_id s' = next_object_id s
    /\ data_file s' = data_file s
    /\ heap s ⊆ heap s'
    /\ (Forall (fun k => k.1 = Infinity) keys -> selected_object_id s' = -1)
    /\ (forall l1 key id l2,
          keys = l1 ++ (Finite key, id) :: l2 ->
          Forall (fun k' => ext_lt (Finite key) k'.1 = true) l1 ->
          Forall (fun k' => ext_lt k'.1 (Finite key) = false) l2 ->
          selected_object_id s' = id).
Proof.
  intros Hall. unfold select_at.
  destruct (select_loop_keys lx ly (objects_to_draw s) keys Infinity (-1) (heap s) Hall)
    as (h' & E & Hsub).
  replace (objects_to_draw (with_selected (-1) s)) with (objects_to_draw s)
    by (destruct s; reflexivity).
  replace (heap (with_selected (-1) s)) with (heap s) by (destruct s; reflexivity).
  rewrite E.
  destruct (closest keys Infinity (-1)) as [m cid] eqn:Ec.
  eexists. split; [reflexivity|].
  assert (Hsel : selected_object_id
            (with_mode MODE_IDLE
               (if negb (cid =? -1)
                then with_selected cid (with_heap h' (with_selected (-1) s))
                else with_selected (-1) (with_heap h' (with_selected (-1) s)))) = cid).
  { destruct (Z.eqb_spec cid (-1)) as [->|_]; destruct s; reflexivity. }
  split; [exact Hsel|].
  split; [destruct (negb (cid =? -1)); destruct s; reflexivity|].
  split; [destruct (negb (cid =? -1)); destruct s; reflexivity|].
  split; [destruct (negb (cid =? -1)); destruct s; reflexivity|].
  split; [destruct (negb (cid =? -1)); destruct s; reflexivity|].
  split; [destruct (negb (cid =? -1)); destruct s; exact Hsub|].
  rewrite Hsel. split.
  - intros Hinf.
    assert (Hu : closest keys Infinity (-1) = (Infinity, -1)).
    { apply closest_unchanged. eapply Forall_impl; [exact Hinf|].
      intros [k i] Hk. simpl in *. rewrite Hk. reflexivity. }
    rewrite Hu in Ec. congruence.
  - intros l1 key id l2 -> H1 H2.
    rewrite (closest_first_minimum l1 l2 (Finite key, id) Infinity (-1) eq_refl H1 H2) in Ec.
    congruence.
Qed.

End Closest.

Lemma select_at_closest_witness :
  exists s',
    select_at (trig := no_trig) (PyInt 10) (PyInt 3)
      (with_mode MODE_SELECTING_OBJECT two_lines_scene) = Some s'
    /\ selected_object_id s' = 0.
Proof.
  destruct (select_at_closest (trig := no_trig) (PyInt 10) (PyInt 3)
              (with_mode MODE_SELECTING_OBJECT two_lines_scene)
              [(Finite (PyFloat 3), 0); (Finite (PyFloat 3), 1)])
    as (s' & E & S & _).
  { repeat constructor. }
  exists s'. split; [exact E|]. rewrite S. reflexivity.
Defined.

(** ** Transformation dialogs *)

Lemma store_ok_append_transformation (s : state) obj o ts t :
  store_ok s = true ->
  heap s !! obj = Some (CObj o) ->
  heap s !! obj_transformations o = Some (CList ts) ->
  exists js,
    mapM (serialize (<[obj_transformations o := CList (ts ++ [t])]> (heap s)))
      (objects_to_draw s) = Some js.
Proof.
  intros Hok Ho Hts. apply store_ok_Forall in Hok.
  assert (Hall : Forall (fun x => is_Some (serialize
            (<[obj_transformations o := CList (ts ++ [t])]> (heap s)) x))
            (objects_to_draw s)).
  { eapply Forall_impl; [exact Hok|]. intros x Hx.
    eapply serialize_extends; [|exact Hx]. eapply heap_extends_list. exact Hts. }
  apply mapM_is_Some in Hall. destruct Hall as [js Hjs]. eauto.
Qed.









Section DialogProps.
Context {trig : Trig}.

(** What the body of the [try] does on an object of the store whose
    parameters have the entries of its type. *)
Lemma append_about_pivot_spec record (s : state) obj o d ts :
  store_ok s = true ->
  heap s !! obj = Some (CObj o) ->
  heap s !! obj_params o = Some (CDict d) ->
  heap s !! obj_transformations o = Some (CList ts) ->
  well_formed_params (obj_type o) d = true ->
  exists eff cx cy js,
    apply_transformation_list (obj_type o) ts d = (Some tt, eff)
    /\ pivot (obj_type o) eff = Some (cx, cy)
    /\ let h1 := <[fresh (dom (heap s)) := CDict eff]> (heap s) in
       let h2 := <[obj_transformations o := CList (ts ++ [record cx cy])]> h1 in
       mapM (serialize h2) (objects_to_draw s) = Some js
       /\ append_about_pivot record obj s
          = Some (with_file (Some js) (with_heap h2 s)).
Proof.
  intros Hok Ho Hd Hts Hwf.
  destruct (apply_transformation_list_total (obj_type o) ts d
              (type_keys_well_formed _ _ Hwf)) as (eff & Ea & Hdom).
  assert (Hwf' : well_formed_params (obj_type o) eff = true)
    by (rewrite (well_formed_params_dom _ d eff Hdom); exact Hwf).
  assert (Hpiv : exists cx cy, pivot (obj_type o) eff = Some (cx, cy)).
  { pose proof (type_keys_well_formed _ _ Hwf') as Hk.
    unfold pivot. unfold type_keys in Hk.
    destruct (String.eqb (obj_type o) "line") eqn:El.
    - apply String.eqb_eq in El. rewrite El in *. cbn [String.eqb Ascii.eqb Bool.eqb orb] in *.
      destruct (Hk "x1") as [x1 ->]; [by repeat constructor|].
      destruct (Hk "x2") as [x2 ->]; [by repeat constructor|].
      destruct (Hk "y1") as [y1 ->]; [by repeat constructor|].
      destruct (Hk "y2") as [y2 ->]; [by repeat constructor|].
      simpl. eauto.
    - destruct (String.eqb (obj_type o) "circle") eqn:Ec.
      + destruct (Hk "xc") as [xc ->]; [by repeat constructor|].
        destruct (Hk "yc") as [yc ->]; [by repeat constructor|].
        simpl. eauto.
      + destruct (String.eqb (obj_type o) "ellipse") eqn:Ee.
        * destruct (Hk "xc") as [xc ->]; [by repeat constructor|].
          destruct (Hk "yc") as [yc ->]; [by repeat constructor|].
          simpl. eauto.
        * simpl. eauto. }
  destruct Hpiv as (cx & cy & Hpiv).
  set (l := fresh (dom (heap s))).
  pose proof (fresh_loc_None (heap s)) as Hl. fold l in Hl.
  set (h1 := <[l := CDict eff]> (heap s)).
  assert (Hsub : heap s ⊆ h1) by apply insert_fresh_subseteq.
  assert (Ho1 : h1 !! obj = Some (CObj o)) by (eapply lookup_weaken; eauto).
  assert (Hts1 : h1 !! obj_transformations o = Some (CList ts))
    by (eapply lookup_weaken; eauto).
  assert (Hok1 : store_ok (with_heap h1 s) = true).
  { apply store_ok_Forall. apply store_ok_Forall in Hok.
    replace (heap (with_heap h1 s)) with h1 by (destruct s; reflexivity).
    replace (objects_to_draw (with_heap h1 s)) with (objects_to_draw s)
      by (destruct s; reflexivity).
    eapply Forall_impl; [exact Hok|]. intros x [j Hx].
    exists j. eapply serialize_weaken; eauto. }
  destruct (store_ok_append_transformation (with_heap h1 s) obj o ts (record cx cy) Hok1)
    as [js Hjs].
  { destruct s; exact Ho1. }
  { destruct s; exact Hts1. }
  exists eff, cx, cy, js. split; [exact Ea|]. split; [exact Hpiv|].
  cbv zeta. fold l. fold h1.
  replace (heap (with_heap h1 s)) with h1 in Hjs by (destruct s; reflexivity).
  replace (objects_to_draw (with_heap h1 s)) with (objects_to_draw s) in Hjs
    by (destruct s; reflexivity).
  split; [exact Hjs|].
  unfold append_about_pivot.
  rewrite (apply_transformations_spec (heap s) obj o d ts Ho Hd Hts), Ea.
  fold l. fold h1. cbn [mbind option_bind].
  replace (h1 !! l) with (Some (CDict eff)) by (symmetry; apply lookup_insert_eq).
  rewrite Ho1. cbn [mbind option_bind]. rewrite Hpiv. cbn [mbind option_bind].
  unfold append_transformation.
  replace (heap (with_heap h1 s)) with h1 by (destruct s; reflexivity).
  rewrite Ho1, Hts1. cbn [mbind option_bind].
  unfold save_objects_to_file.
  match goal with
  | |- context [heap (with_heap ?h ?t)] =>
      replace (heap (with_heap h t)) with h by (destruct s; reflexivity)
  end.
  match goal with
  | |- context [objects_to_draw (with_heap ?h ?t)] =>
      replace (objects_to_draw (with_heap h t)) with (objects_to_draw s)
        by (destruct s; reflexivity)
  end.
  rewrite Hjs. destruct s; reflexivity.
Qed.

Lemma same_values_refl d : same_values d d.
Proof. intros k. destruct (d !! k); [reflexivity|exact I]. Qed.

Lemma apply_transformation_list_snoc type ts t d :
  apply_transformation_list type (ts ++ [t]) d
  = match apply_transformation_list type ts d with
    | (Some _, d1) => apply_transformation type t d1
    | (None, d1) => (None, d1)
    end.
Proof.
  rewrite apply_transformation_list_app. unfold mbind, dictM_bind.
  destruct (apply_transformation_list type ts d) as [[[]|] d1]; [|reflexivity].
  cbn [apply_transformation_list]. unfold mbind, dictM_bind.
  destruct (apply_transformation type t d1) as [[[]|] d2]; reflexivity.
Qed.


End DialogProps.


Section ScaleDialog.
Context {trig : Trig}.

(** Scaling through the dialog stores the record with the current centre
    of the circle or ellipse, or the current middle of the line, as its
    fixed point.  For a line the middle stays where it is and the vector
    from the first to the second end point is multiplied by the two factors
    (in exact arithmetic); for a circle or an ellipse only the radii change.
    Two factors that are not both numbers append nothing and write no file.
    In both cases the selection is dropped, the pending points are cleared
    and the editor is idle. *)
Theorem scale_y_callback_about_pivot (s : state) obj o d ts (scale_x scale_y : option Q) :
  store_ok s = true ->
  heap s !! obj = Some (CObj o) ->
  heap s !! obj_params o = Some (CDict d) ->
  heap s !! obj_transformations o = Some (CList ts) ->
  well_formed_params (obj_type o) d = true ->
  exists s',
    scale_y_callback scale_x scale_y obj s = Some s'
    /\ selected_object_id s' = -1
    /\ current_mode s' = MODE_IDLE
    /\ temp_points s' = []
    /\ objects_to_draw s' = objects_to_draw s
    /\ next_object_id s' = next_object_id s
    /\ match scale_x, scale_y with
       | Some a, Some b =>
           exists eff fx fy eff',
             apply_transformation_list (obj_type o) ts d = (Some tt, eff)
             /\ pivot (obj_type o) eff = Some (fx, fy)
             /\ heap s' !! obj_transformations o
                = Some (CList (ts ++ [Scale (PyFloat a) (PyFloat b) fx fy]))
             /\ data_file s' = mapM (serialize (heap s')) (objects_to_draw s)
             /\ is_Some (data_file s')
             /\ apply_transformation_list (obj_type o)
                  (ts ++ [Scale (PyFloat a) (PyFloat b) fx fy]) d = (Some tt, eff')
             /\ (obj_type o = "line" ->
                 exists x1 y1 x2 y2 x1' y1' x2' y2',
                   (eff !! "x1" = Some x1 /\ eff !! "y1" = Some y1
                    /\ eff !! "x2" = Some x2 /\ eff !! "y2" = Some y2)
                   /\ (eff' !! "x1" = Some x1' /\ eff' !! "y1" = Some y1'
                       /\ eff' !! "x2" = Some x2' /\ eff' !! "y2" = Some y2')
                   /\ (num_val x1' + num_val x2' == num_val x1 + num_val x2)%Q
                   /\ (num_val y1' + num_val y2' == num_val y1 + num_val y2)%Q
                   /\ (num_val x2' - num_val x1' == a * (num_val x2 - num_val x1))%Q
                   /\ (num_val y2' - num_val y1' == b * (num_val y2 - num_val y1))%Q)
             /\ (obj_type o <> "line" ->
                 eff' !! "xc" = eff !! "xc" /\ eff' !! "yc" = eff !! "yc")
       | _, _ => heap s' = heap s /\ data_file s' = data_file s
       end.
Proof.
  intros Hok Ho Hd Hts Hwf. unfold scale_y_callback.
  destruct scale_x as [a|], scale_y as [b|];
    try (eexists; split; [reflexivity|]; destruct s; simpl; repeat split; reflexivity).
  destruct (append_about_pivot_spec (fun fx fy => Scale (PyFloat a) (PyFloat b) fx fy)
              s obj o d ts Hok Ho Hd Hts Hwf) as (eff & fx & fy & js & Ea & Hpiv & Hjs & E).
  cbv zeta in Hjs, E. rewrite E. cbn [mbind option_bind].
  eexists. split; [reflexivity|].
  set (t := Scale (PyFloat a) (PyFloat b) fx fy) in *.
  assert (Hwf' : well_formed_params (obj_type o) eff = true).
  { destruct (apply_transformation_list_total (obj_type o) ts d
                (type_keys_well_formed _ _ Hwf)) as (eff0 & Ea0 & Hdom).
    rewrite Ea in Ea0. injection Ea0 as <-.
    rewrite (well_formed_params_dom _ d eff Hdom). exact Hwf. }
  destruct (apply_transformation_total (obj_type o) t eff (type_keys_well_formed _ _ Hwf'))
    as (eff' & Et & _).
  assert (Hline : obj_type o = "line" ->
    exists x1 y1 x2 y2 x1' y1' x2' y2',
      (eff !! "x1" = Some x1 /\ eff !! "y1" = Some y1
       /\ eff !! "x2" = Some x2 /\ eff !! "y2" = Some y2)
      /\ (eff' !! "x1" = Some x1' /\ eff' !! "y1" = Some y1'
          /\ eff' !! "x2" = Some x2' /\ eff' !! "y2" = Some y2')
      /\ (num_val x1' + num_val x2' == num_val x1 + num_val x2)%Q
      /\ (num_val y1' + num_val y2' == num_val y1 + num_val y2)%Q
      /\ (num_val x2' - num_val x1' == a * (num_val x2 - num_val x1))%Q
      /\ (num_val y2' - num_val y1' == b * (num_val y2 - num_val y1))%Q).
  { intros Ht. rewrite Ht in *. unfold pivot in Hpiv.
    cbn [String.eqb Ascii.eqb Bool.eqb orb] in Hpiv.
    destruct (eff !! "x1") as [x1|] eqn:E1; try discriminate.
    destruct (eff !! "x2") as [x2|] eqn:E2; try discriminate.
    destruct (eff !! "y1") as [y1|] eqn:E3; try discriminate.
    destruct (eff !! "y2") as [y2|] eqn:E4; try discriminate.
    cbn [mbind option_bind] in Hpiv. injection Hpiv as Hfx Hfy.
    unfold t, apply_transformation in Et. cbn [String.eqb Ascii.eqb Bool.eqb] in Et.
    unfold scale_point, mbind, dictM_bind, getitem, setitem in Et.
    rewrite E1, E3 in Et.
    rewrite !lookup_insert_ne, E2, E4 in Et by done.
    injection Et as <-.
    eexists x1, y1, x2, y2, _, _, _, _.
    split; [repeat split; reflexivity|].
    split.
    { repeat split; repeat (rewrite lookup_insert_ne by done); apply lookup_insert_eq. }
    rewrite <- Hfx, <- Hfy.
    repeat first [rewrite num_val_add | rewrite num_val_sub | rewrite num_val_mul
                 | rewrite num_val_div].
    cbn [num_val]. change (inject_Z 2) with 2%Q.
    repeat split; field. }
  assert (Hother : obj_type o <> "line" ->
            eff' !! "xc" = eff !! "xc" /\ eff' !! "yc" = eff !! "yc").
  { intros Hn. pose proof (apply_transformation_frames (obj_type o) t eff) as F.
    rewrite Et in F. cbn [snd] in F.
    assert (Hk : forall k, k = "xc" \/ k = "yc" -> k ∉ written_keys (obj_type o) t).
    { intros k Hk. unfold written_keys, t.
      destruct (String.eqb_spec (obj_type o) "line"); [contradiction|].
      destruct (String.eqb (obj_type o) "circle");
        [|destruct (String.eqb (obj_type o) "ellipse")];
        destruct Hk as [->| ->]; notin_tac. }
    split; apply F, Hk; [left|right]; reflexivity. }
  assert (N1 : obj_transformations o <> obj) by congruence.
  destruct s; simpl in *.
  split; [reflexivity|]. split; [reflexivity|]. split; [reflexivity|].
  split; [reflexivity|]. split; [reflexivity|].
  exists eff, fx, fy, eff'. split; [exact Ea|]. split; [exact Hpiv|].
  split; [apply lookup_insert_eq|].
  split; [symmetry; exact Hjs|]. split; [eauto|].
  split; [rewrite apply_transformation_list_snoc, Ea; exact Et|].
  split; [exact Hline|exact Hother].
Qed.

End ScaleDialog.

Lemma scale_y_callback_about_pivot_witness :
  exists s',
    scale_y_callback (trig := no_trig) (Some 2%Q) (Some 3%Q) 6%positive two_lines_scene
    = Some s'
    /\ heap s' !! 5%positive
       = Some (CList [Scale (PyFloat 2) (PyFloat 3) (PyFloat 10) (PyFloat 0)]).
Proof.
  destruct (scale_y_callback_about_pivot (trig := no_trig) two_lines_scene 6%positive
              (Obj 1 "line" f_dda_line "dda_line" 4%positive (0, 0, 1)%Q STYLE_SOLID 1 0
                 5%positive)
              (<["x1" := PyInt 0]> (<["y1" := PyInt 0]> (<["x2" := PyInt 20]>
                 (<["y2" := PyInt 0]> ∅)))) [] (Some 2%Q) (Some 3%Q))
    as (s' & E & _ & _ & _ & _ & _ & M); try reflexivity.
  destruct M as (eff & fx & fy & eff' & Ea & Hp & L & _).
  exists s'. split; [exact E|].
  injection Ea as <-. vm_compute in Hp. injection Hp as <- <-. exact L.
Defined.


Section ReflectDialog.
Context {trig : Trig}.

(** The reflect dialog reads its choice without regard to case.  The
    choices x, y and origin (or 1, 2, 3) append the reflect record of that
    axis to the list of the object, rewrite the file, drop the selection and
    leave the editor idle.  The choice line (or 4) appends nothing and
    writes no file: it clears the pending points, keeps the object selected
    and waits for the first point of the line.  Any other choice appends
    nothing, but still rewrites the file, drops the selection and leaves the
    editor idle.  The dialog is only opened for a selected object that is in
    the store. *)
Theorem reflect_option_callback_choices (s : state) obj o ts (choice_str : string) :
  store_ok s = true ->
  heap s !! obj = Some (CObj o) ->
  heap s !! obj_transformations o = Some (CList ts) ->
  current_mode s = MODE_APPLY_REFLECT ->
  (selected_object_id s = -1 -> prompt_reflect s = Some (s, None))
  /\ exists s',
       reflect_option_callback choice_str obj s = Some s'
       /\ objects_to_draw s' = objects_to_draw s
       /\ next_object_id s' = next_object_id s
       /\ match reflect_choice_axis (py_lower choice_str) with
          | Some axis =>
              heap s' = <[obj_transformations o := CList (ts ++ [Reflect axis])]> (heap s)
              /\ selected_object_id s' = -1 /\ current_mode s' = MODE_IDLE
              /\ temp_points s' = []
              /\ data_file s' = mapM (serialize (heap s')) (objects_to_draw s)
              /\ is_Some (data_file s')
          | None =>
              if reflect_choice_line (py_lower choice_str) then
                s' = with_selected (obj_id o)
                       (with_temp_points [] (with_mode MODE_APPLY_REFLECT_LINE_P1 s))
              else
                heap s' = heap s
                /\ selected_object_id s' = -1 /\ current_mode s' = MODE_IDLE
                /\ temp_points s' = []
                /\ data_file s' = mapM (serialize (heap s)) (objects_to_draw s)
                /\ is_Some (data_file s')
          end.
Proof.
  intros Hok Ho Hts Hmode. split.
  { intros Hsel. unfold prompt_reflect, prompt_target. rewrite Hsel. reflexivity. }
  assert (Happ : forall axis, exists s',
    (s1 ← append_transformation obj (Reflect axis) s;
     save_objects_to_file
       (if negb (current_mode s1 =? MODE_APPLY_REFLECT_LINE_P1)
        then set_mode MODE_IDLE (with_selected (-1) s1) else s1)) = Some s'
    /\ objects_to_draw s' = objects_to_draw s
    /\ next_object_id s' = next_object_id s
    /\ heap s' = <[obj_transformations o := CList (ts ++ [Reflect axis])]> (heap s)
    /\ selected_object_id s' = -1 /\ current_mode s' = MODE_IDLE
    /\ temp_points s' = []
    /\ data_file s' = mapM (serialize (heap s')) (objects_to_draw s)
    /\ is_Some (data_file s')).
  { intros axis.
    destruct (store_ok_append_transformation s obj o ts (Reflect axis) Hok Ho Hts)
      as [js Hjs].
    unfold append_transformation. rewrite Ho, Hts. cbn [mbind option_bind].
    unfold save_objects_to_file. destruct s; simpl in *. rewrite Hmode. simpl.
    rewrite Hjs. simpl. eexists. split; [reflexivity|]. simpl. rewrite Hjs.
    repeat split; eauto. }
  assert (Hnone : exists s',
    save_objects_to_file
      (if negb (current_mode s =? MODE_APPLY_REFLECT_LINE_P1)
       then set_mode MODE_IDLE (with_selected (-1) s) else s) = Some s'
    /\ objects_to_draw s' = objects_to_draw s
    /\ next_object_id s' = next_object_id s
    /\ heap s' = heap s
    /\ selected_object_id s' = -1 /\ current_mode s' = MODE_IDLE
    /\ temp_points s' = []
    /\ data_file s' = mapM (serialize (heap s)) (objects_to_draw s)
    /\ is_Some (data_file s')).
  { destruct (save_objects_to_file_ok s Hok) as [js Hjs].
    unfold save_objects_to_file in *. destruct s; simpl in *. rewrite Hmode. simpl.
    destruct (mapM (serialize heap0) objects_to_draw0) as [js'|]; [|discriminate].
    simpl. eexists. split; [reflexivity|]. simpl. repeat split; eauto. }
  unfold reflect_option_callback, reflect_choice_axis, reflect_choice_line.
  set (c := py_lower choice_str).
  destruct (String.eqb c "x" || String.eqb c "1").
  { destruct (Happ "x") as (s' & E & A). exists s'. split; [exact E|].
    destruct A as (A1 & A2 & A3). split; [exact A1|]. split; [exact A2|exact A3]. }
  destruct (String.eqb c "y" || String.eqb c "2").
  { destruct (Happ "y") as (s' & E & A). exists s'. split; [exact E|].
    destruct A as (A1 & A2 & A3). split; [exact A1|]. split; [exact A2|exact A3]. }
  destruct (String.eqb c "origin" || String.eqb c "3").
  { destruct (Happ "origin") as (s' & E & A). exists s'. split; [exact E|].
    destruct A as (A1 & A2 & A3). split; [exact A1|]. split; [exact A2|exact A3]. }
  destruct (String.eqb c "line" || String.eqb c "4").
  { replace (heap (with_temp_points [] (with_mode MODE_APPLY_REFLECT_LINE_P1 s)))
      with (heap s) by (destruct s; reflexivity).
    rewrite Ho. eexists. split; [reflexivity|].
    destruct s; simpl. repeat split; reflexivity. }
  destruct Hnone as (s' & E & A). exists s'. split; [exact E|].
  destruct A as (A1 & A2 & A3). split; [exact A1|]. split; [exact A2|exact A3].
Qed.

End ReflectDialog.

Lemma reflect_option_callback_choices_witness :
  exists s',
    reflect_option_callback "Origin" 6%positive
      (with_mode MODE_APPLY_REFLECT two_lines_scene) = Some s'
    /\ heap s' !! 5%positive = Some (CList [Reflect "origin"])
    /\ selected_object_id s' = -1.
Proof.
  destruct (reflect_option_callback_choices
              (with_mode MODE_APPLY_REFLECT two_lines_scene) 6%positive
              (Obj 1 "line" f_dda_line "dda_line" 4%positive (0, 0, 1)%Q STYLE_SOLID 1 0
                 5%positive) [] "Origin")
    as (_ & s' & E & _ & _ & M); try reflexivity.
  exists s'. split; [exact E|].
  change (reflect_choice_axis (py_lower "Origin")) with (Some "origin") in M.
  destruct M as (H & S & _). split; [rewrite H; reflexivity|exact S].
Defined.
